(** * mcp-image-downloader: the batch download pipeline, verified

    A shallow embedding of the JavaScript sources

    - [src/downloader.js]            (ImageDownloader, Semaphore),
    - [src/processor.js]             (ImageProcessor),
    - [src/utils/progressTracker.js] (ProgressTracker, BatchProgressTracker),
    - [src/utils/validator.js]       (validateImageUrl, validateDownloadOptions),
    - [src/index.js]                 (ImageDownloaderServer.handleDownloadImagesBatch),

    followed by the theorems that settle the properties C1 - C10 of the
    specification.

    Conventions of the embedding.

    - A statement that may throw is a [JS.completion]; [try]/[catch] is
      [JS.try_catch].  A promise that may stay pending for ever is a
      [JS.promise].
    - Everything the code obtains from outside (the network, the file
      system, the clock, Node's [path] and [URL]) is read from an explicit
      record of oracles, so that every definition is a total, executable
      function of its inputs.
    - Byte counters, rates, rounded percentages and millisecond clocks are
      integers in the code and are modelled in [Z]; the quotients computed
      from them (ETA, average speed) are IEEE-754 doubles and are modelled by
      Rocq's primitive binary64 floats.  Where the code tests whether a
      number is an integer, or takes any number, the number is a
      [JS.number].
    - Interleavings of the asynchronous downloads are chosen by a schedule
      oracle; theorems quantify over every schedule. *)

From Stdlib Require Import ZArith String Ascii List Bool Lia.
From Stdlib Require Import Floats.
From Stdlib Require Import QArith Qround Lqa.
From stdpp Require Import gmap strings list pretty.

Local Open Scope Z_scope.

(* ===================================================================== *)
(** * Part I: the embedding                                               *)
(* ===================================================================== *)

(** ** JavaScript prelude *)

Module JS.

(** Completion of a statement: it returns normally or throws an [Error]
    carrying a message. *)
Inductive completion (A : Type) : Type :=
| Normal (a : A)
| Throw (message : string).
Arguments Normal {A} a.
Arguments Throw {A} message.

Definition bind {A B} (c : completion A) (k : A -> completion B) : completion B :=
  match c with
  | Normal a => k a
  | Throw m => Throw m
  end.

(** [try { c } catch (error) { handler error.message }] *)
Definition try_catch {A} (c : completion A) (handler : string -> completion A)
  : completion A :=
  match c with
  | Normal a => Normal a
  | Throw m => handler m
  end.

(** The eventual state of a promise. *)
Inductive promise (A : Type) : Type :=
| Fulfilled (a : A)
| Rejected (message : string)
| Pending.
Arguments Fulfilled {A} a.
Arguments Rejected {A} message.
Arguments Pending {A}.

(** Truthiness of an optional string ([undefined], [null] and the empty
    string are falsy) and of an optional number ([undefined] and 0 are
    falsy). *)
Definition truthy_string (s : option string) : bool :=
  match s with
  | Some s => negb (String.eqb s "")
  | None => false
  end.

Definition truthy_number (n : option Z) : bool :=
  match n with
  | Some n => negb (n =? 0)
  | None => false
  end.

(** [arr[i] = v] on an array that may have holes: a write past the end
    extends the array, leaving holes in between. *)
Definition array_set {A} (arr : list (option A)) (i : nat) (v : A)
  : list (option A) :=
  if decide (i < length arr)%nat
  then <[i := Some v]> arr
  else arr ++ replicate (i - length arr) None ++ [Some v].

(** [String.prototype.toLowerCase] on the ASCII range. *)
Definition lower_ascii (c : ascii) : ascii :=
  let n := nat_of_ascii c in
  if ((65 <=? n) && (n <=? 90))%nat then ascii_of_nat (n + 32) else c.

Fixpoint toLowerCase (s : string) : string :=
  match s with
  | EmptyString => EmptyString
  | String c s' => String (lower_ascii c) (toLowerCase s')
  end.

(** [s.includes(sub)] *)
Fixpoint includes (sub s : string) : bool :=
  String.prefix sub s ||
  match s with
  | EmptyString => false
  | String _ s' => includes sub s'
  end.

(** [s.endsWith(suffix)] *)
Definition endsWith (suffix s : string) : bool :=
  let n := String.length s in
  let k := String.length suffix in
  (k <=? n)%nat && String.eqb (String.substring (n - k) k s) suffix.

(** [arr.join(sep)] *)
Definition join (sep : string) (arr : list string) : string :=
  String.concat sep arr.

(** [arr.includes(x)] for an array of strings *)
Definition array_includes (x : string) (arr : list string) : bool :=
  existsb (String.eqb x) arr.

(** A JavaScript number that holds an integer, as a double (exact below
    2^53). *)
Definition of_int (z : Z) : float :=
  if z <? 0
  then PrimFloat.opp (PrimFloat.of_uint63 (Uint63.of_Z (- z)))
  else PrimFloat.of_uint63 (Uint63.of_Z z).

(** [Math.max(a, b)]: NaN if either is NaN, +0 above -0. *)
Definition Math_max (a b : float) : float :=
  if PrimFloat.is_nan a || PrimFloat.is_nan b then PrimFloat.nan
  else if PrimFloat.ltb a b then b
  else if PrimFloat.ltb b a then a
  else if PrimFloat.is_zero a && negb (PrimFloat.get_sign a) then a
  else b.

(** [Math.max(...xs)] over integers; the caller guarantees [xs] is not
    empty where the code does (an empty spread gives -Infinity). *)
Definition Math_max_ints (x : Z) (xs : list Z) : Z :=
  fold_left Z.max xs x.

(** A JavaScript number when it need not be an integer: NaN, an
    infinity, or a finite double. A finite double is a rational, and
    the comparisons and [Number.isInteger] of the code are those of the
    rationals. *)
Inductive number : Type :=
| NaN
| Infinity (negative : bool)
| Finite (q : Q).

(** [Number.MAX_SAFE_INTEGER], 2^53 - 1. *)
Definition MAX_SAFE_INTEGER : Z := 9007199254740991.

(** Truthiness of a number: 0 and NaN are falsy. *)
Definition truthy_num (n : number) : bool :=
  match n with
  | NaN => false
  | Infinity _ => true
  | Finite q => negb (Qeq_bool q 0)
  end.

(** [a < b] and [a <= b] on numbers; a comparison with NaN is false. *)
Definition num_ltb (a b : number) : bool :=
  match a, b with
  | NaN, _ | _, NaN => false
  | Infinity true, Infinity true => false
  | Infinity true, _ => true
  | _, Infinity true => false
  | Infinity false, _ => false
  | Finite _, Infinity false => true
  | Finite x, Finite y => negb (Qle_bool y x)
  end.

Definition num_leb (a b : number) : bool :=
  match a, b with
  | NaN, _ | _, NaN => false
  | Infinity true, _ => true
  | _, Infinity false => true
  | Infinity false, _ => false
  | Finite _, Infinity true => false
  | Finite x, Finite y => Qle_bool x y
  end.

(** A JavaScript value, as far as the code examines one. An object
    (or an array) is plain data, known by its identity. *)
Inductive value : Type :=
| VUndefined
| VNull
| VBoolean (b : bool)
| VNumber (n : number)
| VString (s : string)
| VObject (id : nat).

Definition truthy (v : value) : bool :=
  match v with
  | VUndefined | VNull => false
  | VBoolean b => b
  | VNumber n => truthy_num n
  | VString s => negb (String.eqb s "")
  | VObject _ => true
  end.

(** [typeof v === 'string'] *)
Definition is_string (v : value) : bool :=
  match v with
  | VString _ => true
  | _ => false
  end.

(** [Number.isInteger(v)] *)
Definition Number_isInteger (v : value) : bool :=
  match v with
  | VNumber (Finite q) => Qeq_bool (inject_Z (Qfloor q)) q
  | _ => false
  end.

(** The number that a comparison makes of a value. What a string or an
    object converts to is left to [coerce]. *)
Definition ToNumber (coerce : value -> number) (v : value) : number :=
  match v with
  | VUndefined => NaN
  | VNull => Finite 0
  | VBoolean b => Finite (if b then 1 else 0)
  | VNumber n => n
  | VString _ | VObject _ => coerce v
  end.

(** What reading the key [key] of an object literal gives when the
    literal has no such key of its own, converted to a string: the
    properties inherited from [Object.prototype] are functions, and
    [__proto__] is the prototype itself. [None] is [undefined]. *)
Definition Object_prototype (key : string) : option string :=
  if String.eqb key "__proto__" then Some "[object Object]"
  else if String.eqb key "constructor"
  then Some "function Object() { [native code] }"
  else if array_includes key
            ["__defineGetter__"; "__defineSetter__"; "hasOwnProperty";
             "__lookupGetter__"; "__lookupSetter__"; "isPrototypeOf";
             "propertyIsEnumerable"; "toString"; "valueOf"; "toLocaleString"]
  then Some ("function " ++ key ++ "() { [native code] }")%string
  else None.

End JS.

(** [completion] is a monad; stdpp's [x ← c; k] and [c ;; k] sequence
    statements and propagate a thrown error. *)
#[global] Instance completion_ret : MRet JS.completion := @JS.Normal.
#[global] Instance completion_bind : MBind JS.completion :=
  fun A B k c => JS.bind c k.

(** ** downloader.js: class Semaphore *)

Module Semaphore.

(** The wait queue holds the [resolve] callbacks of the suspended
    callers; a callback is identified by the caller it wakes. *)
Record t : Type := mk {
  max : Z;
  current : Z;
  queue : list nat;
}.

(** [constructor(max)] *)
Definition constructor (max : Z) : t :=
  {| max := max; current := 0; queue := [] |}.

(** The evaluation of [new Semaphore(max)], as a completion. *)
Definition new (max : Z) : JS.completion t :=
  JS.Normal (constructor max).

(** What [acquire()] does for its caller. *)
Inductive acquired : Type :=
| Proceeds   (* the returned promise is already resolved *)
| Suspends.  (* the promise waits for a [release] *)

(** [acquire()] *)
Definition acquire (caller : nat) (s : t) : t * acquired :=
  if current s <? max s
  then ({| max := max s; current := current s + 1; queue := queue s |}, Proceeds)
  else ({| max := max s; current := current s; queue := queue s ++ [caller] |}, Suspends).

(** [release()]: the new state and the caller whose [resolve] was
    shifted off the queue and called, if any. *)
Definition release (s : t) : t * option nat :=
  let s1 := {| max := max s; current := current s - 1; queue := queue s |} in
  match queue s1 with
  | [] => (s1, None)
  | resolve :: rest =>
      ({| max := max s1; current := current s1 + 1; queue := rest |}, Some resolve)
  end.

(** *** Runs of a gate

    A gate together with the callers that currently hold a slot (their
    [acquire] completed and they did not [release] yet), and the record of
    who suspended and who was woken, in order. *)
Record gate : Type := mkGate {
  sem : t;
  holders : list nat;
  suspendedLog : list nat;
  wokenLog : list nat;
}.

Inductive op : Type :=
| Acquire (caller : nat)
| Release (caller : nat).

Definition init (max : Z) : gate :=
  {| sem := constructor max; holders := []; suspendedLog := []; wokenLog := [] |}.

Fixpoint remove_first (c : nat) (l : list nat) : list nat :=
  match l with
  | [] => []
  | x :: l' => if decide (x = c) then l' else x :: remove_first c l'
  end.

(** One operation. A [Release] is only possible for a caller that holds
    a slot. *)
Definition step (g : gate) (o : op) : option gate :=
  match o with
  | Acquire c =>
      match acquire c (sem g) with
      | (s', Proceeds) =>
          Some {| sem := s'; holders := holders g ++ [c];
                  suspendedLog := suspendedLog g; wokenLog := wokenLog g |}
      | (s', Suspends) =>
          Some {| sem := s'; holders := holders g;
                  suspendedLog := suspendedLog g ++ [c]; wokenLog := wokenLog g |}
      end
  | Release c =>
      if decide (c ∈ holders g) then
        match release (sem g) with
        | (s', None) =>
            Some {| sem := s'; holders := remove_first c (holders g);
                    suspendedLog := suspendedLog g; wokenLog := wokenLog g |}
        | (s', Some w) =>
            Some {| sem := s'; holders := remove_first c (holders g) ++ [w];
                    suspendedLog := suspendedLog g; wokenLog := wokenLog g ++ [w] |}
        end
      else None
  end.

Fixpoint run (g : gate) (ops : list op) : option gate :=
  match ops with
  | [] => Some g
  | o :: ops' =>
      match step g o with
      | Some g' => run g' ops'
      | None => None
      end
  end.

End Semaphore.

(** ** utils/progressTracker.js: class ProgressTracker *)

Module ProgressTracker.

(** The raw sample handed to [updateProgress]. *)
Record Progress : Type := mkProgress {
  url : string;
  filename : string;
  downloadedBytes : Z;
  totalBytes : Z;
  percentage : Z;
  speed : Z;
}.

(** The sample with the fields [updateProgress] adds. *)
Record EnhancedProgress : Type := mkEnhanced {
  progress : Progress;
  timestamp : string;
  elapsedTime : Z;
  estimatedTimeRemaining : option float;   (* [None] is JavaScript's null *)
  averageSpeed : float;
}.

Record t : Type := mk {
  progressHistory : list EnhancedProgress;
  startTime : option Z;                    (* [None] is null *)
  lastUpdateTime : option Z;
}.

Definition constructor : t :=
  {| progressHistory := []; startTime := None; lastUpdateTime := None |}.

(** [start()], with the reading of [Date.now()]. *)
Definition start (now : Z) (tr : t) : t :=
  {| progressHistory := []; startTime := Some now; lastUpdateTime := Some now |}.

(** [calculateETA(percentage, elapsedTime)] *)
Definition calculateETA (percentage elapsedTime : float) : option float :=
  if (percentage <=? 0)%float then None
  else
    let totalEstimatedTime := (elapsedTime / percentage * 100)%float in
    Some (JS.Math_max 0%float (totalEstimatedTime - elapsedTime)%float).

(** [calculateAverageSpeed(downloadedBytes, elapsedTime)] *)
Definition calculateAverageSpeed (downloadedBytes elapsedTime : float) : float :=
  if (elapsedTime <=? 0)%float then 0%float
  else (downloadedBytes / elapsedTime * 1000)%float.

(** [updateProgress(progress)], with the readings of [Date.now()] and of
    [new Date().toISOString()]. A null start time counts as 0 in the
    subtraction. *)
Definition updateProgress (now : Z) (iso : string) (p : Progress) (tr : t)
  : t * EnhancedProgress :=
  let totalTime := now - default 0 (startTime tr) in
  let enhancedProgress :=
    {| progress := p;
       timestamp := iso;
       elapsedTime := totalTime;
       estimatedTimeRemaining :=
         calculateETA (JS.of_int (percentage p)) (JS.of_int totalTime);
       averageSpeed :=
         calculateAverageSpeed (JS.of_int (downloadedBytes p)) (JS.of_int totalTime) |} in
  ({| progressHistory := progressHistory tr ++ [enhancedProgress];
      startTime := startTime tr;
      lastUpdateTime := Some now |},
   enhancedProgress).

Module Summary.
Record t : Type := mk {
  totalTime : Z;
  averageSpeed : float;
  peakSpeed : Z;
  progressUpdates : nat;
  finalPercentage : option Z;            (* absent from the zeroed summary *)
}.
End Summary.

Definition zeroSummary : Summary.t :=
  {| Summary.totalTime := 0;
     Summary.averageSpeed := 0%float;
     Summary.peakSpeed := 0;
     Summary.progressUpdates := 0;
     Summary.finalPercentage := None |}.

(** [getSummary()]. [last] is [None] exactly on the empty history, which
    is the test [progressHistory.length === 0]. *)
Definition getSummary (tr : t) : Summary.t :=
  match last (progressHistory tr) with
  | None => zeroSummary
  | Some lastProgress =>
      let speeds :=
        (fun p => speed (progress p)) <$>
          filter (fun p => 0 < speed (progress p)) (progressHistory tr) in
      {| Summary.totalTime := elapsedTime lastProgress;
         Summary.averageSpeed := averageSpeed lastProgress;
         Summary.peakSpeed :=
           match speeds with
           | [] => 0
           | s :: rest => JS.Math_max_ints s rest
           end;
         Summary.progressUpdates := length (progressHistory tr);
         Summary.finalPercentage := Some (percentage (progress lastProgress)) |}
  end.

(** [reset()] *)
Definition reset (tr : t) : t := constructor.

(** [ProgressTracker.formatDuration(milliseconds)], called with any
    number or with null ([None]). The quotients are computed on
    doubles and cut by [Math.floor]; for a duration of at most 2^53 ms,
    whole or not, that is the floor of the exact quotient, and the
    seconds, minutes and hours are integers far below 2^53, on which
    [/] with [Math.floor] is [Z.div] and [%] is [Z.modulo]. Beyond 2^53
    the rounding of the quotient shows, and the model gives no answer
    ([None]). *)
Definition formatDuration (milliseconds : option JS.number) : option string :=
  match milliseconds with
  | None => Some "Unknown"
  | Some ms =>
      if negb (JS.truthy_num ms) || JS.num_ltb ms (JS.Finite 0)
      then Some "Unknown"
      else
        match ms with
        | JS.Finite q =>
            if Qle_bool q (inject_Z (JS.MAX_SAFE_INTEGER + 1)) then
              let seconds := Qfloor (q / 1000) in
              let minutes := seconds / 60 in
              let hours := minutes / 60 in
              Some
                (if 0 <? hours then
                   pretty hours +:+ "h " +:+ pretty (minutes mod 60) +:+ "m "
                     +:+ pretty (seconds mod 60) +:+ "s"
                 else if 0 <? minutes then
                   pretty minutes +:+ "m " +:+ pretty (seconds mod 60) +:+ "s"
                 else pretty seconds +:+ "s")
            else None
        | _ =>
            (* Infinity: every quotient is Infinity, every remainder NaN *)
            Some "Infinityh NaNm NaNs"
        end
  end.

End ProgressTracker.

(** ** utils/progressTracker.js: class BatchProgressTracker *)

Module BatchProgressTracker.

Record CompletedTracker : Type := mkCompleted {
  itemId : nat;
  summary : ProgressTracker.Summary.t;
}.

Record t : Type := mk {
  totalItems : Z;
  completedItems : Z;
  activeTrackers : gmap nat ProgressTracker.t;
  completedTrackers : list CompletedTracker;
  startTime : Z;
}.

Definition constructor (now : Z) (totalItems : Z) : t :=
  {| totalItems := totalItems; completedItems := 0; activeTrackers := ∅;
     completedTrackers := []; startTime := now |}.

(** [createItemTracker(itemId)]: the tracker stored in the map is the
    object that [start()] then mutates, so the map holds the started
    tracker. The body contains no [throw]. *)
Definition createItemTracker (now : Z) (id : nat) (b : t)
  : JS.completion (t * ProgressTracker.t) :=
  let tracker := ProgressTracker.start now ProgressTracker.constructor in
  JS.Normal
    ({| totalItems := totalItems b; completedItems := completedItems b;
        activeTrackers := <[id := tracker]> (activeTrackers b);
        completedTrackers := completedTrackers b; startTime := startTime b |},
     tracker).

(** [completeItem(itemId)] *)
Definition completeItem (id : nat) (b : t) : t :=
  match activeTrackers b !! id with
  | Some tracker =>
      {| totalItems := totalItems b;
         completedItems := completedItems b + 1;
         activeTrackers := delete id (activeTrackers b);
         completedTrackers :=
           completedTrackers b ++
             [{| itemId := id; summary := ProgressTracker.getSummary tracker |}];
         startTime := startTime b |}
  | None => b
  end.

(** [calculateBatchETA(percentage, elapsedTime)] *)
Definition calculateBatchETA (percentage elapsedTime : float) : option float :=
  if (percentage <=? 0)%float then None
  else
    let totalEstimatedTime := (elapsedTime / percentage * 100)%float in
    Some (JS.Math_max 0%float (totalEstimatedTime - elapsedTime)%float).

(** The percentage that [getBatchProgress()] hands to
    [calculateBatchETA]: [(completedItems / totalItems) * 100], not
    rounded. *)
Definition overallPercentage (b : t) : float :=
  (JS.of_int (completedItems b) / JS.of_int (totalItems b) * 100)%float.

(** The [estimatedTimeRemaining] field of [getBatchProgress()]. *)
Definition batchEstimatedTimeRemaining (now : Z) (b : t) : option float :=
  calculateBatchETA (overallPercentage b) (JS.of_int (now - startTime b)).

(** [s.finalBytes] on a summary: the objects that
    [ProgressTracker.getSummary()] builds have no such property, so the
    read gives undefined. *)
Definition finalBytes (s : ProgressTracker.Summary.t) : option Z := None.

(** The fields that [getSummary()] adds to the batch progress:
    [totalBytes], [averageSpeed] and [completedItems]. *)
Record SummaryTotals : Type := mkSummaryTotals {
  totalBytes : Z;
  summaryAverageSpeed : float;
  summaryCompletedItems : list CompletedTracker;
}.

Definition getSummaryTotals (b : t) : SummaryTotals :=
  let completedSummaries := summary <$> completedTrackers b in
  {| totalBytes :=
       fold_left
         (fun sum s =>
            sum + (if JS.truthy_number (finalBytes s)
                   then default 0 (finalBytes s) else 0))
         completedSummaries 0;
     summaryAverageSpeed :=
       if (0 <? length completedSummaries)%nat
       then (fold_left
               (fun sum s => sum + ProgressTracker.Summary.averageSpeed s)
               completedSummaries 0
             / JS.of_int (Z.of_nat (length completedSummaries)))%float
       else 0%float;
     summaryCompletedItems := completedTrackers b |}.

(** The counters of [getBatchProgress()]: [completed], [total] and
    [activeCount]. *)
Definition getBatchCounts (b : t) : Z * Z * nat :=
  (completedItems b, totalItems b, size (activeTrackers b)).

End BatchProgressTracker.

(** ** What Node provides *)

Module Node.

(** A parsed URL, as far as the code reads it. *)
Record URL : Type := mkURL {
  protocol : string;   (* with the trailing colon, as in "https:" *)
  pathname : string;
  search : string;     (* with the leading question mark, or empty *)
}.

(** Node's [URL] constructor and [path] module. [URL_parse] is [None]
    where [new URL(s)] throws a TypeError. *)
Record Platform : Type := mkPlatform {
  URL_parse : string -> option URL;
  path_join : string -> string -> string;
  path_dirname : string -> string;
  path_basename : string -> string;
  path_parse_dir : string -> string;    (* path.parse(p).dir *)
  path_parse_name : string -> string;   (* path.parse(p).name *)
  path_extname : string -> string;
}.

(** [new URL(s)] as a statement. *)
Definition new_URL (node : Platform) (s : string) : JS.completion URL :=
  match URL_parse node s with
  | Some u => JS.Normal u
  | None => JS.Throw "Invalid URL"
  end.

End Node.

(** ** utils/validator.js *)

Module Validator.

Definition imageExtensions : list string :=
  [".jpg"; ".jpeg"; ".png"; ".gif"; ".webp"; ".bmp"; ".tiff"; ".svg"].

(** [validateImageUrl(url)]. The argument is a string, so of the first
    test only the falsy (empty) string remains; the [try]/[catch] turns
    a failed parse into [false]. *)
Definition validateImageUrl (node : Node.Platform) (url : string) : bool :=
  if String.eqb url "" then false
  else
    match Node.URL_parse node url with
    | None => false
    | Some urlObj =>
        if negb (JS.array_includes (Node.protocol urlObj) ["http:"; "https:"])
        then false
        else
          let pathname := JS.toLowerCase (Node.pathname urlObj) in
          let hasImageExtension :=
            existsb (fun ext => JS.endsWith ext pathname) imageExtensions in
          let hasImageQuery :=
            JS.includes "format=" (Node.search urlObj)
            || JS.includes "type=image" (Node.search urlObj)
            || JS.includes ".jpg" (Node.search urlObj)
            || JS.includes ".png" (Node.search urlObj)
            || JS.includes ".webp" (Node.search urlObj) in
          hasImageExtension || hasImageQuery
    end.

(** The options object shared by the validator, the tool handlers and
    the downloader. An absent property is [None]; numbers are the
    integers the tool schema asks for. *)
Record Options : Type := mkOptions {
  savePath : option string;
  filename : option string;
  format : option string;
  compress : bool;
  maxWidth : option Z;
  maxHeight : option Z;
  concurrency : option Z;
}.

Record ValidationResult : Type := mkValidation {
  isValid : bool;
  errors : list string;
  warnings : list string;
}.

Definition validFormats : list string := ["jpeg"; "png"; "webp"; "gif"; "tiff"].

(** [validateDownloadOptions(options)] on the options as the tool
    handlers build them, with strings for the paths and integers for
    the numbers, on which the [typeof] and [Number.isInteger] tests
    hold. Each property is examined only when it is truthy.
    [Untyped.validateDownloadOptions] below is the function on any
    options object. *)
Definition validateDownloadOptions (options : Options) : ValidationResult :=
  let errors :=
    (match format options with
     | Some f =>
         if negb (String.eqb f "") && negb (JS.array_includes (JS.toLowerCase f) validFormats)
         then ["format must be one of: " +:+ JS.join ", " validFormats]
         else []
     | None => []
     end)
    ++ (if JS.truthy_number (maxWidth options) && (default 0 (maxWidth options) <=? 0)
        then ["maxWidth must be a positive integer"] else [])
    ++ (if JS.truthy_number (maxHeight options) && (default 0 (maxHeight options) <=? 0)
        then ["maxHeight must be a positive integer"] else [])
    ++ (if JS.truthy_number (concurrency options)
        then
          if (default 0 (concurrency options) <? 1) || (10 <? default 0 (concurrency options))
          then ["concurrency must be an integer between 1 and 10"] else []
        else []) in
  let warnings :=
    (if JS.truthy_number (maxWidth options) && (4000 <? default 0 (maxWidth options))
     then ["maxWidth is very large, this may consume significant memory"] else [])
    ++ (if JS.truthy_number (maxHeight options) && (4000 <? default 0 (maxHeight options))
        then ["maxHeight is very large, this may consume significant memory"] else []) in
  {| isValid := Nat.eqb (length errors) 0; errors := errors; warnings := warnings |}.

(** The result of [validateImageUrls]. *)
Record UrlsValidation : Type := mkUrlsValidation {
  valid : list string;
  invalid : list string;
  urlErrors : list string;
}.

(** The body of [urls.forEach((url, index) => ...)], from [index] on. *)
Fixpoint validateImageUrls_from (node : Node.Platform) (index : nat)
    (urls : list string) (acc : UrlsValidation) : UrlsValidation :=
  match urls with
  | [] => acc
  | url :: rest =>
      validateImageUrls_from node (S index) rest
        (if validateImageUrl node url
         then {| valid := valid acc ++ [url]; invalid := invalid acc;
                 urlErrors := urlErrors acc |}
         else {| valid := valid acc; invalid := invalid acc ++ [url];
                 urlErrors :=
                   urlErrors acc
                   ++ ["Invalid URL at index " +:+ pretty index +:+ ": " +:+ url] |})
  end.

(** [validateImageUrls(urls)] on an array of strings. *)
Definition validateImageUrls (node : Node.Platform) (urls : list string)
  : UrlsValidation :=
  validateImageUrls_from node 0 urls
    {| valid := []; invalid := []; urlErrors := [] |}.

(** [s.split('/').pop()]: what follows the last slash, the whole string
    when it has none. [acc] is the segment read so far. *)
Fixpoint lastSegment (acc : string) (s : string) : string :=
  match s with
  | EmptyString => acc
  | String c s' =>
      if Ascii.eqb c "/" then lastSegment "" s'
      else lastSegment (acc +:+ String c "") s'
  end.

(** [extractFilenameFromUrl(url)] *)
Definition extractFilenameFromUrl (node : Node.Platform) (url : string) : string :=
  match Node.URL_parse node url with
  | None => "image"
  | Some urlObj =>
      let filename := lastSegment "" (Node.pathname urlObj) in
      if negb (String.eqb filename "") && JS.includes "." filename
      then filename
      else "image"
  end.

(** *** The validator of the options on any options object *)

Module Untyped.

(** The properties of the options object that the validator reads,
    each holding any value; an absent property is [JS.VUndefined]. *)
Record Options : Type := mkOptions {
  savePath : JS.value;
  filename : JS.value;
  format : JS.value;
  maxWidth : JS.value;
  maxHeight : JS.value;
  concurrency : JS.value;
}.

(** [options.format.toLowerCase()]: a value that is not a string has
    no such method, and the call throws a TypeError. *)
Definition format_toLowerCase (format : JS.value) : JS.completion string :=
  match format with
  | JS.VString f => JS.Normal (JS.toLowerCase f)
  | _ => JS.Throw "options.format.toLowerCase is not a function"
  end.

(** [validateDownloadOptions(options)]. [coerce] is the number that
    a comparison makes of a string or of an object. *)
Definition validateDownloadOptions (coerce : JS.value -> JS.number)
    (options : Options) : JS.completion ValidationResult :=
  let number v := JS.ToNumber coerce v in
  (* Validate savePath *)
  let savePathErrors :=
    if JS.truthy (savePath options) && negb (JS.is_string (savePath options))
    then ["savePath must be a string"] else [] in
  (* Validate filename *)
  let filenameErrors :=
    if JS.truthy (filename options) && negb (JS.is_string (filename options))
    then ["filename must be a string"] else [] in
  (* Validate format *)
  formatErrors ←
    (if JS.truthy (format options) then
       lower ← format_toLowerCase (format options);
       JS.Normal
         (if negb (JS.array_includes lower validFormats)
          then ["format must be one of: " +:+ JS.join ", " validFormats]
          else [])
     else JS.Normal []);
  (* Validate dimensions *)
  let maxWidthErrors :=
    if JS.truthy (maxWidth options)
       && (negb (JS.Number_isInteger (maxWidth options))
           || JS.num_leb (number (maxWidth options)) (JS.Finite 0))
    then ["maxWidth must be a positive integer"] else [] in
  let maxHeightErrors :=
    if JS.truthy (maxHeight options)
       && (negb (JS.Number_isInteger (maxHeight options))
           || JS.num_leb (number (maxHeight options)) (JS.Finite 0))
    then ["maxHeight must be a positive integer"] else [] in
  (* Validate concurrency *)
  let concurrencyErrors :=
    if JS.truthy (concurrency options) then
      if negb (JS.Number_isInteger (concurrency options))
         || JS.num_ltb (number (concurrency options)) (JS.Finite 1)
         || JS.num_ltb (JS.Finite 10) (number (concurrency options))
      then ["concurrency must be an integer between 1 and 10"] else []
    else [] in
  (* Warnings for large dimensions *)
  let warnings :=
    (if JS.truthy (maxWidth options)
        && JS.num_ltb (JS.Finite 4000) (number (maxWidth options))
     then ["maxWidth is very large, this may consume significant memory"] else [])
    ++ (if JS.truthy (maxHeight options)
           && JS.num_ltb (JS.Finite 4000) (number (maxHeight options))
        then ["maxHeight is very large, this may consume significant memory"]
        else []) in
  let errors :=
    savePathErrors ++ filenameErrors ++ formatErrors ++ maxWidthErrors
    ++ maxHeightErrors ++ concurrencyErrors in
  JS.Normal
    {| isValid := Nat.eqb (length errors) 0; errors := errors;
       warnings := warnings |}.




End Untyped.

End Validator.

(** ** processor.js: class ImageProcessor *)

Module ImageProcessor.

(** A sharp instance is the sequence of operations configured on it. *)
Inductive sharp_op : Type :=
| resize (width height : option Z)      (* fit: 'inside', withoutEnlargement *)
| jpeg (quality : Z) (progressive : bool)
| png (compressionLevel : Z) (progressive : bool)
| webp (quality effort : Z)
| gif
| tiff (compression : string).

Definition Sharp : Type := list sharp_op.

Record ProcessOptions : Type := mkProcessOptions {
  format : option string;
  compress : option bool;     (* default false *)
  maxWidth : option Z;
  maxHeight : option Z;
  quality : option Z;         (* default 80 *)
}.

(** What the processor obtains from sharp, the file system and the
    stream pipeline. *)
Record Effects : Type := mkEffects {
  fs_mkdir : string -> JS.completion unit;
  (* pipeline(inputStream, transformer, createWriteStream(path)) *)
  pipeline_transform : string -> Sharp -> string -> JS.completion unit;
  (* sharp(inputPath).metadata().format *)
  metadata_format : string -> JS.completion string;
  (* processor.toFile(path) on sharp(inputPath) *)
  toFile : string -> Sharp -> string -> JS.completion unit;
  (* the message of the error that sharp throws when it refuses the
     parameters of an operation *)
  sharp_refusal : sharp_op -> string;
}.

(** A dimension that [resize] takes: not given, or a positive
    integer. *)
Definition dimension_ok (d : option Z) : bool :=
  match d with
  | Some v => 0 <? v
  | None => true
  end.

(** The parameters that sharp checks when an operation is configured:
    a width and a height that are given are positive integers, a
    quality lies between 1 and 100, a compression level between 0 and
    9, an effort between 0 and 6, and the compression of a tiff is one
    that libvips knows. *)
Definition accepts (op : sharp_op) : bool :=
  match op with
  | resize width height => dimension_ok width && dimension_ok height
  | jpeg quality _ => (1 <=? quality) && (quality <=? 100)
  | png compressionLevel _ => (0 <=? compressionLevel) && (compressionLevel <=? 9)
  | webp quality effort =>
      (1 <=? quality) && (quality <=? 100) && (0 <=? effort) && (effort <=? 6)
  | gif => true
  | tiff compression =>
      JS.array_includes compression
        ["none"; "jpeg"; "deflate"; "packbits"; "ccittfax4"; "lzw"; "webp";
         "zstd"; "jp2k"]
  end.

(** [processor.op(...)]: the processor with the operation configured
    on it, or the error of sharp. *)
Definition configure (fx : Effects) (processor : Sharp) (op : sharp_op)
  : JS.completion Sharp :=
  if accepts op then JS.Normal (processor ++ [op])
  else JS.Throw (sharp_refusal fx op).

(** [applyFormat(processor, format, compress, quality)] *)
Definition applyFormat (fx : Effects) (processor : Sharp) (format : string)
    (compress : bool) (quality : Z) : JS.completion Sharp :=
  let f := JS.toLowerCase format in
  if String.eqb f "jpeg" || String.eqb f "jpg" then
    configure fx processor (jpeg (if compress then quality else 95) true)
  else if String.eqb f "png" then
    configure fx processor (png (if compress then 9 else 6) true)
  else if String.eqb f "webp" then
    configure fx processor (webp (if compress then quality else 95)
                                 (if compress then 6 else 4))
  else if String.eqb f "gif" then
    configure fx processor gif
  else if String.eqb f "tiff" then
    configure fx processor (tiff (if compress then "lzw" else "none"))
  else JS.Throw ("Unsupported format: " +:+ format).

(** The resize step shared by [createTransformer] and [processFile]:
    [if (maxWidth || maxHeight) processor.resize(maxWidth, maxHeight,
    ...)]. *)
Definition applyResize (fx : Effects) (processor : Sharp)
    (maxWidth maxHeight : option Z) : JS.completion Sharp :=
  if JS.truthy_number maxWidth || JS.truthy_number maxHeight
  then configure fx processor (resize maxWidth maxHeight)
  else JS.Normal processor.

(** [createTransformer(options)] *)
Definition createTransformer (fx : Effects) (options : ProcessOptions)
  : JS.completion Sharp :=
  let compress := default false (compress options) in
  let quality := default 80 (quality options) in
  transformer ← applyResize fx [] (maxWidth options) (maxHeight options);
  if JS.truthy_string (format options) then
    applyFormat fx transformer (default "" (format options)) compress quality
  else if compress then
    (* For compression without format change, we'll apply JPEG compression *)
    applyFormat fx transformer "jpeg" compress quality
  else JS.Normal transformer.

(** [getFinalOutputPath(originalPath, format)] *)
Definition getFinalOutputPath (node : Node.Platform) (originalPath : string)
    (format : option string) : string :=
  if negb (JS.truthy_string format) then originalPath
  else
    let f := default "" format in
    let extension := if String.eqb f "jpeg" then "jpg" else f in
    Node.path_join node (Node.path_parse_dir node originalPath)
      (Node.path_parse_name node originalPath +:+ "." +:+ extension).

Definition processingFailed {A} (message : string) : JS.completion A :=
  JS.Throw ("Image processing failed: " +:+ message).

(** [processStream(inputStream, outputPath, options)] *)
Definition processStream (node : Node.Platform) (fx : Effects)
    (inputStream : string) (outputPath : string) (options : ProcessOptions)
  : JS.completion string :=
  JS.try_catch
    (transformer ← createTransformer fx options;
     let finalOutputPath := getFinalOutputPath node outputPath (format options) in
     fs_mkdir fx (Node.path_dirname node finalOutputPath);;
     pipeline_transform fx inputStream transformer finalOutputPath;;
     JS.Normal finalOutputPath)
    processingFailed.

(** The sharp instance that [processFile] configures before saving. *)
Definition fileProcessor (fx : Effects) (inputPath : string)
    (options : ProcessOptions) : JS.completion Sharp :=
  let compress := default false (compress options) in
  let quality := default 80 (quality options) in
  processor ← applyResize fx [] (maxWidth options) (maxHeight options);
  if JS.truthy_string (format options) then
    applyFormat fx processor (default "" (format options)) compress quality
  else if compress then
    (* Apply compression to original format *)
    originalFormat ← metadata_format fx inputPath;
    applyFormat fx processor originalFormat compress quality
  else JS.Normal processor.

(** [processFile(inputPath, outputPath, options)] *)
Definition processFile (node : Node.Platform) (fx : Effects)
    (inputPath : string) (outputPath : string) (options : ProcessOptions)
  : JS.completion string :=
  JS.try_catch
    (processor ← fileProcessor fx inputPath options;
     let finalOutputPath := getFinalOutputPath node outputPath (format options) in
     fs_mkdir fx (Node.path_dirname node finalOutputPath);;
     toFile fx inputPath processor finalOutputPath;;
     JS.Normal finalOutputPath)
    processingFailed.

(** [this.supportedFormats] *)
Definition supportedFormats : list string := ["jpeg"; "png"; "webp"; "gif"; "tiff"].

(** [isFormatSupported(format)] *)
Definition isFormatSupported (format : string) : bool :=
  JS.array_includes (JS.toLowerCase format) supportedFormats.

End ImageProcessor.

(** ** utils/fileManager.js: FileManager.ensureDirectory *)

Module FileManager.

(** [ensureDirectory(dirPath)] *)
Definition ensureDirectory (fs_mkdir : string -> JS.completion unit)
    (dirPath : string) : JS.completion unit :=
  JS.try_catch (fs_mkdir dirPath)
    (fun message =>
       JS.Throw ("Failed to create directory " +:+ dirPath +:+ ": " +:+ message)).

(** What the file manager obtains from the file system: [existsSync],
    [readdir], the modification time (in ms) out of [stat], [unlink],
    [rename] and [copyFile]. *)
Record FileSystem : Type := mkFileSystem {
  existsSync : string -> bool;
  fs_readdir : string -> JS.completion (list string);
  fs_stat_mtime : string -> JS.completion Z;
  fs_unlink : string -> JS.completion unit;
  fs_rename : string -> string -> JS.completion unit;
  fs_copyFile : string -> string -> JS.completion unit;
}.

(** [fileExists(filePath)] *)
Definition fileExists (fs : FileSystem) (filePath : string) : bool :=
  existsSync fs filePath.

(** [getFileStats(filePath)], as far as its callers read the result. *)
Definition getFileStats (fs : FileSystem) (filePath : string) : JS.completion Z :=
  JS.try_catch (fs_stat_mtime fs filePath)
    (fun message =>
       JS.Throw ("Failed to get file stats for " +:+ filePath +:+ ": " +:+ message)).

(** [deleteFile(filePath)] *)
Definition deleteFile (fs : FileSystem) (filePath : string) : JS.completion unit :=
  JS.try_catch (fs_unlink fs filePath)
    (fun message =>
       JS.Throw ("Failed to delete file " +:+ filePath +:+ ": " +:+ message)).

(** [getDirectoryContents(dirPath)] *)
Definition getDirectoryContents (fs : FileSystem) (dirPath : string)
  : JS.completion (list string) :=
  JS.try_catch (fs_readdir fs dirPath)
    (fun message =>
       JS.Throw ("Failed to read directory " +:+ dirPath +:+ ": " +:+ message)).

(** [moveFile(sourcePath, targetPath)] *)
Definition moveFile (node : Node.Platform)
    (fs_mkdir : string -> JS.completion unit) (fs : FileSystem)
    (sourcePath targetPath : string) : JS.completion unit :=
  JS.try_catch
    (ensureDirectory fs_mkdir (Node.path_dirname node targetPath);;
     fs_rename fs sourcePath targetPath)
    (fun message =>
       JS.Throw ("Failed to move file from " +:+ sourcePath +:+ " to "
                 +:+ targetPath +:+ ": " +:+ message)).

(** [copyFile(sourcePath, targetPath)] *)
Definition copyFile (node : Node.Platform)
    (fs_mkdir : string -> JS.completion unit) (fs : FileSystem)
    (sourcePath targetPath : string) : JS.completion unit :=
  JS.try_catch
    (ensureDirectory fs_mkdir (Node.path_dirname node targetPath);;
     fs_copyFile fs sourcePath targetPath)
    (fun message =>
       JS.Throw ("Failed to copy file from " +:+ sourcePath +:+ " to "
                 +:+ targetPath +:+ ": " +:+ message)).

(** The name that [generateUniqueFilename] tries when its counter is
    [counter]. *)
Definition candidate (baseName extension : string) (counter : nat) : string :=
  match counter with
  | O => baseName +:+ "." +:+ extension
  | S _ => baseName +:+ "_" +:+ pretty counter +:+ "." +:+ extension
  end.

(** The [while (this.fileExists(fullPath))] loop of
    [generateUniqueFilename], entered with the counter at [counter];
    [None] when the fuel runs out. *)
Fixpoint generateUniqueFilename_loop (fuel : nat) (node : Node.Platform)
    (fs : FileSystem) (dirPath baseName extension : string) (counter : nat)
  : option string :=
  let filename := candidate baseName extension counter in
  let fullPath := Node.path_join node dirPath filename in
  if fileExists fs fullPath then
    match fuel with
    | O => None
    | S fuel' =>
        generateUniqueFilename_loop fuel' node fs dirPath baseName extension
          (S counter)
    end
  else Some filename.

(** [generateUniqueFilename(dirPath, baseName, extension)] *)
Definition generateUniqueFilename (fuel : nat) (node : Node.Platform)
    (fs : FileSystem) (dirPath baseName extension : string) : option string :=
  generateUniqueFilename_loop fuel node fs dirPath baseName extension 0.

(** The character class of the first replacement: less-than,
    greater-than, colon, double quote (34), slash, backslash (92), bar,
    question mark, star. *)
Definition isInvalidChar (c : ascii) : bool :=
  existsb (Ascii.eqb c)
    ["<"; ">"; ":"; "034"; "/"; "092"; "|"; "?"; "*"]%char.

(** The class [\s] on code units below 256: space, tab, line feed,
    vertical tab, form feed, carriage return and the no-break space
    (160). *)
Definition isSpace (c : ascii) : bool :=
  let n := nat_of_ascii c in
  (n =? 32)%nat || ((9 <=? n) && (n <=? 13))%nat || (n =? 160)%nat.

Definition isUnderscore (c : ascii) : bool := Ascii.eqb c "_".

(** The first replacement: every invalid character becomes an underscore. *)
Fixpoint replaceInvalid (s : string) : string :=
  match s with
  | EmptyString => EmptyString
  | String c s' => String (if isInvalidChar c then "_"%char else c) (replaceInvalid s')
  end.

(** [s.replace(/C+/g, '_')] for a character class [C]: every maximal
    run of characters of the class becomes one underscore. [inRun] tells
    that the character before belongs to the class. *)
Fixpoint squeeze (C : ascii -> bool) (inRun : bool) (s : string) : string :=
  match s with
  | EmptyString => EmptyString
  | String c s' =>
      if C c then
        if inRun then squeeze C true s' else String "_" (squeeze C true s')
      else String c (squeeze C false s')
  end.

(** [s.replace(/^_+/, '')] *)
Fixpoint dropLeadingUnderscores (s : string) : string :=
  match s with
  | EmptyString => EmptyString
  | String c s' => if isUnderscore c then dropLeadingUnderscores s' else s
  end.

(** [s.replace(/_+$/, '')] *)
Fixpoint dropTrailingUnderscores (s : string) : string :=
  match s with
  | EmptyString => EmptyString
  | String c s' =>
      match dropTrailingUnderscores s' with
      | EmptyString => if isUnderscore c then EmptyString else String c EmptyString
      | rest => String c rest
      end
  end.

(** [cleanFilename(filename)], on file names whose code units are
    below 256. A run of two or
    more underscores becomes one underscore, a run of one stays, so
    [/_{2,}/g] is [squeeze isUnderscore]. *)
Definition cleanFilename (filename : string) : string :=
  String.substring 0 255
    (dropTrailingUnderscores
       (dropLeadingUnderscores
          (squeeze isUnderscore false
             (squeeze isSpace false (replaceInvalid filename))))).

(** The [for (const file of files)] loop of [cleanupOldFiles]: the
    paths unlinked so far, and how the loop ends. *)
Fixpoint cleanupOldFiles_loop (node : Node.Platform) (fs : FileSystem)
    (dirPath : string) (maxAge now : Z) (files : list string)
    (deletedCount : Z) (unlinked : list string)
  : list string * JS.completion Z :=
  match files with
  | [] => (unlinked, JS.Normal deletedCount)
  | file :: rest =>
      let filePath := Node.path_join node dirPath file in
      match getFileStats fs filePath with
      | JS.Throw message => (unlinked, JS.Throw message)
      | JS.Normal mtime =>
          if maxAge <? now - mtime then
            match deleteFile fs filePath with
            | JS.Throw message => (unlinked, JS.Throw message)
            | JS.Normal _ =>
                cleanupOldFiles_loop node fs dirPath maxAge now rest
                  (deletedCount + 1) (unlinked ++ [filePath])
            end
          else
            cleanupOldFiles_loop node fs dirPath maxAge now rest
              deletedCount unlinked
      end
  end.

(** [cleanupOldFiles(dirPath, maxAge)], with the reading of
    [Date.now()]: the paths it unlinked, and its completion. *)
Definition cleanupOldFiles (node : Node.Platform) (fs : FileSystem)
    (dirPath : string) (maxAge : option Z) (now : Z)
  : list string * JS.completion Z :=
  let maxAge := default (24 * 60 * 60 * 1000) maxAge in
  let failed message :=
    JS.Throw ("Failed to cleanup old files in " +:+ dirPath +:+ ": " +:+ message) in
  match getDirectoryContents fs dirPath with
  | JS.Throw message => ([], failed message)
  | JS.Normal files =>
      let (unlinked, completion) :=
        cleanupOldFiles_loop node fs dirPath maxAge now files 0 [] in
      (unlinked, JS.try_catch completion failed)
  end.

(** [isPathSafe(filePath, basePath)], with Node's [path.resolve]. *)
Definition isPathSafe (path_resolve : string -> string)
    (filePath basePath : string) : bool :=
  let resolvedPath := path_resolve filePath in
  let resolvedBase := path_resolve basePath in
  String.prefix resolvedBase resolvedPath.

End FileManager.

(** ** downloader.js: class ImageDownloader *)

Module ImageDownloader.

(** The response headers of the HEAD request that the code reads. *)
Record Headers : Type := mkHeaders {
  content_type : option string;
  content_length : option Z;      (* parseInt of the header; [None] for NaN *)
}.

(** The outside world of one download: the answers of the network, of
    the file system, of sharp and of the clock. *)
Record World : Type := mkWorld {
  http_head : string -> JS.completion Headers;
  http_get : string -> JS.completion string;           (* the response body *)
  fx : ImageProcessor.Effects;
  (* pipeline(response.data, createWriteStream(path)) *)
  pipeline_copy : string -> string -> JS.completion unit;
  fs_stat_size : string -> JS.completion Z;
  Date_now : Z;
  toISOString : string;
}.

Record ImageInfo : Type := mkImageInfo {
  contentType : string;
  contentLength : Z;
}.

Record DownloadResult : Type := mkResult {
  success : bool;
  url : string;
  filePath : option string;
  filename : option string;
  size : option Z;
  resultContentType : option string;
  error : option string;
  downloadedAt : string;
}.

(** [a || b] on strings *)
Definition or_else (a b : string) : string :=
  if String.eqb a "" then b else a.

Section Downloader.
Variable node : Node.Platform.
(** [this.proxyConfig], when it is a proxy URL string. *)
Variable proxyConfig : option string.

(** [createAxiosConfig(baseConfig)]: only the parse of a proxy URL can
    throw; the configuration itself is consumed by the network
    oracles. *)
Definition createAxiosConfig : JS.completion unit :=
  match proxyConfig with
  | Some p =>
      if String.eqb p "" then JS.Normal tt
      else Node.new_URL node p;; JS.Normal tt
  | None => JS.Normal tt
  end.

(** [getImageInfo(url)] *)
Definition getImageInfo (w : World) (url : string) : JS.completion ImageInfo :=
  JS.try_catch
    (createAxiosConfig;;
     response ← http_head w url;
     JS.Normal
       {| contentType := or_else (default "" (content_type response)) "image/jpeg";
          contentLength :=
            if JS.truthy_number (content_length response)
            then default 0 (content_length response) else 0 |})
    (fun _ =>
       (* Fallback to default values if HEAD request fails *)
       JS.Normal {| contentType := "image/jpeg"; contentLength := 0 |}).

(** [typeMap[contentType]] as the template of the file name prints
    it, the empty string standing for [undefined]. The table is an
    object literal: a key that it does not hold is looked up in
    [Object.prototype]. *)
Definition typeMap (contentType : string) : string :=
  if String.eqb contentType "image/jpeg" then "jpg"
  else if String.eqb contentType "image/png" then "png"
  else if String.eqb contentType "image/webp" then "webp"
  else if String.eqb contentType "image/gif" then "gif"
  else default "" (JS.Object_prototype contentType).

(** [s.slice(1)] *)
Definition slice1 (s : string) : string :=
  match s with
  | EmptyString => EmptyString
  | String _ s' => s'
  end.

(** [generateFilename(url, contentType, format)] *)
Definition generateFilename (w : World) (url contentType : string)
    (format : option string) : JS.completion string :=
  urlObj ← Node.new_URL node url;
  let urlPath := Node.pathname urlObj in
  let baseName := or_else (Node.path_basename node urlPath) "image" in
  let nameWithoutExt := or_else (Node.path_parse_name node baseName) "image" in
  let extension :=
    if JS.truthy_string format then
      (if String.eqb (default "" format) "jpeg" then "jpg" else default "" format)
    else
      or_else (typeMap contentType)
        (or_else (slice1 (Node.path_extname node baseName)) "jpg") in
  let timestamp := Date_now w in
  JS.Normal (nameWithoutExt +:+ "_" +:+ pretty timestamp +:+ "." +:+ extension).

(** The body of the [try] block of [downloadSingle]. The progress
    callback only observes the transfer and is not part of the
    result. *)
Definition downloadSingle_try (w : World) (url : string)
    (options : Validator.Options) : JS.completion DownloadResult :=
  let savePath := default "./downloads" (Validator.savePath options) in
  let format := Validator.format options in
  let compress := Validator.compress options in
  let maxWidth := Validator.maxWidth options in
  let maxHeight := Validator.maxHeight options in
  (* Ensure save directory exists *)
  FileManager.ensureDirectory (ImageProcessor.fs_mkdir (fx w)) savePath;;
  (* Get image info and generate filename *)
  imageInfo ← getImageInfo w url;
  finalFilename ←
    (if JS.truthy_string (Validator.filename options)
     then JS.Normal (default "" (Validator.filename options))
     else generateFilename w url (contentType imageInfo) format);
  let filePath := Node.path_join node savePath finalFilename in
  (* Download image *)
  createAxiosConfig;;
  response ← http_get w url;
  (* Save original or process image *)
  finalPath ←
    (if JS.truthy_string format || compress
        || JS.truthy_number maxWidth || JS.truthy_number maxHeight
     then
       ImageProcessor.processStream node (fx w) response filePath
         {| ImageProcessor.format := format;
            ImageProcessor.compress := Some compress;
            ImageProcessor.maxWidth := maxWidth;
            ImageProcessor.maxHeight := maxHeight;
            ImageProcessor.quality := None |}
     else
       pipeline_copy w response filePath;; JS.Normal filePath);
  statsSize ← fs_stat_size w finalPath;
  JS.Normal
    {| success := true;
       url := url;
       filePath := Some finalPath;
       filename := Some (Node.path_basename node finalPath);
       size := Some statsSize;
       resultContentType := Some (contentType imageInfo);
       error := None;
       downloadedAt := toISOString w |}.

(** [downloadSingle(url, options)] *)
Definition downloadSingle (w : World) (url : string)
    (options : Validator.Options) : JS.completion DownloadResult :=
  JS.try_catch (downloadSingle_try w url options)
    (fun message =>
       JS.Normal
         {| success := false;
            url := url;
            filePath := None;
            filename := None;
            size := None;
            resultContentType := None;
            error := Some message;
            downloadedAt := toISOString w |}).

(** *** [downloadBatch]

    The asynchronous tasks of [downloadBatch] are run by an event loop.
    A task whose [acquire] promise is resolved is [ready]: its
    continuation is a microtask. A task that awaits its
    [downloadSingle] is [inflight]. Microtasks run first; when none is
    left, one of the downloads in flight settles, chosen by the
    schedule. The progress callbacks only observe the trackers; they
    are not part of the state. *)

Record BatchState : Type := mkBatchState {
  semaphore : Semaphore.t;
  batchTracker : BatchProgressTracker.t;
  results : list (option DownloadResult);   (* an array, maybe with holes *)
  ready : list nat;
  inflight : list nat;
  started : list nat;         (* the items whose [downloadSingle] was called *)
  settled : nat;              (* how many of [downloadPromises] are fulfilled *)
  rejected : option string;   (* the first rejection among [downloadPromises] *)
}.

Definition set_semaphore (s : Semaphore.t) (st : BatchState) : BatchState :=
  mkBatchState s (batchTracker st) (results st) (ready st) (inflight st)
    (started st) (settled st) (rejected st).

Definition set_ready (r : list nat) (st : BatchState) : BatchState :=
  mkBatchState (semaphore st) (batchTracker st) (results st) r (inflight st)
    (started st) (settled st) (rejected st).

Definition set_inflight (l : list nat) (st : BatchState) : BatchState :=
  mkBatchState (semaphore st) (batchTracker st) (results st) (ready st) l
    (started st) (settled st) (rejected st).

Definition reject (message : string) (st : BatchState) : BatchState :=
  mkBatchState (semaphore st) (batchTracker st) (results st) (ready st)
    (inflight st) (started st) (settled st)
    (Some (default message (rejected st))).

Section Run.
Variable urls : list string.
Variable downloadOptions : Validator.Options.
(** The world each item meets, the clock at each step of the loop,
    and the choice of the download that settles at each step. *)
Variable worlds : nat -> World.
Variable clock : nat -> Z.
Variable sched : nat -> nat.

(** The [url] captured by the task of [index]. *)
Definition urlAt (index : nat) : string := default "" (urls !! index).

(** The synchronous part of a task: [await semaphore.acquire()]. *)
Definition launch (st : BatchState) (index : nat) : BatchState :=
  match Semaphore.acquire index (semaphore st) with
  | (s, Semaphore.Proceeds) =>
      set_ready (ready st ++ [index]) (set_semaphore s st)
  | (s, Semaphore.Suspends) => set_semaphore s st
  end.

(** [finally { semaphore.release() }]: a woken task becomes ready. *)
Definition finally_release (st : BatchState) : BatchState :=
  match Semaphore.release (semaphore st) with
  | (s, None) => set_semaphore s st
  | (s, Some woken) => set_ready (ready st ++ [woken]) (set_semaphore s st)
  end.

(** The continuation of a ready task up to its
    [await this.downloadSingle(...)]. *)
Definition begin (now : Z) (index : nat) (st : BatchState) : BatchState :=
  match BatchProgressTracker.createItemTracker now index (batchTracker st) with
  | JS.Normal (b, _) =>
      mkBatchState (semaphore st) b (results st) (ready st)
        (inflight st ++ [index]) (started st ++ [index])
        (settled st) (rejected st)
  | JS.Throw message => finally_release (reject message st)
  end.

(** The continuation of the task of [index] once its download
    settled: complete the item, store the result at its index,
    release the gate. *)
Definition finish (index : nat) (st : BatchState) : BatchState :=
  let st := set_inflight (Semaphore.remove_first index (inflight st)) st in
  match downloadSingle (worlds index) (urlAt index) downloadOptions with
  | JS.Normal result =>
      finally_release
        (mkBatchState (semaphore st)
           (BatchProgressTracker.completeItem index (batchTracker st))
           (JS.array_set (results st) index result)
           (ready st) (inflight st) (started st)
           (S (settled st)) (rejected st))
  | JS.Throw message => finally_release (reject message st)
  end.

(** How a run of [downloadBatch] ends, and which items entered the
    pipeline meanwhile. *)
Record BatchRun : Type := mkBatchRun {
  outcome : JS.promise (list (option DownloadResult));
  launched : list nat;
}.

(** The event loop until [Promise.all(downloadPromises)] settles.
    The promise stays pending for ever when tasks remain and nothing
    is ready or in flight. [None] means that the fuel ran out. *)
Fixpoint drive (fuel step : nat) (st : BatchState) : option BatchRun :=
  match rejected st with
  | Some message => Some (mkBatchRun (JS.Rejected message) (started st))
  | None =>
      if decide (settled st = length urls)
      then Some (mkBatchRun (JS.Fulfilled (results st)) (started st))
      else
        match fuel with
        | O => None
        | S fuel' =>
            match ready st with
            | index :: rest =>
                drive fuel' (S step) (begin (clock step) index (set_ready rest st))
            | [] =>
                match inflight st with
                | [] => Some (mkBatchRun JS.Pending (started st))
                | first :: _ =>
                    let index :=
                      nth (sched step mod length (inflight st)) (inflight st) first in
                    drive fuel' (S step) (finish index st)
                end
            end
        end
  end.

(** [downloadBatch(urls, options)], where [options] carries
    [concurrency] (default 3) next to the download options. *)
Definition downloadBatch (concurrency : option Z) : option BatchRun :=
  let concurrency := default 3 concurrency in
  match Semaphore.new concurrency with
  | JS.Throw message => Some (mkBatchRun (JS.Rejected message) [])
  | JS.Normal semaphore =>
      let batchTracker :=
        BatchProgressTracker.constructor (clock 0) (Z.of_nat (length urls)) in
      let st := mkBatchState semaphore batchTracker [] [] [] [] 0 None in
      drive (2 * length urls + 1) 1
        (fold_left launch (seq 0 (length urls)) st)
  end.

End Run.

End Downloader.

End ImageDownloader.

(** ** index.js: ImageDownloaderServer.handleDownloadImagesBatch *)

Module ImageDownloaderServer.

(** [this.defaultConfig], read from the environment at start-up. *)
Record Config : Type := mkConfig {
  savePath : string;
  format : string;               (* "original" unless configured *)
  compress : bool;
  maxWidth : option Z;
  maxHeight : option Z;
  concurrency : Z;               (* 3 unless configured *)
  proxy : option string;
}.

(** The arguments of the [download_images_batch] tool call. *)
Record BatchArgs : Type := mkBatchArgs {
  urls : list string;
  arg_savePath : option string;
  arg_format : option string;
  arg_compress : option bool;
  arg_maxWidth : option Z;
  arg_maxHeight : option Z;
  arg_concurrency : option Z;
  arg_proxy : option string;
}.

(** What the handler puts in its reply. *)
Record BatchResponse : Type := mkBatchResponse {
  results : list (option ImageDownloader.DownloadResult);
  total : nat;
  successful : nat;
  failed : nat;
}.

(** How a call of the handler ends, and which items entered the download
    pipeline during the call. *)
Record HandlerRun : Type := mkHandlerRun {
  response : JS.promise BatchResponse;
  launched : list nat;
}.

(** [arr.filter(pred).length] on an array with holes: holes are skipped. *)
Definition count_where (pred : ImageDownloader.DownloadResult -> bool)
    (arr : list (option ImageDownloader.DownloadResult)) : nat :=
  length (List.filter (fun slot => match slot with Some r => pred r | None => false end) arr).

Section Handler.
Variable node : Node.Platform.
Variable defaultConfig : Config.
Variable worlds : nat -> ImageDownloader.World.
Variable clock : nat -> Z.
Variable sched : nat -> nat.

(** [urls.filter(url => !validateImageUrl(url))] *)
Definition invalidUrls (args : BatchArgs) : list string :=
  List.filter (fun url => negb (Validator.validateImageUrl node url)) (urls args).

(** The options object handed to [downloadBatch]. *)
Definition batchOptions (args : BatchArgs) : Validator.Options :=
  let format := default (format defaultConfig) (arg_format args) in
  {| Validator.savePath := Some (default (savePath defaultConfig) (arg_savePath args));
     Validator.filename := None;
     Validator.format := if String.eqb format "original" then None else Some format;
     Validator.compress := default (compress defaultConfig) (arg_compress args);
     Validator.maxWidth :=
       match arg_maxWidth args with Some v => Some v | None => maxWidth defaultConfig end;
     Validator.maxHeight :=
       match arg_maxHeight args with Some v => Some v | None => maxHeight defaultConfig end;
     Validator.concurrency :=
       Some (default (concurrency defaultConfig) (arg_concurrency args)) |}.

(** The proxy of the downloader that serves the call. *)
Definition effectiveProxy (args : BatchArgs) : option string :=
  let proxy :=
    match arg_proxy args with Some p => Some p | None => proxy defaultConfig end in
  if JS.truthy_string proxy then proxy else ImageDownloaderServer.proxy defaultConfig.

(** [handleDownloadImagesBatch(args)]. [None] when the model of
    [downloadBatch] runs out of fuel. *)
Definition handleDownloadImagesBatch (args : BatchArgs) : option HandlerRun :=
  (* Validate URLs *)
  if (0 <? length (invalidUrls args))%nat then
    Some {| response :=
              JS.Rejected ("Invalid URLs found: " +:+ JS.join ", " (invalidUrls args));
            launched := [] |}
  else
    let options := batchOptions args in
    match
      ImageDownloader.downloadBatch node (effectiveProxy args) (urls args) options
        worlds clock sched (Validator.concurrency options)
    with
    | None => None
    | Some run =>
        Some {| response :=
                  match ImageDownloader.outcome run with
                  | JS.Fulfilled results =>
                      JS.Fulfilled
                        {| results := results;
                           total := length results;
                           successful :=
                             count_where ImageDownloader.success results;
                           failed :=
                             count_where (fun r => negb (ImageDownloader.success r)) results |}
                  | JS.Rejected message => JS.Rejected message
                  | JS.Pending => JS.Pending
                  end;
                launched := ImageDownloader.launched run |}
    end.

End Handler.

(** The arguments of the [download_image] tool call. *)
Record ImageArgs : Type := mkImageArgs {
  image_url : string;
  image_savePath : option string;
  image_filename : option string;
  image_format : option string;
  image_compress : option bool;
  image_maxWidth : option Z;
  image_maxHeight : option Z;
  image_proxy : option string;
}.

(** The object that [handleDownloadImage] serialises into its reply
    (the progress history, which only records what the callback
    observed, is left out). *)
Record ImageResponse : Type := mkImageResponse {
  image_success : bool;
  image_message : string;
  image_result : ImageDownloader.DownloadResult;
}.

Section SingleHandler.
Variable node : Node.Platform.
Variable defaultConfig : Config.
(** [this.defaultConfig.filename] *)
Variable defaultFilename : option string.
Variable world : ImageDownloader.World.

(** The options object handed to [downloadSingle]. *)
Definition imageOptions (args : ImageArgs) : Validator.Options :=
  let format := default (format defaultConfig) (image_format args) in
  {| Validator.savePath := Some (default (savePath defaultConfig) (image_savePath args));
     Validator.filename :=
       match image_filename args with Some f => Some f | None => defaultFilename end;
     Validator.format := if String.eqb format "original" then None else Some format;
     Validator.compress := default (compress defaultConfig) (image_compress args);
     Validator.maxWidth :=
       match image_maxWidth args with Some v => Some v | None => maxWidth defaultConfig end;
     Validator.maxHeight :=
       match image_maxHeight args with Some v => Some v | None => maxHeight defaultConfig end;
     Validator.concurrency := None |}.

(** The proxy of the downloader that serves the call. *)
Definition imageProxy (args : ImageArgs) : option string :=
  let proxy :=
    match image_proxy args with Some p => Some p | None => proxy defaultConfig end in
  if JS.truthy_string proxy then proxy else ImageDownloaderServer.proxy defaultConfig.

(** [handleDownloadImage(args)] *)
Definition handleDownloadImage (args : ImageArgs) : JS.promise ImageResponse :=
  (* Validate URL *)
  if negb (Validator.validateImageUrl node (image_url args)) then
    JS.Rejected ("Invalid image URL: " +:+ image_url args)
  else
    match
      ImageDownloader.downloadSingle node (imageProxy args) world
        (image_url args) (imageOptions args)
    with
    | JS.Normal result =>
        JS.Fulfilled
          {| image_success := true;
             image_message := "Image downloaded successfully";
             image_result := result |}
    | JS.Throw message => JS.Rejected message
    end.

End SingleHandler.

(** The error codes of the protocol that the server uses. *)
Inductive ErrorCode : Type :=
| MethodNotFound
| InternalError.

(** How a tool call ends: with the reply of a handler, or with an
    [McpError] carrying its code and its [message] property, or
    never. *)
Inductive CallOutcome (A : Type) : Type :=
| Replied (reply : A)
| Failed (code : ErrorCode) (message : string)
| NeverSettles.
Arguments Replied {A} reply.
Arguments Failed {A} code message.
Arguments NeverSettles {A}.

Inductive ToolReply : Type :=
| ImageReply (r : ImageResponse)
| BatchReply (r : BatchResponse).

Section CallTool.
Variable node : Node.Platform.
Variable defaultConfig : Config.
Variable defaultFilename : option string.
Variable world : ImageDownloader.World.
Variable worlds : nat -> ImageDownloader.World.
Variable clock : nat -> Z.
Variable sched : nat -> nat.
(** The [message] property of [new McpError(code, message)], which
    the protocol library builds. *)
Variable McpError_message : ErrorCode -> string -> string.

Inductive ToolCall : Type :=
| CallDownloadImage (args : ImageArgs)
| CallDownloadImagesBatch (args : BatchArgs)
| CallOther (name : string).

(** The [try] block of the request handler: the completion of the
    [switch], as a promise carrying the message of what was thrown. *)
Definition callTool_try (call : ToolCall) : option (JS.promise ToolReply) :=
  match call with
  | CallDownloadImage args =>
      Some match handleDownloadImage node defaultConfig defaultFilename world args with
           | JS.Fulfilled r => JS.Fulfilled (ImageReply r)
           | JS.Rejected m => JS.Rejected m
           | JS.Pending => JS.Pending
           end
  | CallDownloadImagesBatch args =>
      match handleDownloadImagesBatch node defaultConfig worlds clock sched args with
      | Some run =>
          Some match response run with
               | JS.Fulfilled r => JS.Fulfilled (BatchReply r)
               | JS.Rejected m => JS.Rejected m
               | JS.Pending => JS.Pending
               end
      | None => None
      end
  | CallOther name =>
      Some (JS.Rejected (McpError_message MethodNotFound ("Unknown tool: " +:+ name)))
  end.

(** The handler of [CallToolRequestSchema]: whatever the [try] block
    throws is thrown again as an internal error, built from the
    [message] property of what was caught. [None] when the model of
    [downloadBatch] runs out of fuel. *)
Definition callTool (call : ToolCall) : option (CallOutcome ToolReply) :=
  match callTool_try call with
  | Some (JS.Fulfilled reply) => Some (Replied reply)
  | Some (JS.Rejected message) =>
      Some (Failed InternalError
              (McpError_message InternalError
                 ("Tool execution failed: " +:+ message)))
  | Some JS.Pending => Some NeverSettles
  | None => None
  end.

End CallTool.

End ImageDownloaderServer.

(** ** A reference platform

    A small instance of [Node.Platform], enough for absolute
    [scheme://host/path?query] URLs and POSIX paths; the examples are
    evaluated on it. *)

Module ReferencePlatform.

(** [s] cut at the first occurrence of [sep]. *)
Definition cut (sep s : string) : option (string * string) :=
  match String.index 0 sep s with
  | Some n =>
      Some (String.substring 0 n s,
            String.substring (n + String.length sep)
              (String.length s - (n + String.length sep)) s)
  | None => None
  end.

(** [s] cut at the last occurrence of the character [c]. *)
Fixpoint rcut (c : ascii) (s : string) : option (string * string) :=
  match s with
  | EmptyString => None
  | String x s' =>
      match rcut c s' with
      | Some (a, b) => Some (String x a, b)
      | None => if Ascii.eqb x c then Some (EmptyString, s') else None
      end
  end.

Definition URL_parse (s : string) : option Node.URL :=
  match cut "://" s with
  | None => None
  | Some (scheme, rest) =>
      let rest := match cut "#" rest with Some (a, _) => a | None => rest end in
      let (rest, query) :=
        match cut "?" rest with Some (a, q) => (a, q) | None => (rest, "") end in
      let (host, path) :=
        match cut "/" rest with Some (h, p) => (h, "/" +:+ p) | None => (rest, "/") end in
      if String.eqb scheme "" || String.eqb host "" then None
      else
        Some {| Node.protocol := JS.toLowerCase scheme +:+ ":";
                Node.pathname := path;
                Node.search := if String.eqb query "" then "" else "?" +:+ query |}
  end.

Definition basename (p : string) : string :=
  match rcut "/" p with Some (_, b) => b | None => p end.

Definition dirname (p : string) : string :=
  match rcut "/" p with Some (d, _) => d | None => "." end.

Definition extname (p : string) : string :=
  match rcut "." (basename p) with
  | Some (stem, ext) => if String.eqb stem "" then "" else "." +:+ ext
  | None => ""
  end.

Definition stem (p : string) : string :=
  match rcut "." (basename p) with
  | Some (stem, _) => if String.eqb stem "" then basename p else stem
  | None => basename p
  end.

(** The segments of a path, cut at every slash. *)
Fixpoint segments (acc : string) (p : string) : list string :=
  match p with
  | EmptyString => [acc]
  | String c p' =>
      if Ascii.eqb c "/" then acc :: segments "" p'
      else segments (acc +:+ String c "") p'
  end.

(** Normalisation as [path.join] does it: empty and [.] segments are
    dropped, [..] takes back the segment before it. The segments are
    kept in reverse. *)
Fixpoint normalize (absolute : bool) (kept : list string) (todo : list string)
  : list string :=
  match todo with
  | [] => kept
  | seg :: todo' =>
      if String.eqb seg "" || String.eqb seg "." then normalize absolute kept todo'
      else if String.eqb seg ".." then
        match kept with
        | top :: kept' =>
            if String.eqb top ".." then normalize absolute (seg :: kept) todo'
            else normalize absolute kept' todo'
        | [] =>
            if absolute then normalize absolute kept todo'
            else normalize absolute [seg] todo'
        end
      else normalize absolute (seg :: kept) todo'
  end.

Definition join (a b : string) : string :=
  let p := if String.eqb a "" then b else a +:+ "/" +:+ b in
  let absolute := String.prefix "/" p in
  let body := JS.join "/" (rev (normalize absolute [] (segments "" p))) in
  if absolute then "/" +:+ body
  else if String.eqb body "" then "." else body.

Definition node : Node.Platform :=
  {| Node.URL_parse := URL_parse;
     Node.path_join := join;
     Node.path_dirname := dirname;
     Node.path_basename := basename;
     Node.path_parse_dir := dirname;
     Node.path_parse_name := stem;
     Node.path_extname := extname |}.

End ReferencePlatform.

(** ** Scenarios

    The worlds, options and calls on which the examples are evaluated. *)

Module Scenarios.
Import ImageDownloader.

(** A world in which everything works, one whose probe fails and one
    whose fetch fails. *)
Definition calmEffects : ImageProcessor.Effects :=
  {| ImageProcessor.fs_mkdir := fun _ => JS.Normal tt;
     ImageProcessor.pipeline_transform := fun _ _ _ => JS.Normal tt;
     ImageProcessor.metadata_format := fun _ => JS.Normal "png";
     ImageProcessor.toFile := fun _ _ _ => JS.Normal tt;
     ImageProcessor.sharp_refusal := fun _ => "Expected a valid parameter" |}.

Definition calmWorld : World :=
  {| http_head := fun _ => JS.Normal (mkHeaders (Some "image/png") (Some 2048));
     http_get := fun _ => JS.Normal "bytes";
     fx := calmEffects;
     pipeline_copy := fun _ _ => JS.Normal tt;
     fs_stat_size := fun _ => JS.Normal 2048;
     Date_now := 1700000000000;
     toISOString := "2023-11-14T22:13:20.000Z" |}.

Definition probeDownWorld : World :=
  {| http_head := fun _ => JS.Throw "timeout of 10000ms exceeded";
     http_get := http_get calmWorld;
     fx := calmEffects;
     pipeline_copy := pipeline_copy calmWorld;
     fs_stat_size := fs_stat_size calmWorld;
     Date_now := Date_now calmWorld;
     toISOString := toISOString calmWorld |}.

Definition fetchDownWorld : World :=
  {| http_head := http_head calmWorld;
     http_get := fun _ => JS.Throw "Request failed with status code 404";
     fx := calmEffects;
     pipeline_copy := pipeline_copy calmWorld;
     fs_stat_size := fs_stat_size calmWorld;
     Date_now := Date_now calmWorld;
     toISOString := toISOString calmWorld |}.

(** No option set, and compression alone with a width bound. *)
Definition plainOptions : Validator.Options :=
  Validator.mkOptions None None None false None None None.

Definition compressOnly : Validator.Options :=
  Validator.mkOptions None None None true (Some 800) None None.

Definition threeUrls : list string :=
  ["https://example.com/a.png"; "https://example.com/b.png";
   "https://example.com/c.png"].

(** Every download works. *)
Definition calm (index : nat) : World := calmWorld.

(** The second of three downloads fails. *)
Definition secondFails (index : nat) : World :=
  if Nat.eqb index 1 then fetchDownWorld else calmWorld.

(** A tracker for item 0 that already recorded one sample, in a batch
    of three. *)
Definition busyTracker : ProgressTracker.t :=
  (ProgressTracker.updateProgress 7 "t"
     (ProgressTracker.mkProgress "u" "f" 10 100 10 5)
     (ProgressTracker.start 5 ProgressTracker.constructor)).1.

Definition busyBatch : BatchProgressTracker.t :=
  BatchProgressTracker.mk 3 0 {[ 0%nat := busyTracker ]} [] 0.

(** The configuration of a server started without environment
    variables, and a batch call that only names its urls and maybe a
    concurrency. *)
Definition exampleConfig : ImageDownloaderServer.Config :=
  ImageDownloaderServer.mkConfig "./downloads" "original" false None None 3 None.

Definition argsFor (urls : list string) (concurrency : option Z)
  : ImageDownloaderServer.BatchArgs :=
  ImageDownloaderServer.mkBatchArgs urls None None None None None concurrency None.

Definition mixedUrls : list string :=
  ["https://example.com/a.jpg"; "https://example.com/page.html";
   "ftp://example.com/b.png"].

End Scenarios.


(* ===================================================================== *)
(** * Part II: the properties                                             *)
(* ===================================================================== *)

(** ** The bounded concurrency gate *)

Module SemaphoreFacts.
Import Semaphore.

(** The invariant of a run: the counter is the number of holders, it
    stays within the capacity, callers wait only while the gate is
    full, and the callers that suspended are those that were woken, in
    the same order, followed by those still waiting. *)
Record inv (m : Z) (g : gate) : Prop := Inv {
  inv_max : max (sem g) = m;
  inv_count : current (sem g) = Z.of_nat (length (holders g));
  inv_bound : current (sem g) <= m;
  inv_full : queue (sem g) <> [] -> current (sem g) = m;
  inv_fifo : suspendedLog g = wokenLog g ++ queue (sem g);
}.

Lemma remove_first_length c l :
  c ∈ l -> length (remove_first c l) = pred (length l).
Proof.
  induction l as [|x l IH]; intros Hin.
  - by apply elem_of_nil in Hin.
  - simpl. destruct (decide (x = c)) as [->|Hne]; [done|].
    apply elem_of_cons in Hin as [Heq|Hin]; [congruence|].
    simpl. rewrite IH by done. destruct l; [by apply elem_of_nil in Hin|done].
Qed.

Lemma elem_of_length_pos (c : nat) (l : list nat) : c ∈ l -> (0 < length l)%nat.
Proof. destruct l; [by intros ?%elem_of_nil | simpl; lia]. Qed.

Lemma inv_init m : 0 <= m -> inv m (init m).
Proof. intros Hm. split; simpl; try done. Qed.

Lemma inv_step m g o g' :
  inv m g -> step g o = Some g' -> inv m g'.
Proof.
  intros [Hmax Hcount Hbound Hfull Hfifo] Hstep.
  destruct o as [c|c]; simpl in Hstep.
  - unfold acquire in Hstep.
    destruct (Z.ltb_spec (current (sem g)) (max (sem g))) as [Hlt|Hge];
      inversion Hstep; subst g'; clear Hstep; split; simpl;
      rewrite ?length_app; simpl; try done; try lia.
    + intros Hq. specialize (Hfull Hq). lia.
    + by rewrite Hfifo, app_assoc.
  - destruct (decide (c ∈ holders g)) as [Hin|]; [|done].
    pose proof (remove_first_length _ _ Hin) as Hlen.
    pose proof (elem_of_length_pos _ _ Hin) as Hpos.
    unfold release in Hstep. simpl in Hstep.
    destruct (queue (sem g)) as [|w rest] eqn:Hq;
      inversion Hstep; subst g'; clear Hstep; split; simpl;
      rewrite ?length_app; simpl; try done; try lia.
    + intros _. assert (current (sem g) = m) by (by apply Hfull). lia.
    + by rewrite Hfifo, <- app_assoc.
Qed.

Lemma inv_run m ops : forall g g',
  inv m g -> run g ops = Some g' -> inv m g'.
Proof.
  induction ops as [|o ops IH]; intros g g' Hinv Hrun; simpl in Hrun.
  - by inversion Hrun; subst.
  - destruct (step g o) as [g1|] eqn:Hstep; [|done].
    eapply IH; [|exact Hrun]. eapply inv_step; eauto.
Qed.

(** Every prefix of a run is a run. *)
Lemma run_app g ops1 ops2 g' :
  run g (ops1 ++ ops2) = Some g' ->
  exists g1, run g ops1 = Some g1 /\ run g1 ops2 = Some g'.
Proof.
  revert g. induction ops1 as [|o ops1 IH]; intros g Hrun; simpl in *.
  - eauto.
  - destruct (step g o); [eauto|done].
Qed.

(** [acquire] proceeds exactly when the counter is below the capacity. *)
Lemma acquire_proceeds_iff c s :
  (acquire c s).2 = Proceeds <-> current s < max s.
Proof.
  unfold acquire. destruct (Z.ltb_spec (current s) (max s)); simpl; split;
    intros; (done || lia).
Qed.

(** The hand-off of [release]: without a waiter the counter drops by
    one; with a waiter the head of the queue is woken and the counter
    is what it was. *)
Lemma release_handoff s :
  match release s with
  | (s', None) => queue s = [] /\ queue s' = [] /\ current s' = current s - 1
  | (s', Some w) => queue s = w :: queue s' /\ current s' = current s
  end /\ max (release s).1 = max s.
Proof.
  unfold release; simpl. destruct (queue s); simpl; repeat split; lia.
Qed.

(** C3. For every capacity [m >= 1] and every sequence of [acquire] and
    [release] operations in which each release is made by a caller that
    holds a slot, in the state [g] reached (after every prefix of the
    sequence as well) the number of holders is the gate's counter and is
    at most [m]; an [acquire] made next proceeds without suspending
    exactly when fewer than [m] callers hold a slot; the callers that
    suspended so far are, in order, those woken so far followed by those
    still queued (FIFO); and a [release] made next wakes the head of the
    queue keeping the counter unchanged, or lowers the counter by one
    when nobody waits. *)
Theorem gate_bounded_and_fifo (m : Z) (ops : list op) (g : gate) :
  1 <= m ->
  run (init m) ops = Some g ->
  Z.of_nat (length (holders g)) <= m
  /\ current (sem g) = Z.of_nat (length (holders g))
  /\ (forall pre post, ops = pre ++ post ->
        exists g1, run (init m) pre = Some g1
                   /\ Z.of_nat (length (holders g1)) <= m)
  /\ (forall c, (acquire c (sem g)).2 = Proceeds
                <-> Z.of_nat (length (holders g)) < m)
  /\ suspendedLog g = wokenLog g ++ queue (sem g)
  /\ match release (sem g) with
     | (s', None) => queue (sem g) = [] /\ current s' = current (sem g) - 1
     | (s', Some w) =>
         queue (sem g) = w :: queue s' /\ current s' = current (sem g)
     end.
Proof.
  intros Hm Hrun.
  assert (Hinit : inv m (init m)) by (apply inv_init; lia).
  pose proof (inv_run _ _ _ _ Hinit Hrun) as [Hmax Hcount Hbound Hfull Hfifo].
  split; [lia|]. split; [done|]. split.
  - intros pre post ->. apply run_app in Hrun as (g1 & Hpre & _).
    exists g1. split; [done|].
    destruct (inv_run _ _ _ _ Hinit Hpre) as [_ Hc Hb _ _]. lia.
  - split; [|split; [done|]].
    + intros c. rewrite acquire_proceeds_iff. rewrite Hmax, Hcount. done.
    + pose proof (release_handoff (sem g)) as [H _].
      destruct (release (sem g)) as [s' [w|]]; tauto.
Qed.

(** A run with capacity 2: three callers arrive, the third waits and is
    woken by the first release. *)
Lemma gate_bounded_and_fifo_witness :
  exists g,
    run (init 2) [Acquire 0; Acquire 1; Acquire 2; Release 1; Release 0]%nat = Some g
    /\ Z.of_nat (length (holders g)) <= 2.
Proof.
  eexists. split; [reflexivity|].
  refine (proj1 (gate_bounded_and_fifo 2
            [Acquire 0; Acquire 1; Acquire 2; Release 1; Release 0]%nat _ _ _)).
  - lia.
  - reflexivity.
Defined.

(** *** Construction *)

Lemma closed_gate_run m ops : forall g g',
  m < 1 ->
  max (sem g) = m -> current (sem g) = 0 -> holders g = [] ->
  run g ops = Some g' ->
  max (sem g') = m /\ current (sem g') = 0 /\ holders g' = [].
Proof.
  induction ops as [|o ops IH]; intros g g' Hm Hmax Hcur Hh Hrun; simpl in Hrun.
  - by inversion Hrun; subst.
  - destruct o as [c|c]; simpl in Hrun.
    + unfold acquire in Hrun.
      destruct (Z.ltb_spec (current (sem g)) (max (sem g))) as [Hlt|Hge]; [lia|].
      eapply IH; [exact Hm| | | |exact Hrun]; done.
    + rewrite Hh in Hrun. destruct (decide (c ∈ [])) as [Hin|]; [|done].
      by apply elem_of_nil in Hin.
Qed.

(** C7, as the code has it. [new Semaphore(max)] performs no validation:
    for a capacity [m < 1] it returns a gate with no holder and an empty
    queue, and on that gate no [acquire] ever proceeds, whatever
    operations came before. *)
Theorem constructor_accepts_capacity_below_one (m : Z) :
  m < 1 ->
  new m = JS.Normal {| max := m; current := 0; queue := [] |}
  /\ forall ops g, run (init m) ops = Some g ->
       holders g = [] /\ forall c, (acquire c (sem g)).2 = Suspends.
Proof.
  intros Hm. split; [reflexivity|].
  intros ops g Hrun.
  destruct (closed_gate_run m ops (init m) g Hm eq_refl eq_refl eq_refl Hrun)
    as (Hmax & Hcur & Hh).
  split; [done|]. intros c. unfold acquire.
  destruct (Z.ltb_spec (current (sem g)) (max (sem g))); [lia|done].
Qed.

Lemma constructor_accepts_capacity_below_one_witness :
  new 0 = JS.Normal {| max := 0; current := 0; queue := [] |}
  /\ (acquire 7%nat (constructor 0)).2 = Suspends.
Proof.
  destruct (constructor_accepts_capacity_below_one 0 ltac:(lia)) as [Hnew Hruns].
  split; [exact Hnew|].
  exact (proj2 (Hruns [] (init 0) eq_refl) 7%nat).
Defined.

(** C7, as the specification states it, fails: capacity 0 is below 1 and
    the construction returns a gate instead of throwing. *)
Lemma constructor_zero_does_not_throw :
  0 < 1
  /\ Semaphore.new 0 = JS.Normal {| max := 0; current := 0; queue := [] |}
  /\ ~ (forall m, m < 1 -> exists e, Semaphore.new m = JS.Throw e).
Proof.
  split; [lia|]. split; [reflexivity|].
  intros H. destruct (H 0 ltac:(lia)) as [e He]. discriminate He.
Qed.

End SemaphoreFacts.

(** ** The progress trackers *)

Module ProgressFacts.
Import ProgressTracker.

(** [Math.max(0, x)] spelled by the order on doubles. *)
Lemma Math_max_zero (x : float) :
  JS.Math_max 0%float x =
    if PrimFloat.is_nan x then PrimFloat.nan
    else if (0 <? x)%float then x else 0%float.
Proof.
  unfold JS.Math_max.
  change (PrimFloat.is_nan 0%float) with false. simpl orb.
  destruct (PrimFloat.is_nan x); [reflexivity|].
  destruct (0 <? x)%float; [reflexivity|].
  destruct (x <? 0)%float; reflexivity.
Qed.

(** C5. For every percentage [p] and elapsed time [t], [calculateETA]
    returns null when [p <= 0] and otherwise the greater of 0 and
    [(t / p) * 100 - t]; [calculateBatchETA] is the same function; with
    10 s elapsed (in seconds or in milliseconds) at 50 percent the
    estimate is 10 s, and at 0 percent there is none. *)
Theorem calculateETA_formula (p t : float) :
  calculateETA p t =
    (if (p <=? 0)%float then None
     else
       let remaining := (t / p * 100 - t)%float in
       Some (if PrimFloat.is_nan remaining then PrimFloat.nan
             else if (0 <? remaining)%float then remaining else 0%float))
  /\ BatchProgressTracker.calculateBatchETA p t = calculateETA p t
  /\ calculateETA 50%float 10%float = Some 10%float
  /\ calculateETA 50%float 10000%float = Some 10000%float
  /\ BatchProgressTracker.calculateBatchETA 50%float 10%float = Some 10%float
  /\ calculateETA 0%float 10%float = None
  /\ BatchProgressTracker.calculateBatchETA 0%float 10%float = None.
Proof.
  split; [|repeat split; reflexivity].
  unfold calculateETA. destruct (p <=? 0)%float; [reflexivity|].
  cbv zeta. by rewrite Math_max_zero.
Qed.

(** The same through [updateProgress]: a tracker started at time 0 and
    updated at 10000 ms with a 50 percent sample reports 10000 ms left,
    and the average speed of 1000 bytes in 2000 ms is 500 bytes/s. *)
Example updateProgress_eta :
  let sample := mkProgress "u" "f" 5120 10240 50 2048 in
  estimatedTimeRemaining
    (updateProgress 10000 "t" sample (start 0 constructor)).2 = Some 10000%float
  /\ calculateAverageSpeed 1000%float 2000%float = 500%float.
Proof. split; reflexivity. Qed.

(** *** [Math.max(...speeds)] *)

Lemma Math_max_ints_ge x xs :
  x <= JS.Math_max_ints x xs /\ forall y, y ∈ xs -> y <= JS.Math_max_ints x xs.
Proof.
  unfold JS.Math_max_ints. revert x.
  induction xs as [|z xs IH]; intros x; simpl.
  - split; [lia|]. intros y Hy. by apply elem_of_nil in Hy.
  - destruct (IH (Z.max x z)) as [H1 H2]. split; [lia|].
    intros y [->|Hy]%elem_of_cons; [lia|auto].
Qed.

Lemma Math_max_ints_elem x xs : JS.Math_max_ints x xs ∈ x :: xs.
Proof.
  unfold JS.Math_max_ints. revert x.
  induction xs as [|z xs IH]; intros x; simpl.
  - apply list_elem_of_here.
  - specialize (IH (Z.max x z)).
    apply elem_of_cons in IH as [->|IH].
    + destruct (Z.max_spec x z) as [[_ ->]|[_ ->]].
      * apply list_elem_of_further, list_elem_of_here.
      * apply list_elem_of_here.
    + by do 2 apply list_elem_of_further.
Qed.

Definition speedOf (p : EnhancedProgress) : Z := speed (progress p).

(** The peak computed by [getSummary]. *)
Definition peakOf (history : list EnhancedProgress) : Z :=
  match speedOf <$> filter (fun p => 0 < speedOf p) history with
  | [] => 0
  | s :: rest => JS.Math_max_ints s rest
  end.

Lemma peakOf_bounds history :
  0 <= peakOf history
  /\ (forall p, p ∈ history -> speedOf p <= peakOf history)
  /\ ((exists p, p ∈ history /\ 0 < speedOf p) ->
      exists p, p ∈ history /\ 0 < speedOf p /\ speedOf p = peakOf history)
  /\ ((forall p, p ∈ history -> speedOf p <= 0) -> peakOf history = 0).
Proof.
  unfold peakOf.
  destruct (speedOf <$> filter (fun p => 0 < speedOf p) history)
    as [|s rest] eqn:Hs.
  - apply fmap_nil_inv in Hs.
    assert (Hall : forall p, p ∈ history -> speedOf p <= 0).
    { intros p Hp. destruct (decide (0 < speedOf p)) as [Hpos|]; [|lia].
      assert (p ∈ filter (fun p => 0 < speedOf p) history)
        by (apply list_elem_of_filter; done).
      rewrite Hs in *. by apply elem_of_nil in H. }
    split; [lia|]. split; [done|]. split; [|done].
    intros (p & Hp & Hpos). specialize (Hall p Hp). lia.
  - assert (Hmem : forall y, y ∈ s :: rest ->
              exists p, p ∈ history /\ 0 < speedOf p /\ speedOf p = y).
    { intros y Hy. rewrite <- Hs in Hy.
      apply list_elem_of_fmap in Hy as (p & -> & Hp).
      apply list_elem_of_filter in Hp as [Hpos Hp]. eauto. }
    destruct (Math_max_ints_ge s rest) as [Hge1 Hge2].
    destruct (Hmem s ltac:(apply list_elem_of_here)) as (p0 & _ & Hp0 & Heq0).
    assert (Hpeak : 0 < JS.Math_max_ints s rest) by lia.
    split; [lia|]. split; [|split].
    + intros p Hp. destruct (decide (0 < speedOf p)) as [Hpos|]; [|lia].
      assert (Hin : speedOf p ∈ s :: rest).
      { rewrite <- Hs. apply list_elem_of_fmap. exists p. split; [done|].
        by apply list_elem_of_filter. }
      apply elem_of_cons in Hin as [->|Hin]; [done|auto].
    + intros _. apply Hmem, Math_max_ints_elem.
    + intros Hall. destruct (Hmem s ltac:(apply list_elem_of_here))
        as (p & Hp & Hpos & _). specialize (Hall p Hp). lia.
Qed.

(** C9. On an empty history [getSummary] returns the zeroed summary.
    On a history whose most recent sample is [lp], it returns the elapsed
    time and the average speed of [lp], the number of samples, the
    percentage of [lp], and as peak speed the greatest speed of the
    history when some sample has a positive speed, and 0 otherwise. *)
Theorem getSummary_spec (tr : t) :
  (progressHistory tr = [] -> getSummary tr = zeroSummary)
  /\ (forall older lp, progressHistory tr = older ++ [lp] ->
      let s := getSummary tr in
      Summary.totalTime s = elapsedTime lp
      /\ Summary.averageSpeed s = averageSpeed lp
      /\ Summary.progressUpdates s = length (progressHistory tr)
      /\ Summary.finalPercentage s = Some (percentage (progress lp))
      /\ 0 <= Summary.peakSpeed s
      /\ (forall p, p ∈ progressHistory tr ->
            speed (progress p) <= Summary.peakSpeed s)
      /\ ((exists p, p ∈ progressHistory tr /\ 0 < speed (progress p)) ->
          exists p, p ∈ progressHistory tr /\ 0 < speed (progress p)
                    /\ speed (progress p) = Summary.peakSpeed s)
      /\ ((forall p, p ∈ progressHistory tr -> speed (progress p) <= 0) ->
          Summary.peakSpeed s = 0)).
Proof.
  split.
  - intros Hnil. unfold getSummary. by rewrite Hnil.
  - intros older lp Hh. cbv zeta.
    assert (Hlast : last (progressHistory tr) = Some lp)
      by (rewrite Hh; apply last_snoc).
    unfold getSummary. rewrite Hlast. simpl.
    destruct (peakOf_bounds (progressHistory tr)) as (H0 & Hge & Hex & Hz).
    repeat split; assumption.
Qed.

(** The summary of the three samples of the repository's tracker test. *)
Example getSummary_three_samples :
  let h := [ mkEnhanced (mkProgress "u" "f" 1024 10240 10 1024) "t1" 100 None 0%float;
             mkEnhanced (mkProgress "u" "f" 5120 10240 50 2048) "t2" 200 None 1%float;
             mkEnhanced (mkProgress "u" "f" 10240 10240 100 1536) "t3" 300 None 2%float ] in
  getSummary (mk h (Some 0) (Some 300)) =
    ProgressTracker.Summary.mk 300 2%float 2048 3 (Some 100).
Proof. reflexivity. Qed.

End ProgressFacts.

Module BatchTrackerFacts.
Import BatchProgressTracker.
Import Scenarios.

(** C8, as the code has it. [createItemTracker(id)] never fails: it
    allocates a tracker, starts it and registers it as active for [id],
    leaving every other item and every other field as they were. When
    [id] was already active its tracker is replaced by the new one (the
    number of active trackers is unchanged); otherwise the number of
    active trackers grows by one. *)
Theorem createItemTracker_registers (now : Z) (id : nat) (b : t) :
  exists b',
    let tracker := ProgressTracker.start now ProgressTracker.constructor in
    createItemTracker now id b = JS.Normal (b', tracker)
    /\ activeTrackers b' !! id = Some tracker
    /\ (forall j, j <> id -> activeTrackers b' !! j = activeTrackers b !! j)
    /\ totalItems b' = totalItems b
    /\ completedItems b' = completedItems b
    /\ completedTrackers b' = completedTrackers b
    /\ (is_Some (activeTrackers b !! id) ->
        size (activeTrackers b') = size (activeTrackers b))
    /\ (activeTrackers b !! id = None ->
        size (activeTrackers b') = S (size (activeTrackers b))).
Proof.
  eexists. cbv zeta. split; [reflexivity|]. simpl.
  split; [apply lookup_insert_eq|].
  split; [intros j Hj; by apply lookup_insert_ne|].
  repeat split.
  - intros [old Hold].
    rewrite <- (insert_delete_id (activeTrackers b) id old Hold) at 2.
    rewrite <- (insert_delete_eq (activeTrackers b)).
    rewrite !map_size_insert_None; [done|apply lookup_delete_eq..].
  - intros Hnone. by apply map_size_insert_None.
Qed.

(** C8, as the specification states it, fails: item 0 is active in
    [busyBatch], and creating a tracker for item 0 again returns
    normally, the recorded sample being lost with the replaced
    tracker. *)
Lemma createItemTracker_duplicate_replaces :
  activeTrackers busyBatch !! 0%nat = Some busyTracker
  /\ length (ProgressTracker.progressHistory busyTracker) = 1%nat
  /\ (exists b', createItemTracker 9 0 busyBatch
                 = JS.Normal (b', ProgressTracker.start 9 ProgressTracker.constructor)
                 /\ activeTrackers b' !! 0%nat
                    = Some (ProgressTracker.start 9 ProgressTracker.constructor))
  /\ (forall e, createItemTracker 9 0 busyBatch <> JS.Throw e).
Proof.
  split; [apply lookup_singleton_eq|]. split; [reflexivity|]. split.
  - eexists. split; [reflexivity|]. simpl. apply lookup_insert_eq.
  - intros e. discriminate.
Qed.

End BatchTrackerFacts.

(** ** The single-item orchestrator *)

Module DownloadSingleFacts.
Import ImageDownloader.
Import Scenarios.

(** The result built by the [catch] block. *)
Definition failure (w : World) (url message : string) : DownloadResult :=
  {| success := false; url := url; filePath := None; filename := None;
     size := None; resultContentType := None; error := Some message;
     downloadedAt := toISOString w |}.

(** The directory the download is saved to. *)
Definition saveDir (options : Validator.Options) : string :=
  default "./downloads" (Validator.savePath options).

(** Whether the download goes through the transform stage. *)
Definition transforms (options : Validator.Options) : bool :=
  JS.truthy_string (Validator.format options) || Validator.compress options
  || JS.truthy_number (Validator.maxWidth options)
  || JS.truthy_number (Validator.maxHeight options).

(** The options handed to [processStream]. *)
Definition processOptions (options : Validator.Options) : ImageProcessor.ProcessOptions :=
  {| ImageProcessor.format := Validator.format options;
     ImageProcessor.compress := Some (Validator.compress options);
     ImageProcessor.maxWidth := Validator.maxWidth options;
     ImageProcessor.maxHeight := Validator.maxHeight options;
     ImageProcessor.quality := None |}.

Section Single.
Variable node : Node.Platform.
Variable proxyConfig : option string.
Variable w : World.
Variable url : string.
Variable options : Validator.Options.

(** The probe never throws: a failed HEAD request, or a proxy that
    does not parse, gives the default information. *)
Lemma getImageInfo_returns :
  exists info, getImageInfo node proxyConfig w url = JS.Normal info.
Proof.
  unfold getImageInfo, JS.try_catch.
  destruct (createAxiosConfig node proxyConfig;; _) eqn:E; eauto.
Qed.

Lemma getImageInfo_fallback message :
  http_head w url = JS.Throw message ->
  getImageInfo node proxyConfig w url
  = JS.Normal {| contentType := "image/jpeg"; contentLength := 0 |}.
Proof.
  intros Hhead. unfold getImageInfo.
  destruct (createAxiosConfig node proxyConfig) as [[]|m]; cbn; [|done].
  by rewrite Hhead.
Qed.

(** [downloadSingle] always returns, and what it returns is decided
    by the completion of its [try] block. *)
Lemma downloadSingle_returns :
  exists r, downloadSingle node proxyConfig w url options = JS.Normal r
            /\ ImageDownloader.url r = url
            /\ downloadedAt r = toISOString w
            /\ match downloadSingle_try node proxyConfig w url options with
               | JS.Normal r' => r = r' /\ success r = true
               | JS.Throw message => r = failure w url message
               end.
Proof.
  unfold downloadSingle, JS.try_catch.
  destruct (downloadSingle_try node proxyConfig w url options) as [r'|m] eqn:Htry.
  - exists r'. split; [done|].
    revert Htry. unfold downloadSingle_try.
    repeat match goal with
           | |- context [mbind _ ?c] => destruct c; cbn; try discriminate
           | |- context [JS.bind ?c _] => destruct c; cbn; try discriminate
           end.
    all: intros [= <-]; simpl; done.
  - eexists. split; [reflexivity|]. done.
Qed.

(** The stages before the fetch went through and settled the file
    name. *)
Definition prepared (info : ImageInfo) (finalFilename : string) : Prop :=
  ImageProcessor.fs_mkdir (fx w) (saveDir options) = JS.Normal tt
  /\ getImageInfo node proxyConfig w url = JS.Normal info
  /\ (if JS.truthy_string (Validator.filename options)
      then JS.Normal (default "" (Validator.filename options))
      else generateFilename node w url (contentType info) (Validator.format options))
     = JS.Normal finalFilename
  /\ createAxiosConfig node proxyConfig = JS.Normal tt.

Lemma try_after_prepared info finalFilename :
  prepared info finalFilename ->
  downloadSingle_try node proxyConfig w url options =
    (let filePath := Node.path_join node (saveDir options) finalFilename in
     response ← http_get w url;
     finalPath ←
       (if transforms options
        then ImageProcessor.processStream node (fx w) response filePath
               (processOptions options)
        else pipeline_copy w response filePath;; JS.Normal filePath);
     statsSize ← fs_stat_size w finalPath;
     JS.Normal
       {| success := true; ImageDownloader.url := url; filePath := Some finalPath;
          filename := Some (Node.path_basename node finalPath);
          size := Some statsSize;
          resultContentType := Some (contentType info);
          error := None; downloadedAt := toISOString w |}).
Proof.
  intros (Hdir & Hinfo & Hname & Hcfg).
  unfold downloadSingle_try, FileManager.ensureDirectory.
  fold (saveDir options). rewrite Hdir. cbn.
  rewrite Hinfo. cbn. rewrite Hname. cbn. rewrite Hcfg. cbn.
  reflexivity.
Qed.

Lemma processStream_message inputStream outputPath popts message :
  ImageProcessor.processStream node (fx w) inputStream outputPath popts
  = JS.Throw message ->
  exists cause, message = "Image processing failed: " +:+ cause.
Proof.
  unfold ImageProcessor.processStream, JS.try_catch,
    ImageProcessor.processingFailed.
  destruct (_ ← ImageProcessor.createTransformer _ popts; _) as [p|cause];
    [discriminate|].
  intros [= <-]. eauto.
Qed.

(** C2, as the code has it. [downloadSingle] never throws: it always
    returns a result that carries the original url. A failed metadata
    probe is absorbed and does not fail the download. A failure of any
    other step (creating the directory, deriving the file name,
    fetching, transforming or copying, reading the size of the written
    file) gives [success = false] with the message of the error that
    was thrown and no file path; when every step goes through the
    result has [success = true] with the file path, the size, the
    content type and the timestamp. *)
Theorem downloadSingle_never_throws :
  exists r,
    downloadSingle node proxyConfig w url options = JS.Normal r
    /\ ImageDownloader.url r = url
    /\ downloadedAt r = toISOString w
    /\ (success r = true ->
        is_Some (filePath r) /\ is_Some (size r)
        /\ is_Some (resultContentType r) /\ error r = None)
    /\ (success r = false ->
        exists message,
          downloadSingle_try node proxyConfig w url options = JS.Throw message
          /\ r = failure w url message)
    /\ (exists info, getImageInfo node proxyConfig w url = JS.Normal info)
    /\ (forall message,
          ImageProcessor.fs_mkdir (fx w) (saveDir options) = JS.Throw message ->
          r = failure w url
                ("Failed to create directory " +:+ saveDir options +:+ ": " +:+ message))
    /\ (ImageProcessor.fs_mkdir (fx w) (saveDir options) = JS.Normal tt ->
        JS.truthy_string (Validator.filename options) = false ->
        Node.URL_parse node url = None ->
        r = failure w url "Invalid URL")
    /\ (forall info finalFilename,
          prepared info finalFilename ->
          let filePath := Node.path_join node (saveDir options) finalFilename in
          let written response :=
            if transforms options
            then ImageProcessor.processStream node (fx w) response filePath
                   (processOptions options)
            else pipeline_copy w response filePath;; JS.Normal filePath in
          (forall message,
             http_get w url = JS.Throw message -> r = failure w url message)
          /\ (forall response message,
                http_get w url = JS.Normal response ->
                written response = JS.Throw message ->
                r = failure w url message)
          /\ (forall response finalPath message,
                http_get w url = JS.Normal response ->
                written response = JS.Normal finalPath ->
                fs_stat_size w finalPath = JS.Throw message ->
                r = failure w url message)
          /\ (forall response finalPath statsSize,
                http_get w url = JS.Normal response ->
                written response = JS.Normal finalPath ->
                fs_stat_size w finalPath = JS.Normal statsSize ->
                r = {| success := true; ImageDownloader.url := url;
                       filePath := Some finalPath;
                       filename := Some (Node.path_basename node finalPath);
                       size := Some statsSize;
                       resultContentType := Some (contentType info);
                       error := None; downloadedAt := toISOString w |})).
Proof.
  destruct downloadSingle_returns as (r & Hr & Hurl & Hat & Htry).
  exists r. split; [exact Hr|]. split; [exact Hurl|]. split; [exact Hat|].
  assert (Hfail : forall message,
            downloadSingle_try node proxyConfig w url options = JS.Throw message ->
            r = failure w url message).
  { intros message Hm. by rewrite Hm in Htry. }
  assert (Hok : forall r',
            downloadSingle_try node proxyConfig w url options = JS.Normal r' ->
            r = r').
  { intros r' Hm. rewrite Hm in Htry. tauto. }
  split; [|split; [|split; [apply getImageInfo_returns|split; [|split]]]].
  - intros Hs.
    destruct (downloadSingle_try node proxyConfig w url options) as [r'|m] eqn:E.
    + destruct Htry as [-> _]. revert E. unfold downloadSingle_try.
      repeat match goal with
             | |- context [mbind _ ?c] => destruct c; cbn; try discriminate
             | |- context [JS.bind ?c _] => destruct c; cbn; try discriminate
             end.
      all: intros [= <-]; simpl; eauto.
    + subst r. discriminate Hs.
  - intros Hs.
    destruct (downloadSingle_try node proxyConfig w url options) as [r'|m] eqn:E.
    + destruct Htry as [_ Ht]. congruence.
    + eauto.
  - intros message Hm. apply Hfail.
    unfold downloadSingle_try, FileManager.ensureDirectory.
    fold (saveDir options). rewrite Hm. reflexivity.
  - intros Hdir Hname Hparse. apply Hfail.
    unfold downloadSingle_try, FileManager.ensureDirectory.
    fold (saveDir options). rewrite Hdir. cbn.
    destruct (getImageInfo_returns) as [info ->]. cbn.
    rewrite Hname. unfold generateFilename, Node.new_URL. rewrite Hparse.
    reflexivity.
  - intros info finalFilename Hprep filePath written.
    pose proof (try_after_prepared info finalFilename Hprep) as Heq.
    cbv zeta in Heq. fold filePath in Heq.
    repeat split.
    + intros message Hget. apply Hfail. rewrite Heq, Hget. reflexivity.
    + intros response message Hget Hw. apply Hfail. rewrite Heq, Hget. cbn.
      unfold written in Hw. rewrite Hw. reflexivity.
    + intros response finalPath message Hget Hw Hstat. apply Hfail.
      rewrite Heq, Hget. cbn. unfold written in Hw. rewrite Hw. cbn.
      rewrite Hstat. reflexivity.
    + intros response finalPath statsSize Hget Hw Hstat. apply Hok.
      rewrite Heq, Hget. cbn. unfold written in Hw. rewrite Hw. cbn.
      rewrite Hstat. reflexivity.
Qed.

End Single.

Example downloadSingle_calm :
  downloadSingle ReferencePlatform.node None calmWorld
    "https://example.com/pets/cat.png" plainOptions
  = JS.Normal
      {| success := true; url := "https://example.com/pets/cat.png";
         filePath := Some "downloads/cat_1700000000000.png";
         filename := Some "cat_1700000000000.png";
         size := Some 2048; resultContentType := Some "image/png";
         error := None; downloadedAt := "2023-11-14T22:13:20.000Z" |}.
Proof. vm_compute. reflexivity. Qed.

Example downloadSingle_fetch_down :
  downloadSingle ReferencePlatform.node None fetchDownWorld
    "https://example.com/pets/cat.png" plainOptions
  = JS.Normal (failure fetchDownWorld "https://example.com/pets/cat.png"
                 "Request failed with status code 404").
Proof. vm_compute. reflexivity. Qed.

(** C2, as the specification states it, fails at the probe: the HEAD
    request of [probeDownWorld] fails, and the download succeeds all the
    same, with the default content type. *)
Lemma downloadSingle_probe_failure_is_absorbed :
  http_head probeDownWorld "https://example.com/pets/cat.png"
  = JS.Throw "timeout of 10000ms exceeded"
  /\ downloadSingle ReferencePlatform.node None probeDownWorld
       "https://example.com/pets/cat.png" plainOptions
     = JS.Normal
         {| success := true; url := "https://example.com/pets/cat.png";
            filePath := Some "downloads/cat_1700000000000.jpg";
            filename := Some "cat_1700000000000.jpg";
            size := Some 2048; resultContentType := Some "image/jpeg";
            error := None; downloadedAt := "2023-11-14T22:13:20.000Z" |}.
Proof. split; [reflexivity|]. vm_compute. reflexivity. Qed.

End DownloadSingleFacts.
(** ** The stream transform stage *)

Module ImageProcessorFacts.
Import ImageProcessor.
Import Scenarios.

(** The resize step asked for by two dimensions: none when both are
    falsy. *)
Definition resizeStep (maxWidth maxHeight : option Z) : Sharp :=
  if JS.truthy_number maxWidth || JS.truthy_number maxHeight
  then [resize maxWidth maxHeight] else [].

(** Sharp takes the resize step: there is none, or each dimension
    that is given is positive. *)
Definition positive_if_given (d : option Z) : bool :=
  match d with
  | Some v => 0 <? v
  | None => true
  end.

Definition resizable (maxWidth maxHeight : option Z) : bool :=
  negb (JS.truthy_number maxWidth || JS.truthy_number maxHeight)
  || (positive_if_given maxWidth && positive_if_given maxHeight).

Lemma applyResize_accepted fx maxWidth maxHeight :
  resizable maxWidth maxHeight = true ->
  applyResize fx [] maxWidth maxHeight = JS.Normal (resizeStep maxWidth maxHeight).
Proof.
  unfold resizable, applyResize, resizeStep, configure. cbn [accepts].
  change (dimension_ok maxWidth) with (positive_if_given maxWidth).
  change (dimension_ok maxHeight) with (positive_if_given maxHeight).
  destruct (JS.truthy_number maxWidth || JS.truthy_number maxHeight); [|done].
  cbn [negb orb]. by intros ->.
Qed.

Lemma applyResize_refused fx maxWidth maxHeight :
  resizable maxWidth maxHeight = false ->
  applyResize fx [] maxWidth maxHeight
  = JS.Throw (sharp_refusal fx (resize maxWidth maxHeight)).
Proof.
  unfold resizable, applyResize, configure. cbn [accepts].
  change (dimension_ok maxWidth) with (positive_if_given maxWidth).
  change (dimension_ok maxHeight) with (positive_if_given maxHeight).
  destruct (JS.truthy_number maxWidth || JS.truthy_number maxHeight); [|done].
  cbn [negb orb]. by intros ->.
Qed.

Lemma quality_accepted quality :
  (1 <=? quality) && (quality <=? 100) = true <-> 1 <= quality <= 100.
Proof. rewrite andb_true_iff, !Z.leb_le. done. Qed.

(** C10. On the stream path, options that ask to compress without a
    target format configure the resize step, if there is one, followed
    by the jpeg encoder at the compression quality (80 unless the
    options carry one), and the image is written through that pipeline
    under the unchanged file path. This is so whenever sharp takes the
    parameters; when it refuses the dimensions or the quality, no stage
    is built and the call fails with the message of sharp. The
    file-based path, given the same options, saves the input through
    the encoder of the format it detects in the input, so a PNG input
    stays PNG there (at compression level 9) and becomes JPEG here. A
    download asked to compress without a target format goes through
    the stream path with such options, at quality 80. *)
Theorem stream_compress_without_format_is_jpeg
    (node : Node.Platform) (fx : Effects) (popts : ProcessOptions)
    (inputStream inputPath outputPath : string) :
  JS.truthy_string (format popts) = false ->
  compress popts = Some true ->
  let quality := default 80 (quality popts) in
  let resized := resizeStep (maxWidth popts) (maxHeight popts) in
  let taken := resizable (maxWidth popts) (maxHeight popts) in
  (taken = true -> 1 <= quality <= 100 ->
   createTransformer fx popts = JS.Normal (resized ++ [jpeg quality true])
   /\ processStream node fx inputStream outputPath popts
      = JS.try_catch
          (fs_mkdir fx (Node.path_dirname node outputPath);;
           pipeline_transform fx inputStream (resized ++ [jpeg quality true])
             outputPath;;
           JS.Normal outputPath)
          processingFailed)
  /\ (taken = false ->
      createTransformer fx popts
      = JS.Throw (sharp_refusal fx (resize (maxWidth popts) (maxHeight popts)))
      /\ processStream node fx inputStream outputPath popts
         = JS.Throw ("Image processing failed: "
                     +:+ sharp_refusal fx (resize (maxWidth popts) (maxHeight popts))))
  /\ (taken = true -> ~ 1 <= quality <= 100 ->
      createTransformer fx popts = JS.Throw (sharp_refusal fx (jpeg quality true))
      /\ processStream node fx inputStream outputPath popts
         = JS.Throw ("Image processing failed: "
                     +:+ sharp_refusal fx (jpeg quality true)))
  /\ (forall transformer,
        createTransformer fx popts = JS.Normal transformer ->
        transformer = resized ++ [jpeg quality true])
  /\ (taken = true ->
      forall originalFormat,
        metadata_format fx inputPath = JS.Normal originalFormat ->
        processFile node fx inputPath outputPath popts
        = JS.try_catch
            (processor ← applyFormat fx resized originalFormat true quality;
             fs_mkdir fx (Node.path_dirname node outputPath);;
             toFile fx inputPath processor outputPath;;
             JS.Normal outputPath)
            processingFailed)
  /\ (taken = true ->
      metadata_format fx inputPath = JS.Normal "png" ->
      processFile node fx inputPath outputPath popts
      = JS.try_catch
          (fs_mkdir fx (Node.path_dirname node outputPath);;
           toFile fx inputPath (resized ++ [png 9 true]) outputPath;;
           JS.Normal outputPath)
          processingFailed)
  /\ (forall options,
        popts = DownloadSingleFacts.processOptions options ->
        DownloadSingleFacts.transforms options = true /\ quality = 80).
Proof.
  intros Hf Hc quality resized taken.
  assert (Hpath : getFinalOutputPath node outputPath (format popts) = outputPath).
  { unfold getFinalOutputPath. by rewrite Hf. }
  assert (Hstream : createTransformer fx popts
                    = (transformer ← applyResize fx [] (maxWidth popts) (maxHeight popts);
                       configure fx transformer (jpeg quality true))).
  { unfold createTransformer. cbv zeta. rewrite Hf, Hc. reflexivity. }
  assert (Hfile : fileProcessor fx inputPath popts
                  = (processor ← applyResize fx [] (maxWidth popts) (maxHeight popts);
                     originalFormat ← metadata_format fx inputPath;
                     applyFormat fx processor originalFormat true quality)).
  { unfold fileProcessor. cbv zeta. rewrite Hf, Hc. reflexivity. }
  split; [|split; [|split; [|split; [|split; [|split]]]]].
  - intros Htaken Hq.
    assert (Hct : createTransformer fx popts = JS.Normal (resized ++ [jpeg quality true])).
    { rewrite Hstream, (applyResize_accepted fx _ _ Htaken). cbn.
      unfold configure. cbn [accepts].
      by rewrite (proj2 (quality_accepted quality) Hq). }
    split; [exact Hct|].
    unfold processStream. rewrite Hct, Hpath. reflexivity.
  - intros Htaken.
    assert (Hct : createTransformer fx popts
                  = JS.Throw (sharp_refusal fx (resize (maxWidth popts) (maxHeight popts)))).
    { by rewrite Hstream, (applyResize_refused fx _ _ Htaken). }
    split; [exact Hct|].
    unfold processStream. rewrite Hct. reflexivity.
  - intros Htaken Hq.
    assert (Hct : createTransformer fx popts
                  = JS.Throw (sharp_refusal fx (jpeg quality true))).
    { rewrite Hstream, (applyResize_accepted fx _ _ Htaken). cbn.
      unfold configure. cbn [accepts].
      destruct ((1 <=? quality) && (quality <=? 100)) eqn:Hacc; [|done].
      by apply quality_accepted in Hacc. }
    split; [exact Hct|].
    unfold processStream. rewrite Hct. reflexivity.
  - intros transformer. rewrite Hstream.
    destruct (resizable (maxWidth popts) (maxHeight popts)) eqn:Htaken.
    + rewrite (applyResize_accepted fx _ _ Htaken). cbn.
      unfold configure. destruct (accepts _); [|done]. by intros [= <-].
    + by rewrite (applyResize_refused fx _ _ Htaken).
  - intros Htaken originalFormat Hmeta.
    unfold processFile.
    rewrite Hfile, (applyResize_accepted fx _ _ Htaken), Hpath. cbn.
    rewrite Hmeta. reflexivity.
  - intros Htaken Hmeta.
    unfold processFile.
    rewrite Hfile, (applyResize_accepted fx _ _ Htaken), Hpath. cbn.
    rewrite Hmeta. reflexivity.
  - intros options ->. simpl in Hc. injection Hc as Hc. split; [|reflexivity].
    unfold DownloadSingleFacts.transforms. rewrite Hc.
    by destruct (JS.truthy_string (Validator.format options)).
Qed.

(** A PNG compressed without a target format and bounded in width:
    JPEG on the stream path, PNG on the file path. *)
Lemma stream_compress_without_format_is_jpeg_witness :
  createTransformer calmEffects (DownloadSingleFacts.processOptions compressOnly)
  = JS.Normal [resize (Some 800) None; jpeg 80 true]
  /\ processFile ReferencePlatform.node calmEffects "in.png" "downloads/cat.png"
       (DownloadSingleFacts.processOptions compressOnly)
     = JS.try_catch
         (fs_mkdir calmEffects "downloads";;
          toFile calmEffects "in.png" [resize (Some 800) None; png 9 true]
            "downloads/cat.png";;
          JS.Normal "downloads/cat.png")
         processingFailed.
Proof.
  destruct (stream_compress_without_format_is_jpeg ReferencePlatform.node
              calmEffects
              (DownloadSingleFacts.processOptions compressOnly)
              "bytes" "in.png" "downloads/cat.png" eq_refl eq_refl)
    as (Hstream & _ & _ & _ & _ & Hfile & _).
  split; [exact (proj1 (Hstream eq_refl ltac:(simpl; lia)))
         | exact (Hfile eq_refl eq_refl)].
Defined.

End ImageProcessorFacts.

(** ** The batch orchestrator *)

Module DownloadBatchFacts.
Import ImageDownloader.
Import Scenarios.

(** *** Arrays with holes *)

Lemma array_set_lookup_eq {A} (arr : list (option A)) i v :
  JS.array_set arr i v !! i = Some (Some v).
Proof.
  unfold JS.array_set. destruct (decide (i < length arr)%nat) as [Hlt|Hge].
  - by apply list_lookup_insert_eq.
  - rewrite lookup_app_r by lia.
    rewrite lookup_app_r by (rewrite length_replicate; lia).
    rewrite length_replicate.
    by replace (i - length arr - (i - length arr))%nat with 0%nat by lia.
Qed.

Lemma array_set_lookup_filled {A} (arr : list (option A)) i j v x :
  i <> j -> arr !! j = Some x -> JS.array_set arr i v !! j = Some x.
Proof.
  intros Hne Hj. unfold JS.array_set.
  destruct (decide (i < length arr)%nat).
  - by rewrite list_lookup_insert_ne.
  - by apply lookup_app_l_Some.
Qed.

Lemma array_set_length {A} (arr : list (option A)) i v :
  length (JS.array_set arr i v) = Nat.max (length arr) (S i).
Proof.
  unfold JS.array_set. destruct (decide (i < length arr)%nat).
  - rewrite length_insert. lia.
  - rewrite !length_app, length_replicate. simpl. lia.
Qed.

Lemma elem_of_remove_first (i j : nat) (l : list nat) :
  j ∈ l -> j <> i -> j ∈ Semaphore.remove_first i l.
Proof.
  induction l as [|x l IH]; intros Hin Hne; simpl; [done|].
  destruct (decide (x = i)) as [->|Hx].
  - apply elem_of_cons in Hin as [->|Hin]; [done|done].
  - apply elem_of_cons in Hin as [->|Hin].
    + apply list_elem_of_here.
    + apply list_elem_of_further. auto.
Qed.

Lemma remove_first_subset (i j : nat) (l : list nat) :
  j ∈ Semaphore.remove_first i l -> j ∈ l.
Proof.
  induction l as [|x l IH]; simpl; [done|].
  destruct (decide (x = i)) as [->|Hx]; intros Hin.
  - by apply list_elem_of_further.
  - apply elem_of_cons in Hin as [->|Hin].
    + apply list_elem_of_here.
    + apply list_elem_of_further. auto.
Qed.

Lemma nth_mod_elem (l : list nat) (k d : nat) :
  l <> [] -> nth (k mod length l) l d ∈ l.
Proof.
  intros Hl. apply list_elem_of_In, nth_In.
  apply Nat.mod_upper_bound. destruct l; [done|simpl; lia].
Qed.

Section Batch.
Variable node : Node.Platform.
Variable proxyConfig : option string.
Variable urls : list string.
Variable downloadOptions : Validator.Options.
Variable worlds : nat -> World.

(** The result of the download of the item at [index]. *)
Definition expected (index : nat) : DownloadResult :=
  match downloadSingle node proxyConfig (worlds index) (urlAt urls index)
          downloadOptions with
  | JS.Normal r => r
  | JS.Throw message =>
      DownloadSingleFacts.failure (worlds index) (urlAt urls index) message
  end.

Lemma downloadSingle_expected index :
  downloadSingle node proxyConfig (worlds index) (urlAt urls index) downloadOptions
  = JS.Normal (expected index)
  /\ url (expected index) = urlAt urls index.
Proof.
  unfold expected.
  destruct (DownloadSingleFacts.downloadSingle_returns node proxyConfig
              (worlds index) (urlAt urls index) downloadOptions)
    as (r & -> & Hurl & _).
  done.
Qed.

(** The tasks that did not finish: suspended in the gate, ready, or
    awaiting their download. *)
Definition pending (st : BatchState) : list nat :=
  Semaphore.queue (semaphore st) ++ ready st ++ inflight st.

(** The invariant of the event loop once [k] tasks were launched on
    a gate of capacity [m]. *)
Record batch_inv (m : Z) (k : nat) (st : BatchState) : Prop := BatchInv {
  bi_rejected : rejected st = None;
  bi_max : Semaphore.max (semaphore st) = m;
  bi_count :
    Semaphore.current (semaphore st)
    = Z.of_nat (length (ready st) + length (inflight st));
  bi_full :
    Semaphore.queue (semaphore st) <> [] -> m <= Semaphore.current (semaphore st);
  bi_pending : forall i, i ∈ pending st -> (i < k)%nat;
  bi_done :
    forall i, (i < k)%nat ->
      i ∈ pending st \/ results st !! i = Some (Some (expected i));
  bi_length : (length (results st) <= k)%nat;
  bi_total : (settled st + length (pending st) = k)%nat;
  bi_bound : Semaphore.current (semaphore st) <= m;
}.

(** What is left to do, in steps of the loop. *)
Definition remaining (st : BatchState) : nat :=
  2 * length (Semaphore.queue (semaphore st)) + 2 * length (ready st)
  + length (inflight st).

Lemma elem_of_pending i st :
  i ∈ pending st
  <-> i ∈ Semaphore.queue (semaphore st) \/ i ∈ ready st \/ i ∈ inflight st.
Proof. unfold pending. by rewrite !elem_of_app. Qed.

Lemma length_pending st :
  length (pending st)
  = (length (Semaphore.queue (semaphore st)) + length (ready st)
     + length (inflight st))%nat.
Proof. unfold pending. rewrite !length_app. lia. Qed.

Lemma launch_inv m k st :
  batch_inv m k st -> inflight st = [] -> settled st = 0%nat ->
  batch_inv m (S k) (launch st k)
  /\ inflight (launch st k) = [] /\ settled (launch st k) = 0%nat.
Proof.
  intros [Hrej Hmax Hcount Hfull Hpend Hdone Hlen Htot Hbound] Hinf Hset.
  rewrite length_pending in Htot.
  unfold launch, Semaphore.acquire.
  destruct (Z.ltb_spec (Semaphore.current (semaphore st))
              (Semaphore.max (semaphore st))) as [Hlt|Hge];
    (split; [|done]); split; simpl;
    rewrite ?length_pending; simpl; rewrite ?length_app; simpl;
    try done; try lia.
  - intros Hq. specialize (Hfull Hq). lia.
  - intros i Hi. apply elem_of_pending in Hi. simpl in Hi.
    rewrite elem_of_app, list_elem_of_singleton in Hi.
    destruct (decide (i = k)) as [->|Hne]; [lia|].
    enough (i < k)%nat by lia. apply Hpend, elem_of_pending. tauto.
  - intros i Hi. rewrite elem_of_pending. simpl.
    rewrite elem_of_app, list_elem_of_singleton.
    destruct (decide (i = k)) as [->|Hne]; [tauto|].
    destruct (Hdone i ltac:(lia)) as [Hp|Hr]; [|by right].
    apply elem_of_pending in Hp. tauto.
  - intros i Hi. apply elem_of_pending in Hi. simpl in Hi.
    rewrite elem_of_app, list_elem_of_singleton in Hi.
    destruct (decide (i = k)) as [->|Hne]; [lia|].
    enough (i < k)%nat by lia. apply Hpend, elem_of_pending. tauto.
  - intros i Hi. rewrite elem_of_pending. simpl.
    rewrite elem_of_app, list_elem_of_singleton.
    destruct (decide (i = k)) as [->|Hne]; [tauto|].
    destruct (Hdone i ltac:(lia)) as [Hp|Hr]; [|by right].
    apply elem_of_pending in Hp. tauto.
Qed.

Lemma launch_all_inv m k st :
  batch_inv m 0 st -> inflight st = [] -> settled st = 0%nat ->
  let st' := fold_left launch (seq 0 k) st in
  batch_inv m k st' /\ inflight st' = [] /\ settled st' = 0%nat.
Proof.
  intros Hinv Hinf Hset. induction k as [|k IH]; cbv zeta.
  - done.
  - rewrite seq_S, fold_left_app. simpl.
    destruct IH as (IH1 & IH2 & IH3). by apply launch_inv.
Qed.

(** A ready task starts its download: the gate is untouched. *)
Lemma begin_inv m k now index rest st :
  batch_inv m k st -> ready st = index :: rest ->
  let st' := begin now index (set_ready rest st) in
  batch_inv m k st'
  /\ settled st' = settled st
  /\ (remaining st' < remaining st)%nat.
Proof.
  intros [Hrej Hmax Hcount Hfull Hpend Hdone Hlen Htot Hbound] Hready.
  rewrite length_pending in Htot. rewrite Hready in *. simpl in *.
  cbv zeta. unfold begin, BatchProgressTracker.createItemTracker. simpl.
  split; [|split; [done|]].
  - split; simpl; rewrite ?length_pending; simpl; rewrite ?length_app;
      simpl; try done; try lia.
    + intros i Hi. apply Hpend. apply elem_of_pending in Hi.
      apply elem_of_pending. simpl in Hi. rewrite Hready.
      rewrite elem_of_app, list_elem_of_singleton in Hi.
      rewrite elem_of_cons. tauto.
    + intros i Hi. destruct (Hdone i Hi) as [Hp|Hr]; [left|by right].
      apply elem_of_pending in Hp. rewrite Hready, elem_of_cons in Hp.
      apply elem_of_pending. simpl.
      rewrite elem_of_app, list_elem_of_singleton. tauto.
  - unfold remaining. simpl. rewrite Hready, length_app. simpl. lia.
Qed.

(** [finally { semaphore.release() }] frees the slot of a finished
    task. *)
Lemma finish_inv m k index st :
  (1 <= m) ->
  batch_inv m k st -> index ∈ inflight st ->
  let st' := finish node proxyConfig urls downloadOptions worlds index st in
  batch_inv m k st'
  /\ settled st' = S (settled st)
  /\ (remaining st' < remaining st)%nat.
Proof.
  intros Hm [Hrej Hmax Hcount Hfull Hpend Hdone Hlen Htot Hbound] Hin.
  rewrite length_pending in Htot.
  pose proof (SemaphoreFacts.remove_first_length _ _ Hin) as Hrm.
  pose proof (SemaphoreFacts.elem_of_length_pos _ _ Hin) as Hpos.
  assert (Hk : (index < k)%nat) by (apply Hpend, elem_of_pending; tauto).
  cbv zeta. unfold finish.
  destruct (downloadSingle_expected index) as [-> _].
  unfold finally_release, Semaphore.release. simpl.
  destruct (Semaphore.queue (semaphore st)) as [|woken queue'] eqn:Hq;
    simpl in Htot |- *.
  - split; [|split; [done|]].
    + split; simpl; rewrite ?length_pending; simpl; rewrite ?Hq; simpl;
        try done; try lia.
      * intros i Hi. apply Hpend. apply elem_of_pending in Hi.
        apply elem_of_pending. simpl in Hi. rewrite ?Hq in Hi.
        destruct Hi as [Hi|[Hi|Hi]]; [by apply elem_of_nil in Hi|tauto|].
        apply remove_first_subset in Hi. tauto.
      * intros i Hi. destruct (decide (i = index)) as [->|Hne].
        { right. apply array_set_lookup_eq. }
        destruct (Hdone i Hi) as [Hp|Hr].
        { left. apply elem_of_pending in Hp. apply elem_of_pending. simpl.
          rewrite Hq in *. destruct Hp as [Hp|[Hp|Hp]]; [tauto|tauto|].
          right; right. by apply elem_of_remove_first. }
        { right. by apply array_set_lookup_filled. }
      * rewrite array_set_length. lia.
    + unfold remaining. simpl. rewrite Hq. simpl. lia.
  - assert (Hfull' : m <= Semaphore.current (semaphore st)) by (by apply Hfull).
    split; [|split; [done|]].
    + split; simpl; rewrite ?length_pending; simpl; rewrite ?Hq, ?length_app;
        simpl; try done; try lia.
      * intros i Hi. apply Hpend. apply elem_of_pending in Hi.
        apply elem_of_pending. simpl in Hi. rewrite Hq.
        rewrite elem_of_app, list_elem_of_singleton in Hi.
        rewrite elem_of_cons.
        destruct Hi as [Hi|[[Hi|Hi]|Hi]]; try tauto.
        apply remove_first_subset in Hi. tauto.
      * intros i Hi. destruct (decide (i = index)) as [->|Hne].
        { right. apply array_set_lookup_eq. }
        destruct (Hdone i Hi) as [Hp|Hr].
        { left. apply elem_of_pending in Hp. apply elem_of_pending. simpl.
          rewrite Hq, elem_of_cons in Hp.
          rewrite elem_of_app, list_elem_of_singleton.
          destruct Hp as [[Hp|Hp]|[Hp|Hp]]; try tauto.
          right; right. by apply elem_of_remove_first. }
        { right. by apply array_set_lookup_filled. }
      * rewrite array_set_length. lia.
    + unfold remaining. simpl. rewrite Hq, length_app. simpl. lia.
Qed.

(** When every task finished the array holds, at each index, the
    result of the download of the item at that index. *)
Lemma results_when_settled m st :
  batch_inv m (length urls) st ->
  settled st = length urls ->
  results st = (fun i => Some (expected i)) <$> seq 0 (length urls).
Proof.
  intros Hinv Hall.
  pose proof (bi_total _ _ _ Hinv) as Htot.
  assert (Hnone : pending st = []).
  { apply length_zero_iff_nil. lia. }
  apply list_eq. intros i.
  destruct (decide (i < length urls)%nat) as [Hlt|Hge].
  - destruct (bi_done _ _ _ Hinv i Hlt) as [Hp|Hr].
    + rewrite Hnone in Hp. by apply elem_of_nil in Hp.
    + rewrite Hr. symmetry. rewrite list_lookup_fmap.
      rewrite lookup_seq_lt by done. reflexivity.
  - pose proof (bi_length _ _ _ Hinv).
    rewrite lookup_ge_None_2 by lia. symmetry.
    apply lookup_ge_None_2. rewrite length_fmap, length_seq. lia.
Qed.

(** *** Capacities below one

    The constructor of the gate accepts them, and then nothing ever
    starts. *)

Lemma launch_all_closed m k st :
  m < 1 ->
  Semaphore.max (semaphore st) = m -> Semaphore.current (semaphore st) = 0 ->
  let st' := fold_left launch (seq 0 k) st in
  Semaphore.max (semaphore st') = m /\ Semaphore.current (semaphore st') = 0
  /\ ready st' = ready st /\ inflight st' = inflight st
  /\ started st' = started st /\ settled st' = settled st
  /\ rejected st' = rejected st.
Proof.
  intros Hm Hmax Hcur. induction k as [|k IH]; cbv zeta.
  - done.
  - rewrite seq_S, fold_left_app. simpl.
    destruct IH as (IH1 & IH2 & IH3 & IH4 & IH5 & IH6 & IH7).
    set (stk := fold_left launch (seq 0 k) st) in *. clearbody stk.
    unfold launch, Semaphore.acquire.
    destruct (Z.ltb_spec (Semaphore.current (semaphore stk))
                (Semaphore.max (semaphore stk))); [lia|].
    simpl. done.
Qed.

(** The states the event loop of a batch goes through on a gate of
    capacity [m], under any clock and any schedule: the state after
    the launch of every task, and from there the steps that [drive]
    takes. *)
Inductive loop_state (m : Z) : BatchState -> Prop :=
| loop_launched (b : BatchProgressTracker.t) :
    loop_state m
      (fold_left launch (seq 0 (length urls))
         (mkBatchState (Semaphore.constructor m) b [] [] [] [] 0 None))
| loop_begin st now index rest :
    loop_state m st -> ready st = index :: rest ->
    loop_state m (begin now index (set_ready rest st))
| loop_finish st index :
    loop_state m st -> index ∈ inflight st ->
    loop_state m (finish node proxyConfig urls downloadOptions worlds index st).

Lemma loop_state_inv m st :
  1 <= m -> loop_state m st -> batch_inv m (length urls) st.
Proof.
  intros Hm. induction 1 as [b|st now index rest _ IH Hready|st index _ IH Hin].
  - apply launch_all_inv; [|done..].
    split; simpl; try done; try lia; intros i Hi; try lia.
    by apply elem_of_nil in Hi.
  - by apply begin_inv.
  - by apply finish_inv.
Qed.

(** At no point of a batch do more than [m] items await their
    download: the items in flight, together with those woken and about
    to start, are the holders of the gate. *)
Lemma inflight_within_capacity m st :
  1 <= m -> loop_state m st ->
  Z.of_nat (length (ready st) + length (inflight st)) <= m
  /\ Z.of_nat (length (inflight st)) <= m.
Proof.
  intros Hm Hst. destruct (loop_state_inv m st Hm Hst).
  lia.
Qed.

Section Loop.
Variable clock : nat -> Z.
Variable sched : nat -> nat.

(** With a capacity of at least one the event loop never stalls and
  never runs out of fuel: it ends with every promise fulfilled. *)
Lemma drive_fulfils m :
1 <= m ->
forall fuel step st,
  batch_inv m (length urls) st ->
  (remaining st < fuel)%nat ->
  exists st',
    drive node proxyConfig urls downloadOptions worlds clock sched fuel step st
    = Some {| outcome := JS.Fulfilled (results st'); launched := started st' |}
    /\ batch_inv m (length urls) st'
    /\ settled st' = length urls.
Proof.
intros Hm. induction fuel as [|fuel IH]; intros step st Hinv Hfuel; [lia|].
simpl. rewrite (bi_rejected _ _ _ Hinv).
destruct (decide (settled st = length urls)) as [Hall|Hsome]; [eauto|].
destruct (ready st) as [|index rest] eqn:Hready.
- destruct (inflight st) as [|first others] eqn:Hinf.
  + exfalso.
    pose proof (bi_total _ _ _ Hinv) as Htot.
    pose proof (bi_count _ _ _ Hinv) as Hcount.
    rewrite length_pending, Hready, Hinf in Htot.
    rewrite Hready, Hinf in Hcount. simpl in *.
    assert (Hq : Semaphore.queue (semaphore st) <> []).
    { intros Hq. rewrite Hq in Htot. simpl in Htot. lia. }
    pose proof (bi_full _ _ _ Hinv Hq). lia.
  + rewrite <- Hinf.
    assert (Hin : nth (sched step mod length (inflight st)) (inflight st) first
                  ∈ inflight st).
    { apply nth_mod_elem. by rewrite Hinf. }
    destruct (finish_inv m (length urls) _ st Hm Hinv Hin) as (Hinv' & _ & Hrem).
    apply IH; [exact Hinv'|lia].
- destruct (begin_inv m (length urls) (clock step) index rest st Hinv Hready)
    as (Hinv' & _ & Hrem).
  apply IH; [exact Hinv'|lia].
Qed.

(** With a concurrency of at least one the promise of [downloadBatch]
  is fulfilled, whatever the schedule, with the results in the order
  of the urls. *)
Lemma downloadBatch_fulfils (concurrency : option Z) :
1 <= default 3 concurrency ->
exists run rs,
  downloadBatch node proxyConfig urls downloadOptions worlds clock sched
    concurrency = Some run
  /\ outcome run = JS.Fulfilled rs
  /\ length rs = length urls
  /\ forall i u, urls !! i = Some u ->
       exists r, rs !! i = Some (Some r)
                 /\ url r = u
                 /\ downloadSingle node proxyConfig (worlds i) u downloadOptions
                    = JS.Normal r.
Proof.
intros Hm. unfold downloadBatch, Semaphore.new. cbv zeta.
set (st0 := mkBatchState _ _ _ _ _ _ _ _).
assert (Hinv0 : batch_inv (default 3 concurrency) 0 st0).
{ split; simpl; try done; try lia; intros i Hi; try lia.
  by apply elem_of_nil in Hi. }
destruct (launch_all_inv _ (length urls) st0 Hinv0 eq_refl eq_refl)
  as (Hinv & Hinf & Hset).
set (st1 := fold_left launch (seq 0 (length urls)) st0) in *.
assert (Hfuel : (remaining st1 < 2 * length urls + 1)%nat).
{ pose proof (bi_total _ _ _ Hinv) as Htot.
  rewrite length_pending in Htot. unfold remaining. lia. }
destruct (drive_fulfils _ Hm _ 1%nat st1 Hinv Hfuel) as (st' & Hrun & Hinv' & Hall).
eexists _, (results st'). split; [exact Hrun|]. split; [reflexivity|].
rewrite (results_when_settled _ _ Hinv' Hall).
split; [by rewrite length_fmap, length_seq|].
intros i u Hu. exists (expected i).
pose proof (lookup_lt_Some _ _ _ Hu) as Hlt.
destruct (downloadSingle_expected i) as [Hds Hurl].
assert (Hat : urlAt urls i = u) by (unfold urlAt; by rewrite Hu).
rewrite Hat in *.
split; [|done].
rewrite list_lookup_fmap, lookup_seq_lt by done. reflexivity.
Qed.

(** With a concurrency below one and at least one url the promise of
  [downloadBatch] is never settled, and no download is started. *)
Lemma downloadBatch_hangs_below_one (concurrency : option Z) :
default 3 concurrency < 1 ->
urls <> [] ->
downloadBatch node proxyConfig urls downloadOptions worlds clock sched concurrency
= Some {| outcome := JS.Pending; launched := [] |}.
Proof.
intros Hm Hurls. unfold downloadBatch, Semaphore.new. cbv zeta.
set (st0 := mkBatchState _ _ _ _ _ _ _ _).
destruct (launch_all_closed _ (length urls) st0 Hm eq_refl eq_refl)
  as (_ & _ & Hready & Hinf & Hstarted & Hsettled & Hrej).
set (st1 := fold_left launch (seq 0 (length urls)) st0) in *.
replace (2 * length urls + 1)%nat with (S (2 * length urls)) by lia.
simpl drive. rewrite Hrej, Hsettled, Hready, Hinf, Hstarted. simpl.
destruct (decide (0%nat = length urls)) as [Hz|_]; [|done].
destruct urls; [done|discriminate Hz].
Qed.

(** [downloadBatch] never rejects: neither the construction of the
  gate nor any task throws, whatever the concurrency. *)
Lemma drive_never_rejects fuel : forall step st run,
rejected st = None ->
drive node proxyConfig urls downloadOptions worlds clock sched fuel step st
= Some run ->
forall message, outcome run <> JS.Rejected message.
Proof.
induction fuel as [|fuel IH]; intros step st run Hrej; simpl; rewrite Hrej.
- destruct (decide (settled st = length urls)); [|done].
  by intros [= <-] message.
- destruct (decide (settled st = length urls)); [by intros [= <-] message|].
  destruct (ready st) as [|index rest] eqn:Hready.
  + destruct (inflight st) as [|first others] eqn:Hinf;
      [by intros [= <-] message|].
    apply IH. unfold finish.
    destruct (downloadSingle_expected
                (nth (sched step mod length (first :: others)) (first :: others) first))
      as [-> _].
    unfold finally_release. simpl.
    by destruct (Semaphore.release (semaphore st)) as [s [woken|]].
  + apply IH. done.
Qed.

Lemma downloadBatch_never_rejects (concurrency : option Z) run :
downloadBatch node proxyConfig urls downloadOptions worlds clock sched concurrency
= Some run ->
forall message, outcome run <> JS.Rejected message.
Proof.
unfold downloadBatch, Semaphore.new. cbv zeta.
apply drive_never_rejects.
generalize (length urls). intros k.
set (st0 := mkBatchState _ _ _ _ _ _ _ _).
assert (H0 : rejected st0 = None) by done.
clearbody st0. induction k as [|k IH]; [done|].
rewrite seq_S, fold_left_app. simpl. unfold launch at 1.
by destruct (Semaphore.acquire _ _) as [s []].
Qed.

(** C1. For every list of urls, every behaviour of the outside world
  and every schedule of completions: with a concurrency of at least
  one [downloadBatch] returns (its promise is fulfilled); and
  whenever it returns, whatever the concurrency, the array it
  returns has one entry per url, without holes, and the entry at
  each index is the result of the download of the url at that
  index, carrying that url. *)
Theorem downloadBatch_results_follow_input_order (concurrency : option Z) :
(1 <= default 3 concurrency ->
 exists run rs,
   downloadBatch node proxyConfig urls downloadOptions worlds clock sched
     concurrency = Some run
   /\ outcome run = JS.Fulfilled rs)
/\ (forall run rs,
      downloadBatch node proxyConfig urls downloadOptions worlds clock sched
        concurrency = Some run ->
      outcome run = JS.Fulfilled rs ->
      length rs = length urls
      /\ forall i u, urls !! i = Some u ->
           exists r, rs !! i = Some (Some r)
                     /\ url r = u
                     /\ downloadSingle node proxyConfig (worlds i) u
                          downloadOptions = JS.Normal r).
Proof.
split.
- intros Hm.
  destruct (downloadBatch_fulfils concurrency Hm) as (run & rs & Hrun & Hout & _).
  eauto.
- intros run rs Hrun Hout.
  destruct (decide (1 <= default 3 concurrency)) as [Hm|Hm].
  + destruct (downloadBatch_fulfils concurrency Hm)
      as (run' & rs' & Hrun' & Hout' & Hres).
    rewrite Hrun in Hrun'. injection Hrun' as <-.
    rewrite Hout in Hout'. injection Hout' as <-. exact Hres.
  + destruct (decide (urls = [])) as [Hnil|Hsome].
    * revert Hrun. unfold downloadBatch, Semaphore.new. cbv zeta.
      rewrite Hnil. simpl. intros [= <-]. simpl in Hout.
      injection Hout as <-. split; [done|].
      intros i u Hu. by rewrite lookup_nil in Hu.
    * rewrite (downloadBatch_hangs_below_one concurrency ltac:(lia) Hsome)
        in Hrun.
      injection Hrun as <-. discriminate Hout.
Qed.

End Loop.

End Batch.

(** Three urls through a gate of capacity two. *)
Lemma downloadBatch_results_follow_input_order_witness :
  exists run rs,
    downloadBatch ReferencePlatform.node None threeUrls
      plainOptions secondFails Z.of_nat (fun _ => 1%nat)
      (Some 2) = Some run
    /\ outcome run = JS.Fulfilled rs
    /\ length rs = 3%nat.
Proof.
  destruct (downloadBatch_results_follow_input_order ReferencePlatform.node None
              threeUrls plainOptions secondFails Z.of_nat
              (fun _ => 1%nat) (Some 2))
    as [Hreturns Hordered].
  destruct (Hreturns ltac:(simpl; lia)) as (run & rs & Hrun & Hout).
  exists run, rs. split; [exact Hrun|]. split; [exact Hout|].
  exact (proj1 (Hordered run rs Hrun Hout)).
Defined.

(** The same batch under two schedules: whichever download settles
    first, the results come in the order of the urls, and the failure
    of the second item leaves the others alone. *)
Example downloadBatch_two_schedules :
  let summary (run : option BatchRun) :=
    match run with
    | Some {| outcome := JS.Fulfilled rs |} =>
        (fun slot => match slot with
                     | Some r => Some (url r, success r)
                     | None => None
                     end) <$> rs
    | _ => []
    end in
  let batch sched :=
    downloadBatch ReferencePlatform.node None threeUrls
      plainOptions secondFails Z.of_nat sched (Some 2) in
  summary (batch (fun _ => 0%nat))
  = [Some ("https://example.com/a.png", true);
     Some ("https://example.com/b.png", false);
     Some ("https://example.com/c.png", true)]
  /\ summary (batch (fun _ => 1%nat)) = summary (batch (fun _ => 0%nat)).
Proof. vm_compute. split; reflexivity. Qed.

End DownloadBatchFacts.

(** ** The batch tool handler *)

Module ServerFacts.
Import ImageDownloaderServer.
Import Scenarios.

(** [validateImageUrl] accepts exactly the non-empty strings that
    parse as a URL with scheme http or https whose lower-cased path ends
    in an image extension or whose query carries an image hint. *)
Lemma validateImageUrl_spec (node : Node.Platform) (url : string) :
  Validator.validateImageUrl node url = true <->
  url <> ""
  /\ exists urlObj,
       Node.URL_parse node url = Some urlObj
       /\ (Node.protocol urlObj = "http:" \/ Node.protocol urlObj = "https:")
       /\ ((exists ext, ext ∈ Validator.imageExtensions
                        /\ JS.endsWith ext (JS.toLowerCase (Node.pathname urlObj)) = true)
           \/ (exists hint, hint ∈ ["format="; "type=image"; ".jpg"; ".png"; ".webp"]
                            /\ JS.includes hint (Node.search urlObj) = true)).
Proof.
  unfold Validator.validateImageUrl.
  destruct (String.eqb_spec url "") as [->|Hne].
  { split; [done|]. by intros [? _]. }
  destruct (Node.URL_parse node url) as [urlObj|].
  2:{ split; [done|]. by intros (_ & ? & ? & _). }
  assert (Hproto :
    JS.array_includes (Node.protocol urlObj) ["http:"; "https:"] = true
    <-> Node.protocol urlObj = "http:" \/ Node.protocol urlObj = "https:").
  { unfold JS.array_includes. simpl. rewrite !orb_true_iff, !String.eqb_eq.
    split; [intros [?|[?|?]]|intros [?|?]]; auto; done. }
  assert (Hext :
    existsb (fun ext => JS.endsWith ext (JS.toLowerCase (Node.pathname urlObj)))
      Validator.imageExtensions = true
    <-> exists ext, ext ∈ Validator.imageExtensions
                    /\ JS.endsWith ext (JS.toLowerCase (Node.pathname urlObj)) = true).
  { rewrite existsb_exists. by setoid_rewrite list_elem_of_In. }
  assert (Hhint :
    JS.includes "format=" (Node.search urlObj)
    || JS.includes "type=image" (Node.search urlObj)
    || JS.includes ".jpg" (Node.search urlObj)
    || JS.includes ".png" (Node.search urlObj)
    || JS.includes ".webp" (Node.search urlObj) = true
    <-> exists hint, hint ∈ ["format="; "type=image"; ".jpg"; ".png"; ".webp"]
                     /\ JS.includes hint (Node.search urlObj) = true).
  { rewrite !orb_true_iff. split.
    - intros [[[[H|H]|H]|H]|H]; eexists; (split; [|exact H]);
        repeat first [apply list_elem_of_here | apply list_elem_of_further].
    - intros (hint & Hin & H).
      repeat (apply elem_of_cons in Hin as [->|Hin]; [tauto|]).
      by apply elem_of_nil in Hin. }
  destruct (JS.array_includes (Node.protocol urlObj) ["http:"; "https:"]) eqn:Hp;
    simpl.
  - rewrite orb_true_iff, Hext, Hhint. split.
    + intros H. split; [done|]. exists urlObj. split; [done|]. split; [|done].
      by apply Hproto.
    + intros (_ & o & [= <-] & _ & H). done.
  - split; [done|]. intros (_ & o & [= <-] & Hs & _).
    apply Hproto in Hs. congruence.
Qed.

(** A url with another scheme, or with neither an image extension in
    its path nor an image hint in its query, is not accepted. *)
Lemma validateImageUrl_rejects (node : Node.Platform) (url : string) urlObj :
  Node.URL_parse node url = Some urlObj ->
  (Node.protocol urlObj <> "http:" /\ Node.protocol urlObj <> "https:")
  \/ ((forall ext, ext ∈ Validator.imageExtensions ->
         JS.endsWith ext (JS.toLowerCase (Node.pathname urlObj)) = false)
      /\ (forall hint, hint ∈ ["format="; "type=image"; ".jpg"; ".png"; ".webp"] ->
           JS.includes hint (Node.search urlObj) = false)) ->
  Validator.validateImageUrl node url = false.
Proof.
  intros Hparse Hbad.
  destruct (Validator.validateImageUrl node url) eqn:Hv; [|done].
  apply validateImageUrl_spec in Hv as (_ & o & Ho & Hscheme & Hlooks).
  rewrite Hparse in Ho. injection Ho as <-.
  destruct Hbad as [[H1 H2]|[Hext Hhint]].
  - destruct Hscheme; congruence.
  - destruct Hlooks as [(ext & Hin & He)|(hint & Hin & Hh)].
    + rewrite (Hext ext Hin) in He. discriminate.
    + rewrite (Hhint hint Hin) in Hh. discriminate.
Qed.

Section Handler.
Variable node : Node.Platform.
Variable defaultConfig : Config.
Variable worlds : nat -> ImageDownloader.World.
Variable clock : nat -> Z.
Variable sched : nat -> nat.

Lemma elem_of_invalidUrls args url :
  url ∈ invalidUrls node args
  <-> url ∈ urls args /\ Validator.validateImageUrl node url = false.
Proof.
  unfold invalidUrls. rewrite !list_elem_of_In, filter_In, negb_true_iff. done.
Qed.

(** C4. When the url list of a batch call contains a url that
    [validateImageUrl] does not accept, the call is rejected with an
    error whose message lists the urls that are not accepted, in the
    order of the list and separated by commas, and no item enters the
    download pipeline. *)
Theorem batch_with_invalid_url_is_rejected (args : BatchArgs) (url : string) :
  url ∈ urls args ->
  Validator.validateImageUrl node url = false ->
  handleDownloadImagesBatch node defaultConfig worlds clock sched args
  = Some {| response :=
              JS.Rejected ("Invalid URLs found: "
                           +:+ JS.join ", " (invalidUrls node args));
            launched := [] |}
  /\ url ∈ invalidUrls node args
  /\ (forall other, other ∈ invalidUrls node args
                    <-> other ∈ urls args
                        /\ Validator.validateImageUrl node other = false).
Proof.
  intros Hin Hbad.
  assert (Hmem : url ∈ invalidUrls node args) by (by apply elem_of_invalidUrls).
  split; [|split; [done|apply elem_of_invalidUrls]].
  unfold handleDownloadImagesBatch.
  destruct (invalidUrls node args) as [|first others] eqn:Hinv.
  - by apply elem_of_nil in Hmem.
  - reflexivity.
Qed.

(** The handler surfaces no error for any concurrency: once the urls
    are accepted its promise is fulfilled or stays pending. *)
Lemma handler_never_rejects_valid_urls (args : BatchArgs) run :
  invalidUrls node args = [] ->
  handleDownloadImagesBatch node defaultConfig worlds clock sched args = Some run ->
  forall message, response run <> JS.Rejected message.
Proof.
  intros Hvalid. unfold handleDownloadImagesBatch. rewrite Hvalid. simpl.
  destruct (ImageDownloader.downloadBatch _ _ _ _ _ _ _ _) as [batch|] eqn:Hb;
    [|done].
  intros [= <-] message. simpl.
  pose proof (DownloadBatchFacts.downloadBatch_never_rejects _ _ _ _ _ _ _ _ _ Hb)
    as Hnot.
  destruct (ImageDownloader.outcome batch); [done| |done].
  by destruct (Hnot message0).
Qed.

End Handler.

(** *** Calls on the reference platform *)

(** A page and an ftp url next to an image: the batch is rejected and
    both are listed. *)
Lemma batch_with_invalid_url_is_rejected_witness :
  handleDownloadImagesBatch ReferencePlatform.node exampleConfig calm
    Z.of_nat (fun _ => 0%nat) (argsFor mixedUrls None)
  = Some {| response :=
              JS.Rejected
                "Invalid URLs found: https://example.com/page.html, ftp://example.com/b.png";
            launched := [] |}.
Proof.
  refine (proj1 (batch_with_invalid_url_is_rejected ReferencePlatform.node
                   exampleConfig calm Z.of_nat (fun _ => 0%nat)
                   (argsFor mixedUrls None) "https://example.com/page.html" _ _)).
  - apply list_elem_of_further, list_elem_of_here.
  - reflexivity.
Defined.

(** C6 fails on the code. A batch call with concurrency 0 is not
    rejected: its urls are accepted, the gate is built with capacity 0,
    no download ever starts and the promise of the call is never
    settled. The validator of the options, which the handler does not
    call, would let 0 through as well, since it examines the concurrency
    only when it is truthy. A call with concurrency 50 is not rejected
    either, although that validator refuses 50: the batch runs to its
    end. *)
Lemma batch_concurrency_is_not_validated :
  invalidUrls ReferencePlatform.node (argsFor ["https://example.com/a.jpg"] (Some 0)) = []
  /\ handleDownloadImagesBatch ReferencePlatform.node exampleConfig calm
       Z.of_nat (fun _ => 0%nat) (argsFor ["https://example.com/a.jpg"] (Some 0))
     = Some {| response := JS.Pending; launched := [] |}
  /\ Validator.isValid
       (Validator.validateDownloadOptions
          (batchOptions exampleConfig (argsFor ["https://example.com/a.jpg"] (Some 0))))
     = true
  /\ Validator.isValid
       (Validator.validateDownloadOptions
          (batchOptions exampleConfig (argsFor threeUrls (Some 50))))
     = false
  /\ exists reply,
       handleDownloadImagesBatch ReferencePlatform.node exampleConfig calm
         Z.of_nat (fun _ => 0%nat) (argsFor threeUrls (Some 50))
       = Some {| response := JS.Fulfilled reply; launched := [0; 1; 2]%nat |}
       /\ total reply = 3%nat /\ successful reply = 3%nat.
Proof.
  split; [reflexivity|]. split; [vm_compute; reflexivity|].
  split; [reflexivity|]. split; [reflexivity|].
  eexists. split; [vm_compute; reflexivity|]. split; reflexivity.
Qed.

End ServerFacts.

(** ** Strings *)

Module StringFacts.

Lemma append_cons (x : ascii) (a b : string) :
  String x a +:+ b = String x (a +:+ b).
Proof. reflexivity. Qed.

Lemma append_nil_l (a : string) : "" +:+ a = a.
Proof. reflexivity. Qed.

Lemma append_assoc (a b c : string) : (a +:+ b) +:+ c = a +:+ (b +:+ c).
Proof.
  induction a as [|x a IH]; [done|].
  by rewrite !append_cons, IH.
Qed.

Lemma append_nil_r (a : string) : a +:+ "" = a.
Proof. induction a as [|x a IH]; [done|]. by rewrite append_cons, IH. Qed.

Lemma append_not_empty_r (a b : string) : b <> "" -> a +:+ b <> "".
Proof. destruct a; [done|]. rewrite append_cons. discriminate. Qed.

Lemma append_not_empty_l (a b : string) : a <> "" -> a +:+ b <> "".
Proof. destruct a; [done|]. rewrite append_cons. discriminate. Qed.

Lemma prefix_append (a b : string) : String.prefix a (a +:+ b) = true.
Proof.
  induction a as [|x a IH]; [by destruct b|].
  rewrite append_cons. simpl.
  destruct (Ascii.ascii_dec x x); [done|congruence].
Qed.

Lemma prefix_split (a s : string) :
  String.prefix a s = true -> exists b, s = a +:+ b.
Proof.
  revert s. induction a as [|x a IH]; intros s; simpl.
  - intros _. by exists s.
  - destruct s as [|y s]; [done|]. simpl.
    destruct (Ascii.ascii_dec x y) as [->|]; [|done].
    intros H. destruct (IH s H) as [b ->]. by exists b.
Qed.

End StringFacts.

(** ** More on the gate *)

Module GateDisciplineFacts.
Import Semaphore.

(** [j] calls of [release()] in a row. *)
Fixpoint release_n (j : nat) (s : t) : t :=
  match j with
  | O => s
  | S j' => release_n j' (release s).1
  end.

(** The callers call [acquire()] one after the other. *)
Fixpoint acquire_all (callers : list nat) (s : t) : t * list acquired :=
  match callers with
  | [] => (s, [])
  | c :: rest =>
      let (s1, a) := acquire c s in
      let (s2, others) := acquire_all rest s1 in
      (s2, a :: others)
  end.

Lemma release_n_idle j : forall s,
  queue s = [] ->
  max (release_n j s) = max s
  /\ current (release_n j s) = current s - Z.of_nat j
  /\ queue (release_n j s) = [].
Proof.
  induction j as [|j IH]; intros s Hq; simpl.
  - repeat split; [lia|done].
  - assert (Hrel : (release s).1
                   = {| max := max s; current := current s - 1; queue := [] |}).
    { unfold release. simpl. by rewrite Hq. }
    rewrite Hrel. destruct (IH {| max := max s; current := current s - 1; queue := [] |}
                              eq_refl) as (H1 & H2 & H3).
    simpl in *. repeat split; [done|lia|done].
Qed.

(** On a gate with [room] free slots the first [room] callers proceed
    and the others suspend, in the order of their calls. *)
Lemma acquire_all_room callers : forall s (room : nat),
  max s - current s = Z.of_nat room ->
  (acquire_all callers s).2
  = replicate (Nat.min room (length callers)) Proceeds
    ++ replicate (length callers - room) Suspends.
Proof.
  induction callers as [|c rest IH]; intros s room Hroom; simpl.
  - by rewrite Nat.min_0_r.
  - unfold acquire.
    destruct (Z.ltb_spec (current s) (max s)) as [Hlt|Hge].
    + destruct room as [|room]; [lia|].
      specialize (IH {| max := max s; current := current s + 1; queue := queue s |}
                    room ltac:(simpl; lia)).
      destruct (acquire_all rest _) as [s2 others]. simpl in *.
      by rewrite IH.
    + assert (room = 0%nat) as -> by lia.
      specialize (IH {| max := max s; current := current s;
                        queue := queue s ++ [c] |} 0%nat ltac:(simpl; lia)).
      destruct (acquire_all rest _) as [s2 others]. simpl in *.
      rewrite IH. simpl. by rewrite Nat.sub_0_r.
Qed.

(** X1. [release()] does not check that its caller holds a slot. On a
    gate of capacity [m] that nobody holds, [j] releases lower the
    counter to [-j] and leave the queue empty; of the callers that
    acquire afterwards the first [m + j] proceed at once, so more than
    [m] callers hold the gate together, and only the later ones
    suspend. *)
Theorem release_without_holder_widens_gate (m : Z) (j : nat) (callers : list nat) :
  0 <= m ->
  let widened := release_n j (constructor m) in
  current widened = - Z.of_nat j
  /\ queue widened = []
  /\ (acquire_all callers widened).2
     = replicate (Nat.min (Z.to_nat m + j) (length callers)) Proceeds
       ++ replicate (length callers - (Z.to_nat m + j)) Suspends.
Proof.
  intros Hm widened.
  destruct (release_n_idle j (constructor m) eq_refl) as (Hmax & Hcur & Hq).
  fold widened in Hmax, Hcur, Hq. simpl in *.
  split; [lia|]. split; [done|].
  apply acquire_all_room. lia.
Qed.

(** Capacity 1, one stray release, three callers: two proceed. *)
Lemma release_without_holder_widens_gate_witness :
  (acquire_all [0; 1; 2]%nat (release_n 1 (constructor 1))).2
  = [Proceeds; Proceeds; Suspends].
Proof.
  exact (proj2 (proj2 (release_without_holder_widens_gate 1 1 [0; 1; 2]%nat
                         ltac:(lia)))).
Defined.

(** X2. On a gate whose queue is empty an [acquire] followed by a
    [release] restores the gate: a slot taken is given back, and a
    caller who had to wait is the one woken. *)
Theorem acquire_then_release_restores (c : nat) (s : t) :
  queue s = [] ->
  (release (acquire c s).1).1 = s
  /\ (release (acquire c s).1).2
     = match (acquire c s).2 with Proceeds => None | Suspends => Some c end.
Proof.
  intros Hq. destruct s as [mx cur q]. simpl in Hq. subst q.
  unfold acquire, release. simpl.
  destruct (cur <? mx); simpl; split; try done; f_equal; lia.
Qed.

Lemma acquire_then_release_restores_witness :
  (release (acquire 4%nat (constructor 0)).1).1 = constructor 0
  /\ (release (acquire 4%nat (constructor 0)).1).2 = Some 4%nat.
Proof.
  exact (acquire_then_release_restores 4%nat (constructor 0) eq_refl).
Defined.

End GateDisciplineFacts.

(** ** More on the progress trackers *)

Module TrackerLifecycleFacts.
Import ProgressTracker.

(** X3. [formatDuration] answers "Unknown" for null, NaN, 0 and every
    negative number. For a positive duration of at most 2^53
    milliseconds, whole or not, it prints the whole seconds [s]
    contained in it as hours, minutes below 60 and seconds below 60
    that add up to [s], leaving out the hours when there is none and
    the minutes when there is neither; less than a second prints as
    "0s". For Infinity it prints "Infinityh NaNm NaNs". *)
Theorem formatDuration_parts (q : Q) :
  (0 < q)%Q -> (q <= inject_Z (JS.MAX_SAFE_INTEGER + 1))%Q ->
  let s := Qfloor (q / 1000) in
  let h := s / 3600 in
  let m := (s / 60) mod 60 in
  let sec := s mod 60 in
  (inject_Z s * 1000 <= q /\ q < inject_Z (s + 1) * 1000)%Q
  /\ h * 3600 + m * 60 + sec = s
  /\ 0 <= m < 60 /\ 0 <= sec < 60 /\ 0 <= h
  /\ formatDuration (Some (JS.Finite q))
     = Some ((if 0 <? h then pretty h +:+ "h " else "")
             +:+ (if 0 <? s / 60 then pretty m +:+ "m " else "")
             +:+ pretty sec +:+ "s")
  /\ ((q < 1000)%Q -> formatDuration (Some (JS.Finite q)) = Some "0s")
  /\ formatDuration None = Some "Unknown"
  /\ formatDuration (Some (JS.Finite 0)) = Some "Unknown"
  /\ formatDuration (Some (JS.Finite (- q))) = Some "Unknown"
  /\ formatDuration (Some JS.NaN) = Some "Unknown"
  /\ formatDuration (Some (JS.Infinity true)) = Some "Unknown"
  /\ formatDuration (Some (JS.Infinity false)) = Some "Infinityh NaNm NaNs".
Proof.
  intros Hpos Hmax. cbv zeta.
  assert (Hx : (q == q / 1000 * 1000)%Q) by field.
  pose proof (Qfloor_le (q / 1000)) as Hlow.
  pose proof (Qlt_floor (q / 1000)) as Hup.
  remember (Qfloor (q / 1000)) as s eqn:Es.
  revert Hx Hlow Hup. generalize (q / 1000)%Q. intros x Hx Hlow Hup.
  remember (s / 3600) as h eqn:Eh.
  remember ((s / 60) mod 60) as m eqn:Em.
  remember (s mod 60) as sec eqn:Esec.
  assert (Hs : 0 <= s).
  { assert (Hq : (0 < inject_Z (s + 1))%Q) by lra.
    change 0%Q with (inject_Z 0) in Hq. rewrite <- Zlt_Qlt in Hq. lia. }
  assert (Hh : h = s / 60 / 60) by (subst h; rewrite Z.div_div by lia; done).
  assert (Hm60 : 0 <= s / 60) by (apply Z.div_pos; lia).
  pose proof (Z.mod_pos_bound (s / 60) 60 ltac:(lia)) as Hmb.
  pose proof (Z.mod_pos_bound s 60 ltac:(lia)) as Hsb.
  pose proof (Z.div_mod s 60 ltac:(lia)) as Hd1.
  pose proof (Z.div_mod (s / 60) 60 ltac:(lia)) as Hd2.
  assert (Hh0 : 0 <= h) by (rewrite Hh; apply Z.div_pos; lia).
  rewrite <- Em in Hmb, Hd2. rewrite <- Esec in Hsb, Hd1. rewrite <- Hh in Hd2.
  split; [split; lra|].
  split; [lia|]. split; [done|]. split; [done|]. split; [done|].
  assert (Htruthy : Qeq_bool q 0 = false).
  { destruct (Qeq_bool q 0) eqn:Hz; [|done].
    apply Qeq_bool_eq in Hz. lra. }
  assert (Hnonneg : Qle_bool 0 q = true) by (apply Qle_bool_iff; lra).
  assert (Hsafe : Qle_bool q (inject_Z (JS.MAX_SAFE_INTEGER + 1)) = true)
    by (by apply Qle_bool_iff).
  assert (Hfmt : formatDuration (Some (JS.Finite q))
                 = Some ((if 0 <? h then pretty h +:+ "h " else "")
                         +:+ (if 0 <? s / 60 then pretty m +:+ "m " else "")
                         +:+ pretty sec +:+ "s")).
  { unfold formatDuration, JS.truthy_num, JS.num_ltb.
    rewrite Htruthy, Hnonneg, Hsafe. cbn [negb orb]. cbv zeta.
    rewrite <- Es, <- Hh, <- Em, <- Esec. f_equal.
    destruct (Z.ltb_spec 0 h) as [Hhp|Hhz].
    - destruct (Z.ltb_spec 0 (s / 60)) as [_|Hmz]; [|lia].
      by rewrite !StringFacts.append_assoc.
    - destruct (Z.ltb_spec 0 (s / 60)) as [Hmp|Hmz].
      + assert (Hm1 : s / 60 = m) by lia. rewrite Hm1.
        by rewrite !StringFacts.append_assoc.
      + assert (Hs1 : s = sec) by lia. rewrite Hs1 at 1. done. }
  split; [exact Hfmt|]. split; [|repeat split].
  - intros Hlt. rewrite Hfmt.
    assert (Hz : s = 0).
    { assert (Hq : (inject_Z s < inject_Z 1)%Q) by (change (inject_Z 1) with 1%Q; lra).
      rewrite <- Zlt_Qlt in Hq. lia. }
    rewrite Hz in *. subst h m sec. reflexivity.
  - unfold formatDuration, JS.truthy_num, JS.num_ltb.
    assert (Hneg : Qle_bool 0 (- q) = false).
    { destruct (Qle_bool 0 (- q)) eqn:Hz; [|done].
      apply Qle_bool_iff in Hz. lra. }
    rewrite Hneg. cbn [negb]. by rewrite orb_true_r.
Qed.

(** One hour, one minute and one second and a half. *)
Lemma formatDuration_parts_witness :
  formatDuration (Some (JS.Finite (7323001 # 2))) = Some "1h 1m 1s".
Proof.
  destruct (formatDuration_parts (7323001 # 2) ltac:(reflexivity)
              ltac:(vm_compute; discriminate))
    as (_ & _ & _ & _ & _ & H & _).
  exact H.
Defined.

(** The tracker after the updates [ups], each made of the readings of
    the clock and of the ISO date and of the raw sample. *)
Definition feed (ups : list (Z * string * Progress)) (tr : t) : t :=
  fold_left (fun tr u => (updateProgress u.1.1 u.1.2 u.2 tr).1) ups tr.

Lemma feed_history ups : forall tr,
  startTime (feed ups tr) = startTime tr
  /\ (progress <$> progressHistory (feed ups tr))
     = (progress <$> progressHistory tr) ++ (snd <$> ups)
  /\ (elapsedTime <$> progressHistory (feed ups tr))
     = (elapsedTime <$> progressHistory tr)
       ++ ((fun u => u.1.1 - default 0 (startTime tr)) <$> ups).
Proof.
  induction ups as [|u ups IH]; intros tr; simpl.
  - by rewrite !app_nil_r.
  - destruct (IH (updateProgress u.1.1 u.1.2 u.2 tr).1) as (H1 & H2 & H3).
    unfold feed in *. simpl in *. rewrite H1, H2, H3.
    rewrite !fmap_app. simpl. by rewrite <- !app_assoc.
Qed.

(** X4. [start()] forgets whatever the tracker held. After [start()] at
    time [t0] and any updates, the history holds exactly the samples of
    the updates, in their order, each with the time elapsed since [t0];
    [getSummary()] counts the updates and, when there was one, reports
    the time from [t0] to the last update and the percentage of the last
    sample. A tracker that was never started measures the elapsed time
    from time 0. *)
Theorem tracker_lifecycle (t0 : Z) (old : t) (ups : list (Z * string * Progress)) :
  let tr := feed ups (start t0 old) in
  (progress <$> progressHistory tr) = (snd <$> ups)
  /\ (elapsedTime <$> progressHistory tr) = ((fun u => u.1.1 - t0) <$> ups)
  /\ Summary.progressUpdates (getSummary tr) = length ups
  /\ (forall earlier u, ups = earlier ++ [u] ->
        Summary.totalTime (getSummary tr) = u.1.1 - t0
        /\ Summary.finalPercentage (getSummary tr) = Some (percentage u.2))
  /\ (ups = [] -> getSummary tr = zeroSummary)
  /\ (elapsedTime <$> progressHistory (feed ups constructor))
     = ((fun u => u.1.1) <$> ups).
Proof.
  cbv zeta.
  destruct (feed_history ups (start t0 old)) as (Hst & Hp & He).
  simpl in Hp, He.
  set (tr := feed ups (start t0 old)) in *. clearbody tr.
  assert (Hlen : length (progressHistory tr) = length ups).
  { rewrite <- (length_fmap progress), Hp. by rewrite length_fmap. }
  split; [exact Hp|]. split; [exact He|]. split; [|split; [|split]].
  - unfold getSummary. destruct (last (progressHistory tr)) eqn:Hlast; simpl; [done|].
    apply last_None in Hlast. rewrite Hlast in Hlen. done.
  - intros earlier u ->.
    assert (Hne : progressHistory tr <> []).
    { intros Hnil. rewrite Hnil, length_app in Hlen. simpl in Hlen. lia. }
    destruct (exists_last Hne) as (h0 & e0 & Hh).
    rewrite Hh in Hp, He. rewrite !fmap_app in Hp. rewrite !fmap_app in He.
    simpl in Hp, He.
    apply app_inj_tail in Hp as [_ Hp]. apply app_inj_tail in He as [_ He].
    unfold getSummary. rewrite Hh, last_snoc. simpl. by rewrite Hp, He.
  - intros ->. simpl in Hlen. apply length_zero_iff_nil in Hlen.
    unfold getSummary. by rewrite Hlen.
  - destruct (feed_history ups constructor) as (_ & _ & He').
    simpl in He'. rewrite He'. apply list_fmap_ext. intros _ u _. simpl. lia.
Qed.

End TrackerLifecycleFacts.

(** ** The batch tracker, alone and inside a batch *)

Module BatchTrackingFacts.
Import ImageDownloader.

(** X5. [completeItem] counts an item once: completing an item that is
    not active changes nothing, so a second [completeItem] for the same
    id is without effect, and after it the id is not active. Completing
    an item right after [createItemTracker] records the zeroed summary
    for it and raises the counter by one, whatever tracker the id had
    before. *)
Theorem completeItem_counts_once (id : nat) (b : BatchProgressTracker.t) :
  BatchProgressTracker.completeItem id (BatchProgressTracker.completeItem id b)
  = BatchProgressTracker.completeItem id b
  /\ (BatchProgressTracker.activeTrackers b !! id = None ->
      BatchProgressTracker.completeItem id b = b)
  /\ BatchProgressTracker.activeTrackers (BatchProgressTracker.completeItem id b) !! id
     = None
  /\ (forall now b1 tracker,
        BatchProgressTracker.createItemTracker now id b = JS.Normal (b1, tracker) ->
        BatchProgressTracker.completeItem id b1
        = {| BatchProgressTracker.totalItems := BatchProgressTracker.totalItems b;
             BatchProgressTracker.completedItems :=
               BatchProgressTracker.completedItems b + 1;
             BatchProgressTracker.activeTrackers :=
               delete id (BatchProgressTracker.activeTrackers b);
             BatchProgressTracker.completedTrackers :=
               BatchProgressTracker.completedTrackers b
               ++ [BatchProgressTracker.mkCompleted id ProgressTracker.zeroSummary];
             BatchProgressTracker.startTime := BatchProgressTracker.startTime b |}).
Proof.
  assert (Hgone : BatchProgressTracker.activeTrackers
                    (BatchProgressTracker.completeItem id b) !! id = None).
  { unfold BatchProgressTracker.completeItem.
    destruct (BatchProgressTracker.activeTrackers b !! id) eqn:E; simpl; [|done].
    apply lookup_delete_eq. }
  split; [|split; [|split; [exact Hgone|]]].
  - unfold BatchProgressTracker.completeItem at 1. by rewrite Hgone.
  - intros Hnone. unfold BatchProgressTracker.completeItem. by rewrite Hnone.
  - intros now b1 tracker [= <- <-].
    unfold BatchProgressTracker.completeItem. simpl.
    rewrite lookup_insert_eq. simpl. by rewrite delete_insert_eq.
Qed.

(** X6. The batch summary never reports any bytes: the summaries of the
    items carry no byte count, so [totalBytes] is 0 however many items
    completed; the completed items are passed on as recorded, and the
    average speed is 0 when none completed. *)
Theorem batch_summary_totalBytes_is_zero (b : BatchProgressTracker.t) :
  BatchProgressTracker.totalBytes (BatchProgressTracker.getSummaryTotals b) = 0
  /\ BatchProgressTracker.summaryCompletedItems (BatchProgressTracker.getSummaryTotals b)
     = BatchProgressTracker.completedTrackers b
  /\ (BatchProgressTracker.completedTrackers b = [] ->
      BatchProgressTracker.summaryAverageSpeed (BatchProgressTracker.getSummaryTotals b)
      = 0%float).
Proof.
  split; [|split; [done|]].
  - unfold BatchProgressTracker.getSummaryTotals. simpl.
    generalize (BatchProgressTracker.summary <$> BatchProgressTracker.completedTrackers b).
    intros l. induction l as [|s l IH]; simpl; [done|exact IH].
  - intros Hnil. unfold BatchProgressTracker.getSummaryTotals. simpl.
    by rewrite Hnil.
Qed.

(** *** Lists of item indices *)

Lemma remove_first_sublist (i : nat) (l : list nat) :
  Semaphore.remove_first i l `sublist_of` l.
Proof.
  induction l as [|x l IH]; simpl; [done|].
  destruct (decide (x = i)); [by apply sublist_cons|by apply sublist_skip].
Qed.

Lemma remove_first_set (i : nat) (l : list nat) :
  NoDup l ->
  (list_to_set (Semaphore.remove_first i l) : gset nat) = list_to_set l ∖ {[i]}.
Proof.
  induction 1 as [|x l Hx Hnd IH]; simpl; [set_solver|].
  destruct (decide (x = i)) as [->|Hne].
  - assert (i ∉ (list_to_set l : gset nat)) by (by apply not_elem_of_list_to_set).
    set_solver.
  - simpl. rewrite IH. set_solver.
Qed.

Section Batch.
Variable node : Node.Platform.
Variable proxyConfig : option string.
Variable urls : list string.
Variable downloadOptions : Validator.Options.
Variable worlds : nat -> World.

Local Abbreviation batch_inv :=
  (DownloadBatchFacts.batch_inv node proxyConfig urls downloadOptions worlds).

(** What the event loop keeps true of the batch tracker and of the
    order in which the items start, once every task was launched. *)
Record track_inv (st : BatchState) : Prop := TrackInv {
  ti_total :
    BatchProgressTracker.totalItems (batchTracker st) = Z.of_nat (length urls);
  ti_completed :
    BatchProgressTracker.completedItems (batchTracker st)
    = Z.of_nat (settled st);
  ti_active :
    dom (BatchProgressTracker.activeTrackers (batchTracker st))
    = (list_to_set (inflight st) : gset nat);
  ti_fresh :
    forall id tracker,
      BatchProgressTracker.activeTrackers (batchTracker st) !! id = Some tracker ->
      ProgressTracker.progressHistory tracker = [];
  ti_zero :
    forall c, c ∈ BatchProgressTracker.completedTrackers (batchTracker st) ->
              BatchProgressTracker.summary c = ProgressTracker.zeroSummary;
  ti_recorded :
    length (BatchProgressTracker.completedTrackers (batchTracker st)) = settled st;
  ti_order :
    started st ++ ready st ++ Semaphore.queue (semaphore st)
    = seq 0 (length urls);
  ti_sub : inflight st `sublist_of` started st;
}.

Lemma track_inv_NoDup st :
  track_inv st ->
  NoDup (started st) /\ NoDup (inflight st)
  /\ forall idx, idx ∈ ready st -> idx ∉ inflight st.
Proof.
  intros Hti. pose proof (NoDup_seq 0 (length urls)) as Hnd.
  rewrite <- (ti_order _ Hti) in Hnd.
  apply NoDup_app in Hnd as (Hs & Hdisj & _).
  split; [done|]. split; [exact (sublist_NoDup _ _ Hs (ti_sub _ Hti))|].
  intros idx Hr Hi.
  apply (Hdisj idx); [|apply elem_of_app; by left].
  exact (elem_of_sublist _ _ _ Hi (ti_sub _ Hti)).
Qed.

Lemma begin_track m now index rest st :
  batch_inv m (length urls) st -> track_inv st -> ready st = index :: rest ->
  track_inv (begin now index (set_ready rest st))
  /\ BatchProgressTracker.activeTrackers (batchTracker st) !! index = None.
Proof.
  intros Hinv Hti Hready.
  destruct (track_inv_NoDup st Hti) as (_ & _ & Hnot).
  assert (Hidx : index ∉ inflight st).
  { apply Hnot. rewrite Hready. apply list_elem_of_here. }
  assert (Hnone : BatchProgressTracker.activeTrackers (batchTracker st) !! index = None).
  { apply not_elem_of_dom. rewrite (ti_active _ Hti).
    by apply not_elem_of_list_to_set. }
  split; [|exact Hnone].
  destruct Hti as [Htot Hcomp Hact Hfresh Hzero Hrec Hord Hsub].
  unfold begin, BatchProgressTracker.createItemTracker. simpl.
  split; simpl; try done.
  - rewrite dom_insert_L, Hact, list_to_set_app_L. simpl. set_solver.
  - intros id tracker Hl. destruct (decide (id = index)) as [->|Hne].
    + rewrite lookup_insert_eq in Hl. by injection Hl as <-.
    + rewrite lookup_insert_ne in Hl by done. eauto.
  - rewrite <- Hord, Hready. by rewrite <- !app_assoc.
  - by apply sublist_app.
Qed.

Lemma finish_track m index st :
  1 <= m ->
  batch_inv m (length urls) st -> track_inv st -> index ∈ inflight st ->
  track_inv (finish node proxyConfig urls downloadOptions worlds index st).
Proof.
  intros Hm Hinv Hti Hin.
  destruct (track_inv_NoDup st Hti) as (_ & Hndi & _).
  destruct Hti as [Htot Hcomp Hact Hfresh Hzero Hrec Hord Hsub].
  assert (Hsome : is_Some (BatchProgressTracker.activeTrackers (batchTracker st) !! index)).
  { apply elem_of_dom. rewrite Hact. by apply elem_of_list_to_set. }
  destruct Hsome as [tracker Htr].
  pose proof (Hfresh _ _ Htr) as Hempty.
  unfold finish.
  destruct (DownloadBatchFacts.downloadSingle_expected node proxyConfig urls
              downloadOptions worlds index) as [-> _].
  unfold finally_release, Semaphore.release,
    BatchProgressTracker.completeItem. simpl. rewrite Htr.
  assert (Hsum : ProgressTracker.getSummary tracker = ProgressTracker.zeroSummary).
  { unfold ProgressTracker.getSummary. by rewrite Hempty. }
  assert (Hsub' : Semaphore.remove_first index (inflight st) `sublist_of` started st).
  { etrans; [apply remove_first_sublist|done]. }
  destruct (Semaphore.queue (semaphore st)) as [|woken queue'] eqn:Hq; simpl;
    (split; simpl; try done;
     [ lia
     | rewrite dom_delete_L, Hact; symmetry; by apply remove_first_set
     | intros id tr' Hl; destruct (decide (id = index)) as [->|Hne];
       [by rewrite lookup_delete_eq in Hl
       |rewrite lookup_delete_ne in Hl by done; eauto]
     | intros c Hc; apply elem_of_app in Hc as [Hc|Hc]; [eauto|];
       apply list_elem_of_singleton in Hc; subst c; simpl; exact Hsum
     | rewrite length_app; simpl; lia
     | .. ]).
  - rewrite <- Hord. by rewrite <- !app_assoc.
Qed.

(** The launch of the tasks queues them in the order of the urls. *)
Lemma launch_all_order m k st :
  DownloadBatchFacts.batch_inv node proxyConfig urls downloadOptions worlds m 0 st ->
  inflight st = [] -> settled st = 0%nat -> started st = [] ->
  ready st = [] -> Semaphore.queue (semaphore st) = [] ->
  let st' := fold_left launch (seq 0 k) st in
  batchTracker st' = batchTracker st
  /\ results st' = results st
  /\ started st' = []
  /\ ready st' ++ Semaphore.queue (semaphore st') = seq 0 k.
Proof.
  intros Hinv Hinf Hset Hst Hr Hq. induction k as [|k IH]; cbv zeta.
  - simpl. by rewrite Hr, Hq.
  - destruct (DownloadBatchFacts.launch_all_inv node proxyConfig urls
                downloadOptions worlds m k st Hinv Hinf Hset) as (Hk & _ & _).
    rewrite seq_S, fold_left_app. simpl.
    destruct IH as (Hb & Hres & Hs & Hord).
    set (stk := fold_left launch (seq 0 k) st) in *. clearbody stk.
    unfold launch, Semaphore.acquire.
    destruct (Z.ltb_spec (Semaphore.current (semaphore stk))
                (Semaphore.max (semaphore stk))) as [Hlt|Hge]; simpl.
    + assert (Hnoq : Semaphore.queue (semaphore stk) = []).
      { destruct (Semaphore.queue (semaphore stk)) eqn:E; [done|].
        pose proof (DownloadBatchFacts.bi_full _ _ _ _ _ _ _ _ Hk) as Hfull.
        pose proof (DownloadBatchFacts.bi_max _ _ _ _ _ _ _ _ Hk) as Hmax.
        rewrite E in Hfull. specialize (Hfull ltac:(done)). lia. }
      rewrite Hnoq in *. rewrite app_nil_r in *. by rewrite Hord.
    + by rewrite app_assoc, Hord.
Qed.

(** The states of the event loop of [downloadBatch] on a gate of
    capacity [m]: the loop starts with the tracker that
    [downloadBatch] constructs. *)
Inductive tracked_state (m : Z) : BatchState -> Prop :=
| tracked_launched (now : Z) :
    tracked_state m
      (fold_left launch (seq 0 (length urls))
         (mkBatchState (Semaphore.constructor m)
            (BatchProgressTracker.constructor now (Z.of_nat (length urls)))
            [] [] [] [] 0 None))
| tracked_begin st now index rest :
    tracked_state m st -> ready st = index :: rest ->
    tracked_state m (begin now index (set_ready rest st))
| tracked_finish st index :
    tracked_state m st -> index ∈ inflight st ->
    tracked_state m (finish node proxyConfig urls downloadOptions worlds index st).

Lemma initial_inv m b :
  1 <= m ->
  DownloadBatchFacts.batch_inv node proxyConfig urls downloadOptions worlds m 0
    (mkBatchState (Semaphore.constructor m) b [] [] [] [] 0 None).
Proof.
  intros Hm. split; simpl; try done; try lia; intros i Hi; try lia.
  by apply elem_of_nil in Hi.
Qed.

Lemma launched_track m now :
  1 <= m ->
  let st :=
    fold_left launch (seq 0 (length urls))
      (mkBatchState (Semaphore.constructor m)
         (BatchProgressTracker.constructor now (Z.of_nat (length urls)))
         [] [] [] [] 0 None) in
  batch_inv m (length urls) st /\ track_inv st.
Proof.
  intros Hm st.
  pose proof (initial_inv m
                (BatchProgressTracker.constructor now (Z.of_nat (length urls)))
                Hm) as H0.
  destruct (DownloadBatchFacts.launch_all_inv node proxyConfig urls
              downloadOptions worlds m (length urls) _ H0
              eq_refl eq_refl) as (Hinv & Hinf & Hset).
  destruct (launch_all_order m (length urls) _ H0
              eq_refl eq_refl eq_refl eq_refl eq_refl) as (Hb & _ & Hs & Hord).
  fold st in Hinv, Hinf, Hset, Hb, Hs, Hord.
  split; [exact Hinv|].
  split; rewrite ?Hb, ?Hinf, ?Hset, ?Hs; simpl; try done.
  intros c Hc. by apply elem_of_nil in Hc.
Qed.

Lemma tracked_state_inv m st :
  1 <= m -> tracked_state m st -> batch_inv m (length urls) st /\ track_inv st.
Proof.
  intros Hm. induction 1 as [now|st now index rest _ [IH1 IH2] Hready
                             |st index _ [IH1 IH2] Hin].
  - by apply launched_track.
  - split.
    + by apply DownloadBatchFacts.begin_inv.
    + by apply (begin_track m).
  - split.
    + by apply DownloadBatchFacts.finish_inv.
    + by apply (finish_track m).
Qed.

(** X7. In every state of a batch (capacity at least one) the tracker
    agrees with the loop: its completed counter is the number of
    finished items, its active trackers are exactly the items in
    flight, completed plus active never exceeds the total, the next
    item to start has no active tracker (so [createItemTracker] never
    replaces one), and, the item trackers receiving no sample, every
    recorded summary is the zeroed one. *)
Theorem batch_tracker_follows_the_loop (m : Z) (st : BatchState) :
  1 <= m ->
  tracked_state m st ->
  let b := batchTracker st in
  BatchProgressTracker.getBatchCounts b
  = (Z.of_nat (settled st), Z.of_nat (length urls), length (inflight st))
  /\ (forall id, is_Some (BatchProgressTracker.activeTrackers b !! id)
                 <-> id ∈ inflight st)
  /\ BatchProgressTracker.completedItems b
     + Z.of_nat (base.size (BatchProgressTracker.activeTrackers b))
     <= BatchProgressTracker.totalItems b
  /\ (forall index rest, ready st = index :: rest ->
        BatchProgressTracker.activeTrackers b !! index = None)
  /\ length (BatchProgressTracker.completedTrackers b) = settled st
  /\ (forall c, c ∈ BatchProgressTracker.completedTrackers b ->
        BatchProgressTracker.summary c = ProgressTracker.zeroSummary).
Proof.
  intros Hm Hst. cbv zeta.
  destruct (tracked_state_inv m st Hm Hst) as [Hinv Hti].
  destruct (track_inv_NoDup st Hti) as (_ & Hnd & _).
  assert (Hsize : base.size (BatchProgressTracker.activeTrackers (batchTracker st))
                  = length (inflight st)).
  { rewrite <- size_dom, (ti_active _ Hti). by apply size_list_to_set. }
  split; [|split; [|split; [|split; [|split]]]].
  - unfold BatchProgressTracker.getBatchCounts.
    by rewrite Hsize, (ti_completed _ Hti), (ti_total _ Hti).
  - intros id. rewrite <- elem_of_dom, (ti_active _ Hti).
    apply elem_of_list_to_set.
  - rewrite Hsize, (ti_completed _ Hti), (ti_total _ Hti).
    pose proof (DownloadBatchFacts.bi_total _ _ _ _ _ _ _ _ Hinv) as Htot.
    rewrite DownloadBatchFacts.length_pending in Htot. lia.
  - intros index rest Hready.
    by destruct (begin_track m 0 index rest st Hinv Hti Hready).
  - apply (ti_recorded _ Hti).
  - apply (ti_zero _ Hti).
Qed.

Section Loop.
Variable clock : nat -> Z.
Variable sched : nat -> nat.

(** A property kept by the two steps of the loop holds in the state
    in which [drive] stops. *)
Lemma drive_rule (P : BatchState -> Prop) :
  (forall st now index rest,
     P st -> ready st = index :: rest -> P (begin now index (set_ready rest st))) ->
  (forall st index,
     P st -> index ∈ inflight st ->
     P (finish node proxyConfig urls downloadOptions worlds index st)) ->
  forall fuel step st run,
    P st ->
    drive node proxyConfig urls downloadOptions worlds clock sched fuel step st
    = Some run ->
    exists st',
      P st' /\ launched run = started st'
      /\ match outcome run with
         | JS.Fulfilled rs => rs = results st' /\ settled st' = length urls
         | JS.Rejected message => rejected st' = Some message
         | JS.Pending => ready st' = [] /\ inflight st' = []
         end.
Proof.
  intros Hbegin Hfinish.
  induction fuel as [|fuel IH]; intros step st run HP; simpl.
  - destruct (rejected st) as [message|] eqn:Hrej.
    { intros [= <-]. exists st. simpl. done. }
    destruct (decide (settled st = length urls)); [|done].
    intros [= <-]. exists st. simpl. done.
  - destruct (rejected st) as [message|] eqn:Hrej.
    { intros [= <-]. exists st. simpl. done. }
    destruct (decide (settled st = length urls)).
    { intros [= <-]. exists st. simpl. done. }
    destruct (ready st) as [|index rest] eqn:Hready.
    + destruct (inflight st) as [|first others] eqn:Hinf.
      { intros [= <-]. exists st. simpl. done. }
      apply IH. apply Hfinish; [done|].
      rewrite Hinf. apply DownloadBatchFacts.nth_mod_elem. done.
    + apply IH. by apply Hbegin.
Qed.

(** X8. Whatever the schedule of completions, the items of a batch
    enter the pipeline once each and in the order of the urls: when
    [downloadBatch] returns, the downloads were started for the
    indices 0, 1, ... in this order. *)
Theorem downloads_start_in_input_order (concurrency : option Z) run rs :
  downloadBatch node proxyConfig urls downloadOptions worlds clock sched
    concurrency = Some run ->
  outcome run = JS.Fulfilled rs ->
  launched run = seq 0 (length urls).
Proof.
  intros Hrun Hout.
  destruct (decide (1 <= default 3 concurrency)) as [Hm|Hm].
  - revert Hrun. unfold downloadBatch, Semaphore.new. cbv zeta. intros Hrun.
    pose proof (launched_track (default 3 concurrency) (clock 0) Hm) as Hstart.
    cbv zeta in Hstart.
    destruct (drive_rule
                (fun st => batch_inv (default 3 concurrency) (length urls) st
                           /\ track_inv st)
                ltac:(intros st now index rest [H1 H2] Hr; split;
                      [by apply DownloadBatchFacts.begin_inv
                      |by apply (begin_track (default 3 concurrency))])
                ltac:(intros st index [H1 H2] Hi; split;
                      [by apply DownloadBatchFacts.finish_inv
                      |by apply (finish_track (default 3 concurrency))])
                _ _ _ _ Hstart Hrun)
      as (st' & [Hinv Hti] & Hl & Hend).
    rewrite Hout in Hend. destruct Hend as [_ Hall].
    pose proof (DownloadBatchFacts.bi_total _ _ _ _ _ _ _ _ Hinv) as Htot.
    rewrite DownloadBatchFacts.length_pending in Htot.
    assert (Hr : ready st' = []) by (apply length_zero_iff_nil; lia).
    assert (Hq : Semaphore.queue (semaphore st') = [])
      by (apply length_zero_iff_nil; lia).
    pose proof (ti_order _ Hti) as Hord.
    rewrite Hr, Hq, !app_nil_r in Hord. by rewrite Hl.
  - destruct (decide (urls = [])) as [Hnil|Hsome].
    + revert Hrun. unfold downloadBatch, Semaphore.new. cbv zeta.
      rewrite Hnil. simpl. by intros [= <-].
    + rewrite (DownloadBatchFacts.downloadBatch_hangs_below_one node proxyConfig
                 urls downloadOptions worlds clock sched concurrency
                 ltac:(lia) Hsome) in Hrun.
      injection Hrun as <-. discriminate Hout.
Qed.

End Loop.

End Batch.

(** Three urls on a gate of capacity two, after the first item started:
    nothing completed, one tracker active. *)
Lemma batch_tracker_follows_the_loop_witness :
  BatchProgressTracker.getBatchCounts
    (batchTracker
       (begin 5 0
          (set_ready [1%nat]
             (fold_left launch (seq 0 3)
                (mkBatchState (Semaphore.constructor 2)
                   (BatchProgressTracker.constructor 0 3) [] [] [] [] 0 None)))))
  = (0, 3, 1%nat).
Proof.
  exact (proj1 (batch_tracker_follows_the_loop ReferencePlatform.node None
                  Scenarios.threeUrls Scenarios.plainOptions Scenarios.secondFails
                  2 _ ltac:(lia)
                  (tracked_begin ReferencePlatform.node None Scenarios.threeUrls
                     Scenarios.plainOptions Scenarios.secondFails 2 _ 5 0%nat [1%nat]
                     (tracked_launched ReferencePlatform.node None
                        Scenarios.threeUrls Scenarios.plainOptions
                        Scenarios.secondFails 2 0)
                     eq_refl))).
Defined.

Lemma downloads_start_in_input_order_witness :
  exists run,
    downloadBatch ReferencePlatform.node None Scenarios.threeUrls
      Scenarios.plainOptions Scenarios.secondFails Z.of_nat (fun _ => 1%nat)
      (Some 2) = Some run
    /\ launched run = [0; 1; 2]%nat.
Proof.
  destruct (DownloadBatchFacts.downloadBatch_fulfils ReferencePlatform.node None
              Scenarios.threeUrls Scenarios.plainOptions Scenarios.secondFails
              Z.of_nat (fun _ => 1%nat) (Some 2) ltac:(simpl; lia))
    as (run & rs & Hrun & Hout & _).
  exists run. split; [exact Hrun|].
  exact (downloads_start_in_input_order ReferencePlatform.node None
           Scenarios.threeUrls Scenarios.plainOptions Scenarios.secondFails
           Z.of_nat (fun _ => 1%nat) (Some 2) run rs Hrun Hout).
Defined.


End BatchTrackingFacts.

(** ** More on the validator *)

Module ValidatorFacts.
Import Validator.

(** The message recorded for the url [url] at [index]. *)
Definition invalidAt (index : nat) (url : string) : string :=
  "Invalid URL at index " +:+ pretty index +:+ ": " +:+ url.

Lemma validateImageUrls_from_spec (node : Node.Platform) (urls : list string) :
  forall index acc,
    let r := validateImageUrls_from node index urls acc in
    valid r = valid acc ++ List.filter (validateImageUrl node) urls
    /\ invalid r
       = invalid acc ++ List.filter (fun u => negb (validateImageUrl node u)) urls
    /\ length (urlErrors r)
       = (length (urlErrors acc)
          + length (List.filter (fun u => negb (validateImageUrl node u)) urls))%nat
    /\ (forall e, e ∈ urlErrors r <->
                  e ∈ urlErrors acc
                  \/ exists k u, urls !! k = Some u
                                 /\ validateImageUrl node u = false
                                 /\ e = invalidAt (index + k) u).
Proof.
  induction urls as [|url rest IH]; intros index acc; cbv zeta; simpl.
  - rewrite !app_nil_r. repeat split; [lia|tauto|].
    intros [?|(k & u & Hk & _)]; [done|by rewrite lookup_nil in Hk].
  - destruct (validateImageUrl node url) eqn:Hv; simpl;
      destruct (IH (S index) (if validateImageUrl node url
                              then {| valid := valid acc ++ [url]; invalid := invalid acc;
                                      urlErrors := urlErrors acc |}
                              else {| valid := valid acc; invalid := invalid acc ++ [url];
                                      urlErrors := urlErrors acc
                                                   ++ [invalidAt index url] |}))
        as (H1 & H2 & H3 & H4); rewrite Hv in H1, H2, H3, H4;
      cbv zeta in H1, H2, H3, H4; simpl in H1, H2, H3, H4;
      fold (invalidAt index url); rewrite H1, H2, H3;
      rewrite <- ?app_assoc, ?length_app; simpl;
      (split; [done|]); (split; [done|]); (split; [lia|]);
      intros e; rewrite H4.
    + split.
      * intros [?|(k & u & Hk & Hu & ->)]; [by left|].
        right. exists (S k), u. simpl. repeat split; [done..|]. f_equal. lia.
      * intros [?|(k & u & Hk & Hu & ->)]; [by left|].
        destruct k as [|k]; simpl in Hk.
        { injection Hk as <-. congruence. }
        right. exists k, u. repeat split; [done..|]. f_equal. lia.
    + rewrite elem_of_app, list_elem_of_singleton. split.
      * intros [[?| ->]|(k & u & Hk & Hu & ->)]; [by left| |].
        { right. exists 0%nat, url. simpl. repeat split; [done..|].
          f_equal. lia. }
        right. exists (S k), u. simpl. repeat split; [done..|]. f_equal. lia.
      * intros [?|(k & u & Hk & Hu & ->)]; [by left; left|].
        destruct k as [|k]; simpl in Hk.
        { injection Hk as <-. left; right. f_equal. lia. }
        right. exists k, u. repeat split; [done..|]. f_equal. lia.
Qed.

Lemma filter_partition {A} (f : A -> bool) (l : list A) :
  l ≡ₚ List.filter f l ++ List.filter (fun x => negb (f x)) l.
Proof.
  induction l as [|x l IH]; simpl; [done|].
  destruct (f x); simpl.
  - by rewrite <- IH.
  - by rewrite <- Permutation_middle, <- IH.
Qed.

(** X10. [validateImageUrls] sorts every url into exactly one of its
    two lists: the valid ones are the urls that [validateImageUrl]
    accepts and the invalid ones those it does not, both in the order of
    the input, so that together they are a rearrangement of the input;
    there is one error per invalid url, and the errors are exactly the
    messages that name an invalid url with its position in the input.
    The invalid list is the one for which the batch handler rejects a
    call. *)
Theorem validateImageUrls_partitions (node : Node.Platform) (urls : list string) :
  let r := validateImageUrls node urls in
  valid r = List.filter (validateImageUrl node) urls
  /\ invalid r = List.filter (fun u => negb (validateImageUrl node u)) urls
  /\ urls ≡ₚ valid r ++ invalid r
  /\ length (urlErrors r) = length (invalid r)
  /\ (forall e, e ∈ urlErrors r <->
                exists k u, urls !! k = Some u
                            /\ validateImageUrl node u = false
                            /\ e = invalidAt k u)
  /\ (forall args,
        ImageDownloaderServer.urls args = urls ->
        ImageDownloaderServer.invalidUrls node args = invalid r).
Proof.
  cbv zeta. unfold validateImageUrls.
  destruct (validateImageUrls_from_spec node urls 0
              {| valid := []; invalid := []; urlErrors := [] |})
    as (H1 & H2 & H3 & H4).
  cbv zeta in *. simpl in *.
  split; [exact H1|]. split; [exact H2|]. split; [|split; [|split]].
  - rewrite H1, H2. apply filter_partition.
  - by rewrite H3, H2.
  - intros e. rewrite H4. split; [intros [H|H]; [by apply elem_of_nil in H|done]|auto].
  - intros args <-. by rewrite H2.
Qed.

(** *** File names out of urls *)

Fixpoint hasChar (c : ascii) (s : string) : bool :=
  match s with
  | EmptyString => false
  | String d s' => Ascii.eqb c d || hasChar c s'
  end.

Lemma includes_char (c : ascii) (s : string) :
  JS.includes (String c "") s = hasChar c s.
Proof.
  induction s as [|d s IH]; simpl; [done|].
  rewrite IH. destruct (Ascii.ascii_dec c d) as [->|Hne].
  - rewrite Ascii.eqb_refl. by destruct s.
  - apply Ascii.eqb_neq in Hne. by rewrite Hne.
Qed.

Lemma hasChar_append (c : ascii) (a b : string) :
  hasChar c (a +:+ b) = hasChar c a || hasChar c b.
Proof.
  induction a as [|d a IH]; [done|].
  rewrite StringFacts.append_cons. simpl. rewrite IH. by rewrite orb_assoc.
Qed.

Lemma lastSegment_spec (s : string) : forall acc,
  hasChar "/" acc = false ->
  hasChar "/" (lastSegment acc s) = false
  /\ exists before, acc +:+ s = before +:+ lastSegment acc s.
Proof.
  induction s as [|c s IH]; intros acc Hacc; simpl.
  - split; [done|]. exists "". by rewrite StringFacts.append_nil_r.
  - destruct (Ascii.eqb_spec c "/") as [->|Hne].
    + destruct (IH "" eq_refl) as (Hno & before & Hb). split; [done|].
      exists (acc +:+ "/" +:+ before). simpl in Hb.
      by rewrite !StringFacts.append_assoc, <- Hb.
    + assert (Hacc' : hasChar "/" (acc +:+ String c "") = false).
      { rewrite hasChar_append, Hacc. unfold hasChar.
        apply not_eq_sym in Hne. apply Ascii.eqb_neq in Hne. by rewrite Hne. }
      destruct (IH _ Hacc') as (Hno & before & Hb). split; [done|].
      exists before. by rewrite <- Hb, StringFacts.append_assoc.
Qed.

(** X11. [extractFilenameFromUrl] always gives a usable file name: it
    is never empty and contains no slash; it is "image" when the url
    does not parse, and otherwise either "image" or a name with a dot
    that ends the path of the url. *)
Theorem extractFilenameFromUrl_is_a_name (node : Node.Platform) (url : string) :
  let name := extractFilenameFromUrl node url in
  name <> ""
  /\ JS.includes "/" name = false
  /\ (name = "image" \/ JS.includes "." name = true)
  /\ (Node.URL_parse node url = None -> name = "image")
  /\ (forall urlObj,
        Node.URL_parse node url = Some urlObj ->
        name = "image" \/ exists before, Node.pathname urlObj = before +:+ name).
Proof.
  cbv zeta. unfold extractFilenameFromUrl.
  assert (Himage : "image" <> ""
                   /\ JS.includes "/" "image" = false
                   /\ ("image" = "image" \/ JS.includes "." "image" = true)).
  { split; [done|]. split; [done|by left]. }
  destruct (Node.URL_parse node url) as [urlObj|].
  2:{ destruct Himage as (H1 & H2 & H3).
      split; [done|]. split; [done|]. split; [done|]. split; [done|].
      intros o [=]. }
  destruct (lastSegment_spec (Node.pathname urlObj) "" eq_refl)
    as (Hno & before & Hb). simpl in Hb.
  destruct (String.eqb_spec (lastSegment "" (Node.pathname urlObj)) "") as [He|Hne];
    simpl.
  { destruct Himage as (H1 & H2 & H3).
    split; [done|]. split; [done|]. split; [done|]. split; [done|].
    intros o _. by left. }
  destruct (JS.includes "." (lastSegment "" (Node.pathname urlObj))) eqn:Hdot.
  - split; [done|]. split; [by rewrite includes_char|]. split; [by right|].
    split; [done|]. intros o [= <-]. right. eauto.
  - destruct Himage as (H1 & H2 & H3).
    split; [done|]. split; [done|]. split; [done|]. split; [done|].
    intros o _. by left.
Qed.

(** *** The options *)

(** On typed options the validator accepts exactly when the format,
    if any, is a valid one, the dimensions are not negative and the
    concurrency is 0 or between 1 and 10. *)
Lemma typed_options_accepted (options : Options) :
  isValid (validateDownloadOptions options) = true <->
  (forall f, format options = Some f -> f <> "" ->
             JS.array_includes (JS.toLowerCase f) validFormats = true)
  /\ (forall w, maxWidth options = Some w -> 0 <= w)
  /\ (forall h, maxHeight options = Some h -> 0 <= h)
  /\ (forall c, concurrency options = Some c -> c = 0 \/ 1 <= c <= 10).
Proof.
  unfold validateDownloadOptions. cbv zeta. cbn [isValid].
  rewrite Nat.eqb_eq, length_zero_iff_nil, !app_nil.
  assert (Hnum : forall (v : option Z) (bad : Z -> bool) (msg : string),
            (if JS.truthy_number v && bad (default 0 v) then [msg] else []) = []
            <-> forall z, v = Some z -> z = 0 \/ bad z = false).
  { intros v bad msg. destruct v as [z|]; unfold JS.truthy_number; simpl.
    - destruct (Z.eqb_spec z 0) as [->|Hz]; cbn [negb andb].
      + split; [intros _ z' [= <-]; by left|done].
      + destruct (bad z) eqn:Hb.
        * split; [done|]. intros H. destruct (H z eq_refl); [done|congruence].
        * split; [intros _ z' [= <-]; by right|done].
    - split; [intros _ z [=]|done]. }
  assert (Hfmt :
    match format options with
    | Some f =>
        if negb (String.eqb f "")
           && negb (JS.array_includes (JS.toLowerCase f) validFormats)
        then ["format must be one of: " +:+ JS.join ", " validFormats]
        else []
    | None => []
    end = []
    <-> forall f, format options = Some f -> f <> "" ->
                  JS.array_includes (JS.toLowerCase f) validFormats = true).
  { destruct (format options) as [f|]; [|split; [intros _ f [=]|done]].
    destruct (String.eqb_spec f "") as [->|Hne]; cbn [negb andb].
    - split; [intros _ f [= <-] Hf; done|done].
    - destruct (JS.array_includes (JS.toLowerCase f) validFormats) eqn:Hi;
        cbn [negb].
      + split; [intros _ f' [= <-] _; done|done].
      + split; [done|]. intros H. specialize (H f eq_refl Hne). congruence. }
  assert (Hconc :
    (if JS.truthy_number (concurrency options)
     then
       if (default 0 (concurrency options) <? 1)
          || (10 <? default 0 (concurrency options))
       then ["concurrency must be an integer between 1 and 10"] else []
     else []) = []
    <-> forall c, concurrency options = Some c -> c = 0 \/ 1 <= c <= 10).
  { destruct (concurrency options) as [c|]; unfold JS.truthy_number; simpl.
    - destruct (Z.eqb_spec c 0) as [->|Hz]; cbn [negb].
      + split; [intros _ c' [= <-]; by left|done].
      + destruct (Z.ltb_spec c 1); cbn [orb].
        * split; [done|]. intros Hall. destruct (Hall c eq_refl); lia.
        * destruct (Z.ltb_spec 10 c).
          -- split; [done|]. intros Hall. destruct (Hall c eq_refl); lia.
          -- split; [intros _ c' [= <-]; lia|done].
    - split; [intros _ c [=]|done]. }
  rewrite Hfmt, Hconc.
  rewrite (Hnum (maxWidth options) (fun z => z <=? 0)).
  rewrite (Hnum (maxHeight options) (fun z => z <=? 0)).
  assert (Hle : forall z, (z = 0 \/ (z <=? 0) = false) <-> 0 <= z).
  { intros z. destruct (Z.leb_spec z 0) as [Hz|Hz]; split.
    - intros [->|?]; [lia|done].
    - intros ?. left. lia.
    - intros _. lia.
    - intros _. by right. }
  split.
  - intros (H1 & H2 & H3 & H4). repeat split; try done.
    + intros w Hw. apply Hle. eauto.
    + intros h Hh. apply Hle. eauto.
  - intros (H1 & H2 & H3 & H4). repeat split; try done.
    + intros w Hw. apply Hle. eauto.
    + intros h Hh. apply Hle. eauto.
Qed.

(** *** The options, whatever they hold *)
















End ValidatorFacts.

(** ** Formats and encoders *)

Module FormatFacts.
Import ImageProcessor.
Import ImageProcessorFacts.

(** [applyFormat] only appends: what it configures on a processor is
    what it configures on a fresh one, after the steps already there. *)
Lemma applyFormat_appends fx processor format compress quality :
  applyFormat fx processor format compress quality
  = (encoders ← applyFormat fx [] format compress quality;
     JS.Normal (processor ++ encoders)).
Proof.
  unfold applyFormat, configure. cbv zeta.
  repeat match goal with
         | |- context [if ?b then _ else _] => destruct b; cbn; try reflexivity
         end.
Qed.

Lemma isFormatSupported_iff format :
  isFormatSupported format = true
  <-> JS.toLowerCase format ∈ ["jpeg"; "png"; "webp"; "gif"; "tiff"].
Proof.
  unfold isFormatSupported, supportedFormats, JS.array_includes.
  rewrite existsb_exists. split.
  - intros (x & Hin & ->%String.eqb_eq). by apply list_elem_of_In.
  - intros Hin. exists (JS.toLowerCase format).
    split; [by apply list_elem_of_In|apply String.eqb_refl].
Qed.

Ltac other_format :=
  match goal with
  | H1 : JS.toLowerCase ?f = _, H2 : JS.toLowerCase ?f = _ |- _ =>
      rewrite H1 in H2; discriminate
  | H1 : JS.toLowerCase ?f = _, H2 : JS.toLowerCase ?f <> _ |- _ =>
      by destruct H2
  | H : _ \/ _ |- _ => destruct H; other_format
  end.

(** X13. [applyFormat] has an encoder for the five formats that
    [isFormatSupported] accepts, in any letter case, and for "jpg",
    which [isFormatSupported] refuses; any other format throws
    "Unsupported format: " followed by the format as it was given. The
    encoder is appended to the steps configured before: jpeg and webp
    at the given quality when compressing and at 95 otherwise, png at
    level 9 or 6, gif, and tiff with lzw or without compression. Sharp
    refuses a jpeg or webp quality outside 1..100, so compressing with
    such a quality throws the error of sharp instead. *)
Theorem applyFormat_and_isFormatSupported
    (fx : Effects) (processor : Sharp) (format : string) (compress : bool)
    (quality : Z) :
  let f := JS.toLowerCase format in
  let q := if compress then quality else 95 in
  let result := applyFormat fx processor format compress quality in
  (isFormatSupported format = true
   <-> f = "jpeg" \/ f = "png" \/ f = "webp" \/ f = "gif" \/ f = "tiff")
  /\ (f = "jpeg" \/ f = "jpg" ->
      (1 <= q <= 100 -> result = JS.Normal (processor ++ [jpeg q true]))
      /\ (~ 1 <= q <= 100 -> result = JS.Throw (sharp_refusal fx (jpeg q true))))
  /\ (f = "png" ->
      result = JS.Normal (processor ++ [png (if compress then 9 else 6) true]))
  /\ (f = "webp" ->
      (1 <= q <= 100 ->
       result = JS.Normal (processor ++ [webp q (if compress then 6 else 4)]))
      /\ (~ 1 <= q <= 100 ->
          result = JS.Throw (sharp_refusal fx (webp q (if compress then 6 else 4)))))
  /\ (f = "gif" -> result = JS.Normal (processor ++ [gif]))
  /\ (f = "tiff" ->
      result = JS.Normal (processor ++ [tiff (if compress then "lzw" else "none")]))
  /\ (isFormatSupported format = false -> f <> "jpg" ->
      result = JS.Throw ("Unsupported format: " +:+ format)).
Proof.
  cbv zeta. split.
  { rewrite isFormatSupported_iff.
    rewrite !elem_of_cons, elem_of_nil. tauto. }
  assert (Hsupp : isFormatSupported format = false ->
                  JS.toLowerCase format <> "jpeg"
                  /\ JS.toLowerCase format <> "png"
                  /\ JS.toLowerCase format <> "webp"
                  /\ JS.toLowerCase format <> "gif"
                  /\ JS.toLowerCase format <> "tiff").
  { intros Hno. repeat split; intros Heq;
      (assert (Hyes : isFormatSupported format = true);
       [apply isFormatSupported_iff; rewrite Heq;
        repeat first [apply list_elem_of_here | apply list_elem_of_further]
       |congruence]). }
  assert (Hquality : forall q, (1 <=? q) && (q <=? 100) = true <-> 1 <= q <= 100)
    by exact quality_accepted.
  unfold applyFormat, configure. cbv zeta.
  assert (Hlevel : (0 <=? (if compress then 9 else 6))
                   && ((if compress then 9 else 6) <=? 9) = true)
    by (by destruct compress).
  assert (Heff : (0 <=? (if compress then 6 else 4))
                 && ((if compress then 6 else 4) <=? 6) = true)
    by (by destruct compress).
  assert (Hcomp : JS.array_includes (if compress then "lzw" else "none")
                    ["none"; "jpeg"; "deflate"; "packbits"; "ccittfax4"; "lzw";
                     "webp"; "zstd"; "jp2k"] = true)
    by (by destruct compress).
  destruct (String.eqb_spec (JS.toLowerCase format) "jpeg") as [Hjpeg|Hjpeg];
    [|destruct (String.eqb_spec (JS.toLowerCase format) "jpg") as [Hjpg|Hjpg];
      [|destruct (String.eqb_spec (JS.toLowerCase format) "png") as [Hpng|Hpng];
        [|destruct (String.eqb_spec (JS.toLowerCase format) "webp") as [Hwebp|Hwebp];
          [|destruct (String.eqb_spec (JS.toLowerCase format) "gif") as [Hgif|Hgif];
            [|destruct (String.eqb_spec (JS.toLowerCase format) "tiff")
                as [Htiff|Htiff]]]]]];
    cbn [orb accepts];
    rewrite <- ?andb_assoc, ?Hlevel, ?Heff, ?Hcomp, ?andb_true_r;
    repeat (split || intro);
    first
      [ other_format
      | done
      | by rewrite (proj2 (Hquality _))
      | match goal with
        | |- context [(1 <=? ?x) && (?x <=? 100)] =>
            destruct ((1 <=? x) && (x <=? 100)) eqn:Hacc;
            [by apply Hquality in Hacc|done]
        end
      | match goal with
        | H : isFormatSupported _ = false |- _ =>
            destruct (Hsupp H) as (? & ? & ? & ? & ?); other_format
        end ].
Qed.

(** A valid format at an accepted quality gets one encoder. *)
Lemma applyFormat_listed fx format (compress : bool) (quality : Z) :
  JS.array_includes (JS.toLowerCase format) Validator.validFormats = true ->
  1 <= (if compress then quality else 95) <= 100 ->
  exists encoder, applyFormat fx [] format compress quality = JS.Normal [encoder].
Proof.
  intros Hlisted Hq%quality_accepted.
  unfold Validator.validFormats, JS.array_includes in Hlisted. cbn [existsb] in Hlisted.
  unfold applyFormat, configure. cbv zeta.
  destruct (String.eqb (JS.toLowerCase format) "jpeg");
    [cbn [orb accepts]; rewrite Hq; eauto|].
  destruct (String.eqb (JS.toLowerCase format) "png").
  { destruct (String.eqb (JS.toLowerCase format) "jpg");
      cbn [orb accepts]; [rewrite Hq; eauto|]. destruct compress; cbn; eauto. }
  destruct (String.eqb (JS.toLowerCase format) "webp").
  { destruct (String.eqb (JS.toLowerCase format) "jpg");
      cbn [orb accepts]; [rewrite Hq; eauto|]. rewrite Hq.
      destruct compress; cbn; eauto. }
  destruct (String.eqb (JS.toLowerCase format) "gif").
  { destruct (String.eqb (JS.toLowerCase format) "jpg");
      cbn [orb accepts]; [rewrite Hq; eauto|]. eauto. }
  destruct (String.eqb (JS.toLowerCase format) "tiff"); [|done].
  destruct (String.eqb (JS.toLowerCase format) "jpg");
    cbn [orb accepts]; [rewrite Hq; eauto|]. destruct compress; cbn; eauto.
Qed.

(** X14. Options that the typed [validateDownloadOptions] accepts
    never meet "Unsupported format" on the stream path, but sharp can
    still refuse them: the validator lets a dimension of 0 through,
    and [createTransformer] throws the error of sharp exactly when one
    dimension is 0 while the other is positive. Otherwise it returns
    the resize step, if there is one, followed by the encoder that
    [applyFormat] has for the format at quality 80, or by the jpeg
    encoder at quality 80 when compression is asked without a format,
    or by nothing. *)
Theorem validated_options_are_encodable (fx : Effects) (options : Validator.Options) :
  Validator.isValid (Validator.validateDownloadOptions options) = true ->
  let width := Validator.maxWidth options in
  let height := Validator.maxHeight options in
  let stage := createTransformer fx (DownloadSingleFacts.processOptions options) in
  (resizable width height = false
   <-> (width = Some 0 /\ exists v, height = Some v /\ 0 < v)
       \/ (height = Some 0 /\ exists v, width = Some v /\ 0 < v))
  /\ (resizable width height = false ->
      stage = JS.Throw (sharp_refusal fx (resize width height)))
  /\ (resizable width height = true ->
      exists encoders,
        stage = JS.Normal (resizeStep width height ++ encoders)
        /\ (JS.truthy_string (Validator.format options) = true ->
            applyFormat fx [] (default "" (Validator.format options))
              (Validator.compress options) 80 = JS.Normal encoders
            /\ length encoders = 1%nat)
        /\ (JS.truthy_string (Validator.format options) = false ->
            encoders = if Validator.compress options then [jpeg 80 true] else [])).
Proof.
  intros Hvalid width height stage.
  pose proof (ValidatorFacts.typed_options_accepted options) as Hacc.
  apply Hacc in Hvalid as (Hformat & Hwidth & Hheight & _). clear Hacc.
  fold width in Hwidth. fold height in Hheight.
  assert (Hstage : stage
                   = (transformer ← applyResize fx [] width height;
                      if JS.truthy_string (Validator.format options) then
                        applyFormat fx transformer (default "" (Validator.format options))
                          (Validator.compress options) 80
                      else if Validator.compress options then
                        applyFormat fx transformer "jpeg" true 80
                      else JS.Normal transformer)).
  { unfold stage, createTransformer, DownloadSingleFacts.processOptions. cbv zeta.
    cbn [format compress maxWidth maxHeight quality default from_option id].
    by destruct (Validator.compress options). }
  split; [|split].
  - unfold resizable, positive_if_given, JS.truthy_number.
    destruct width as [w|], height as [h|];
      try specialize (Hwidth w eq_refl); try specialize (Hheight h eq_refl).
    + destruct (Z.eqb_spec w 0) as [->|Hw], (Z.eqb_spec h 0) as [->|Hh];
        cbn [negb orb andb].
      * split; [done|]. intros [(_ & v & [= <-] & ?)|(_ & v & [= <-] & ?)]; lia.
      * destruct (Z.ltb_spec 0 h); [|lia]. cbn. split; [|done].
        intros _. left. split; [done|]. exists h. split; [done|lia].
      * destruct (Z.ltb_spec 0 w); [|lia]. cbn. split; [|done].
        intros _. right. split; [done|]. exists w. split; [done|lia].
      * destruct (Z.ltb_spec 0 w); [|lia]. destruct (Z.ltb_spec 0 h); [|lia]. cbn.
        split; [done|]. intros [([= ->] & _)|([= ->] & _)]; lia.
    + destruct (Z.eqb_spec w 0) as [->|Hw]; cbn [negb orb andb].
      * split; [done|]. by intros [(_ & v & [=] & _)|([=] & _)].
      * destruct (Z.ltb_spec 0 w); [|lia]. cbn.
        split; [done|]. by intros [(_ & v & [=] & _)|([=] & _)].
    + destruct (Z.eqb_spec h 0) as [->|Hh]; cbn [negb orb andb].
      * split; [done|]. by intros [([=] & _)|(_ & v & [=] & _)].
      * destruct (Z.ltb_spec 0 h); [|lia]. cbn.
        split; [done|]. by intros [([=] & _)|(_ & v & [=] & _)].
    + cbn. split; [done|]. by intros [([=] & _)|([=] & _)].
  - intros Hrefused. by rewrite Hstage, (applyResize_refused fx _ _ Hrefused).
  - intros Htaken. rewrite Hstage, (applyResize_accepted fx _ _ Htaken).
    cbn [mbind completion_bind JS.bind].
    destruct (JS.truthy_string (Validator.format options)) eqn:Htruthy.
    + destruct (Validator.format options) as [f|] eqn:Hf; [|done].
      cbn [default from_option id].
      assert (Hne : f <> "").
      { intros ->. done. }
      destruct (applyFormat_listed fx f (Validator.compress options) 80
                  (Hformat f eq_refl Hne)
                  ltac:(destruct (Validator.compress options); lia))
        as (encoder & Hencoder).
      exists [encoder]. rewrite applyFormat_appends, Hencoder.
      split; [done|]. split; [done|done].
    + destruct (Validator.compress options).
      * exists [jpeg 80 true]. split; [done|]. split; [done|done].
      * exists []. rewrite app_nil_r. split; [done|]. split; [done|done].
Qed.

(** A height of 0 beside a width of 800: accepted by the validator,
    refused by sharp. *)
Lemma validated_options_are_encodable_witness :
  Validator.isValid
    (Validator.validateDownloadOptions
       (Validator.mkOptions None None None false (Some 800) (Some 0) None)) = true
  /\ createTransformer Scenarios.calmEffects
       (DownloadSingleFacts.processOptions
          (Validator.mkOptions None None None false (Some 800) (Some 0) None))
     = JS.Throw (sharp_refusal Scenarios.calmEffects (resize (Some 800) (Some 0))).
Proof.
  split; [reflexivity|].
  destruct (validated_options_are_encodable Scenarios.calmEffects
              (Validator.mkOptions None None None false (Some 800) (Some 0) None)
              eq_refl) as (_ & Hrefused & _).
  exact (Hrefused eq_refl).
Defined.

(** X15. Compression without a format on the file path keeps the
    format of the file. When sharp takes the resize step,
    [processFile] reads the format from the metadata, configures the
    encoder that [applyFormat] has for it at the compression quality
    after the resize step, creates the directory of the output path
    and saves the input through that pipeline to the output path as
    given, which it returns. It fails with "Image processing failed: "
    and the message of the step that failed: reading the metadata, a
    format that [applyFormat] has no case for, creating the directory
    or saving. When sharp refuses the resize step it fails with the
    message of sharp. *)
Theorem processFile_compression_keeps_the_format
    (node : Node.Platform) (fx : Effects) (inputPath outputPath : string)
    (options : ProcessOptions) :
  JS.truthy_string (format options) = false ->
  compress options = Some true ->
  let quality := default 80 (quality options) in
  let resized := resizeStep (maxWidth options) (maxHeight options) in
  let result := processFile node fx inputPath outputPath options in
  (resizable (maxWidth options) (maxHeight options) = false ->
   result = JS.Throw ("Image processing failed: "
                      +:+ sharp_refusal fx (resize (maxWidth options) (maxHeight options))))
  /\ (resizable (maxWidth options) (maxHeight options) = true ->
      match metadata_format fx inputPath with
      | JS.Throw message => result = JS.Throw ("Image processing failed: " +:+ message)
      | JS.Normal originalFormat =>
          match applyFormat fx [] originalFormat true quality with
          | JS.Throw message =>
              result = JS.Throw ("Image processing failed: " +:+ message)
          | JS.Normal encoders =>
              match fs_mkdir fx (Node.path_dirname node outputPath) with
              | JS.Throw message =>
                  result = JS.Throw ("Image processing failed: " +:+ message)
              | JS.Normal _ =>
                  match toFile fx inputPath (resized ++ encoders) outputPath with
                  | JS.Throw message =>
                      result = JS.Throw ("Image processing failed: " +:+ message)
                  | JS.Normal _ => result = JS.Normal outputPath
                  end
              end
          end
      end).
Proof.
  intros Hformat Hcompress quality resized result.
  assert (Hpath : getFinalOutputPath node outputPath (format options) = outputPath).
  { unfold getFinalOutputPath. by rewrite Hformat. }
  assert (Hfile : fileProcessor fx inputPath options
                  = (processor ← applyResize fx [] (maxWidth options) (maxHeight options);
                     originalFormat ← metadata_format fx inputPath;
                     applyFormat fx processor originalFormat true quality)).
  { unfold fileProcessor. cbv zeta. rewrite Hformat, Hcompress. reflexivity. }
  unfold result, processFile. rewrite Hfile, Hpath. split.
  - intros Hrefused. by rewrite (applyResize_refused fx _ _ Hrefused).
  - intros Htaken. rewrite (applyResize_accepted fx _ _ Htaken).
    cbn [mbind completion_bind JS.bind].
    destruct (metadata_format fx inputPath) as [originalFormat|message];
      [|reflexivity].
    cbn [mbind completion_bind JS.bind].
    rewrite (applyFormat_appends fx (resizeStep _ _)). fold resized.
    destruct (applyFormat fx [] originalFormat true quality) as [encoders|message];
      [|reflexivity].
    cbn [mbind completion_bind JS.bind].
    destruct (fs_mkdir fx (Node.path_dirname node outputPath)) as [[]|message];
      [|reflexivity].
    cbn [mbind completion_bind JS.bind].
    destruct (toFile fx inputPath (resized ++ encoders) outputPath) as [[]|message];
      reflexivity.
Qed.

(** A png file, compressed and bounded in width. *)
Lemma processFile_compression_keeps_the_format_witness :
  applyFormat Scenarios.calmEffects [] "png" true 80 = JS.Normal [png 9 true]
  /\ processFile ReferencePlatform.node Scenarios.calmEffects "in/a.png" "out/a.png"
       (DownloadSingleFacts.processOptions Scenarios.compressOnly)
     = JS.Normal "out/a.png".
Proof.
  split; [reflexivity|].
  destruct (processFile_compression_keeps_the_format ReferencePlatform.node
              Scenarios.calmEffects "in/a.png" "out/a.png"
              (DownloadSingleFacts.processOptions Scenarios.compressOnly)
              eq_refl eq_refl) as [_ Hkeeps].
  exact (Hkeeps eq_refl).
Defined.

End FormatFacts.

(** ** The tool handlers and their dispatcher *)

Module HandlerFacts.
Import ImageDownloaderServer.

(** Successes and failures partition the filled slots of a result
    array. *)
Lemma count_where_split (pred : ImageDownloader.DownloadResult -> bool)
    (arr : list (option ImageDownloader.DownloadResult)) :
  (count_where pred arr + count_where (fun r => negb (pred r)) arr
   = length (List.filter (fun slot : option ImageDownloader.DownloadResult =>
                            match slot with Some _ => true | None => false end) arr))%nat.
Proof.
  unfold count_where. induction arr as [|[r|] arr IH]; simpl; [done| |done].
  destruct (pred r); simpl; lia.
Qed.

Lemma filled_filter {A} (arr : list (option A)) :
  (forall i, (i < length arr)%nat -> exists r, arr !! i = Some (Some r)) ->
  List.filter (fun slot : option A => match slot with Some _ => true | None => false end) arr
  = arr.
Proof.
  induction arr as [|slot arr IH]; intros Hfull; [done|].
  destruct (Hfull 0%nat ltac:(simpl; lia)) as [r [= ->]]. simpl. f_equal.
  apply IH. intros i Hi. apply (Hfull (S i)). simpl. lia.
Qed.

Section Batch.
Variable node : Node.Platform.
Variable defaultConfig : Config.
Variable worlds : nat -> ImageDownloader.World.
Variable clock : nat -> Z.
Variable sched : nat -> nat.

(** X16. A batch call whose urls are all accepted and whose
    concurrency, given or configured, is at least one is answered:
    the reply holds one result per url, at the index of its url and
    equal to what [downloadSingle] returns for it, [total] is the
    number of urls and every result is counted once, as successful or
    as failed. *)
Theorem batch_reply_counts_every_url (args : BatchArgs) :
  invalidUrls node args = [] ->
  1 <= default (concurrency defaultConfig) (arg_concurrency args) ->
  exists run reply,
    handleDownloadImagesBatch node defaultConfig worlds clock sched args = Some run
    /\ response run = JS.Fulfilled reply
    /\ total reply = length (urls args)
    /\ length (results reply) = length (urls args)
    /\ (successful reply + failed reply = total reply)%nat
    /\ forall i u, urls args !! i = Some u ->
         exists r, results reply !! i = Some (Some r)
                   /\ ImageDownloader.downloadSingle node (effectiveProxy defaultConfig args)
                        (worlds i) u (batchOptions defaultConfig args)
                      = JS.Normal r.
Proof.
  intros Hvalid Hconc. unfold handleDownloadImagesBatch. rewrite Hvalid.
  cbn [length Nat.ltb Nat.leb]. cbv zeta.
  destruct (DownloadBatchFacts.downloadBatch_fulfils node
              (effectiveProxy defaultConfig args) (urls args)
              (batchOptions defaultConfig args) worlds clock sched
              (Validator.concurrency (batchOptions defaultConfig args)) Hconc)
    as (run & rs & -> & Hout & Hlen & Hslots).
  eexists _, _. split; [reflexivity|]. cbn [response]. rewrite Hout.
  split; [reflexivity|]. cbn [total results successful failed].
  split; [done|]. split; [done|]. split.
  - rewrite count_where_split, filled_filter; [done|].
    intros i Hi. rewrite Hlen in Hi.
    destruct (lookup_lt_is_Some_2 (urls args) i Hi) as [u Hu].
    destruct (Hslots i u Hu) as (r & Hr & _). eauto.
  - intros i u Hu. destruct (Hslots i u Hu) as (r & Hr & _ & Hsingle). eauto.
Qed.

End Batch.

(** Three urls with the second download failing: two successes and one
    failure. *)
Lemma batch_reply_counts_every_url_witness :
  exists run reply,
    handleDownloadImagesBatch ReferencePlatform.node Scenarios.exampleConfig
      Scenarios.secondFails Z.of_nat (fun _ => 1%nat)
      (Scenarios.argsFor Scenarios.threeUrls (Some 2)) = Some run
    /\ response run = JS.Fulfilled reply
    /\ total reply = 3%nat
    /\ (successful reply + failed reply = total reply)%nat.
Proof.
  destruct (batch_reply_counts_every_url ReferencePlatform.node Scenarios.exampleConfig
              Scenarios.secondFails Z.of_nat (fun _ => 1%nat)
              (Scenarios.argsFor Scenarios.threeUrls (Some 2))
              eq_refl ltac:(simpl; lia))
    as (run & reply & Hrun & Hresp & Htotal & _ & Hsum & _).
  exists run, reply. split; [exact Hrun|]. split; [exact Hresp|].
  split; [exact Htotal|exact Hsum].
Defined.

Section Single.
Variable node : Node.Platform.
Variable defaultConfig : Config.
Variable defaultFilename : option string.
Variable world : ImageDownloader.World.

(** X17. [handleDownloadImage] throws only for a url that
    [validateImageUrl] refuses, with "Invalid image URL: " and the
    url. For an accepted url it always replies, and the reply says
    [success: true] whatever happened to the download: a download
    that failed is reported inside, by a result whose [success] is
    false and which carries the error. *)
Theorem single_reply_reports_success_around_failure (args : ImageArgs) :
  (Validator.validateImageUrl node (image_url args) = false ->
   handleDownloadImage node defaultConfig defaultFilename world args
   = JS.Rejected ("Invalid image URL: " +:+ image_url args))
  /\ (Validator.validateImageUrl node (image_url args) = true ->
      exists result,
        handleDownloadImage node defaultConfig defaultFilename world args
        = JS.Fulfilled {| image_success := true;
                          image_message := "Image downloaded successfully";
                          image_result := result |}
        /\ ImageDownloader.url result = image_url args
        /\ match ImageDownloader.downloadSingle_try node (imageProxy defaultConfig args)
                   world (image_url args) (imageOptions defaultConfig defaultFilename args)
           with
           | JS.Normal done => result = done /\ ImageDownloader.success result = true
           | JS.Throw message =>
               ImageDownloader.success result = false
               /\ ImageDownloader.error result = Some message
               /\ ImageDownloader.filePath result = None
           end).
Proof.
  unfold handleDownloadImage. split; intros ->; cbn [negb]; [done|].
  destruct (DownloadSingleFacts.downloadSingle_returns node (imageProxy defaultConfig args)
              world (image_url args) (imageOptions defaultConfig defaultFilename args))
    as (r & -> & Hurl & _ & Htry).
  exists r. split; [done|]. split; [done|].
  destruct (ImageDownloader.downloadSingle_try _ _ _ _ _); [done|].
  by subst r.
Qed.

End Single.

Section Dispatch.
Variable node : Node.Platform.
Variable defaultConfig : Config.
Variable defaultFilename : option string.
Variable world : ImageDownloader.World.
Variable worlds : nat -> ImageDownloader.World.
Variable clock : nat -> Z.
Variable sched : nat -> nat.
Variable McpError_message : ErrorCode -> string -> string.

Local Abbreviation call_tool :=
  (callTool node defaultConfig defaultFilename world worlds clock sched
     McpError_message).

(** X18. The tool dispatcher passes the reply of a handler on, and
    throws again whatever a handler throws: as an [McpError] with the
    code [InternalError], made from "Tool execution failed: " followed
    by the message of what was caught. No other error leaves it. The
    [MethodNotFound] error thrown for an unknown tool name is caught
    by the dispatcher's own handler as well, so that an unknown tool
    is reported as an internal error whose text contains the message
    of the [MethodNotFound] error. *)
Theorem dispatcher_errors_are_internal :
  (forall call code message,
     call_tool call = Some (Failed code message) ->
     code = InternalError
     /\ exists caught,
          callTool_try node defaultConfig defaultFilename world worlds clock sched
            McpError_message call = Some (JS.Rejected caught)
          /\ message = McpError_message InternalError
                         ("Tool execution failed: " +:+ caught))
  /\ (forall call caught,
        callTool_try node defaultConfig defaultFilename world worlds clock sched
          McpError_message call = Some (JS.Rejected caught) ->
        call_tool call
        = Some (Failed InternalError
                  (McpError_message InternalError
                     ("Tool execution failed: " +:+ caught))))
  /\ (forall call reply,
        callTool_try node defaultConfig defaultFilename world worlds clock sched
          McpError_message call = Some (JS.Fulfilled reply) ->
        call_tool call = Some (Replied reply))
  /\ (forall name,
        call_tool (CallOther name)
        = Some (Failed InternalError
                  (McpError_message InternalError
                     ("Tool execution failed: "
                      +:+ McpError_message MethodNotFound
                            ("Unknown tool: " +:+ name)))))
  /\ (forall args,
        Validator.validateImageUrl node (image_url args) = false ->
        call_tool (CallDownloadImage args)
        = Some (Failed InternalError
                  (McpError_message InternalError
                     ("Tool execution failed: Invalid image URL: "
                      +:+ image_url args)))).
Proof.
  split; [|split; [|split; [|split]]].
  - intros call code message. unfold callTool.
    destruct (callTool_try _ _ _ _ _ _ _ _ call) as [[reply|caught|]|]; try done.
    intros [= <- <-]. split; [done|]. by exists caught.
  - intros call caught Htry. unfold callTool. by rewrite Htry.
  - intros call reply Htry. unfold callTool. by rewrite Htry.
  - done.
  - intros args Hbad. unfold callTool, callTool_try, handleDownloadImage.
    rewrite Hbad. cbn [negb]. reflexivity.
Qed.

End Dispatch.

End HandlerFacts.

(** ** fileManager.js *)

Module FileManagerFacts.
Import FileManager.

(** *** [generateUniqueFilename] *)

Section Unique.
Variable node : Node.Platform.
Variable fs : FileSystem.
Variables dirPath baseName extension : string.

(** The candidate numbered [counter] names an existing file. *)
Definition taken (counter : nat) : bool :=
  fileExists fs (Node.path_join node dirPath (candidate baseName extension counter)).

Lemma loop_returns fuel : forall counter f,
  generateUniqueFilename_loop fuel node fs dirPath baseName extension counter = Some f
  <-> exists k, (counter <= k <= counter + fuel)%nat
                /\ f = candidate baseName extension k
                /\ taken k = false
                /\ forall j, (counter <= j < k)%nat -> taken j = true.
Proof.
  induction fuel as [|fuel IH]; intros counter f; simpl;
    fold (taken counter); destruct (taken counter) eqn:Ht.
  - split; [done|]. intros (k & Hk & _ & Hfree & _).
    assert (k = counter) as -> by lia. congruence.
  - split.
    + intros [= <-]. exists counter. repeat split; [lia|lia|done|]. intros j Hj. lia.
    + intros (k & Hk & -> & _). by assert (k = counter) as -> by lia.
  - rewrite IH. split.
    + intros (k & Hk & -> & Hfree & Hbefore). exists k.
      split; [lia|]. split; [done|]. split; [done|].
      intros j Hj. destruct (decide (j = counter)) as [->|Hne]; [done|].
      apply Hbefore. lia.
    + intros (k & Hk & -> & Hfree & Hbefore). exists k.
      assert (k <> counter) by congruence.
      split; [lia|]. split; [done|]. split; [done|].
      intros j Hj. apply Hbefore. lia.
  - split.
    + intros [= <-]. exists counter. repeat split; [lia|lia|done|]. intros j Hj. lia.
    + intros (k & Hk & -> & Hfree & Hbefore).
      destruct (decide (k = counter)) as [->|Hne]; [done|].
      rewrite Hbefore in Ht; [done|lia].
Qed.

Lemma loop_gives_up fuel : forall counter,
  generateUniqueFilename_loop fuel node fs dirPath baseName extension counter = None
  <-> forall j, (counter <= j <= counter + fuel)%nat -> taken j = true.
Proof.
  induction fuel as [|fuel IH]; intros counter; simpl;
    fold (taken counter); destruct (taken counter) eqn:Ht.
  - split; [|done]. intros _ j Hj. by assert (j = counter) as -> by lia.
  - split; [done|]. intros Hall. rewrite Hall in Ht; [done|lia].
  - rewrite IH. split.
    + intros Hall j Hj. destruct (decide (j = counter)) as [->|Hne]; [done|].
      apply Hall. lia.
    + intros Hall j Hj. apply Hall. lia.
  - split; [done|]. intros Hall. rewrite Hall in Ht; [done|lia].
Qed.

(** X19. [generateUniqueFilename] returns the first candidate of
    the sequence base.ext, base_1.ext, base_2.ext, ... that names no
    existing file in the directory: what it returns does not exist,
    and every candidate before it does. It keeps counting for as
    long as the candidates exist: it gives no name within [fuel]
    rounds exactly when the first [fuel + 1] candidates all exist. *)
Theorem generateUniqueFilename_first_free (fuel : nat) :
  (forall f,
     generateUniqueFilename fuel node fs dirPath baseName extension = Some f
     <-> exists k, (k <= fuel)%nat
                   /\ f = candidate baseName extension k
                   /\ fileExists fs (Node.path_join node dirPath f) = false
                   /\ forall j, (j < k)%nat -> taken j = true)
  /\ (generateUniqueFilename fuel node fs dirPath baseName extension = None
      <-> forall j, (j <= fuel)%nat -> taken j = true).
Proof.
  unfold generateUniqueFilename. split.
  - intros f. rewrite loop_returns. split.
    + intros (k & Hk & -> & Hfree & Hbefore). exists k.
      split; [lia|]. split; [done|]. split; [done|].
      intros j Hj. apply Hbefore. lia.
    + intros (k & Hk & -> & Hfree & Hbefore). exists k.
      split; [lia|]. split; [done|]. split; [done|].
      intros j Hj. apply Hbefore. lia.
  - rewrite loop_gives_up. split; intros Hall j Hj; apply Hall; lia.
Qed.

End Unique.

(** *** [cleanupOldFiles] *)

Section Cleanup.
Variable node : Node.Platform.
Variable fs : FileSystem.
Variable dirPath : string.
Variable maxAge : option Z.
Variable now : Z.

Definition pathOf (file : string) : string := Node.path_join node dirPath file.

(** The file can be examined and was modified more than the maximum
    age ago. *)
Definition isOld (file : string) : bool :=
  match fs_stat_mtime fs (pathOf file) with
  | JS.Normal mtime => default (24 * 60 * 60 * 1000) maxAge <? now - mtime
  | JS.Throw _ => false
  end.

(** What stops the loop at [file]: its [stat] fails, or it is old
    and its [unlink] fails. *)
Definition stopsAt (file message : string) : Prop :=
  (exists e, fs_stat_mtime fs (pathOf file) = JS.Throw e
             /\ message = "Failed to get file stats for " +:+ pathOf file +:+ ": " +:+ e)
  \/ (isOld file = true
      /\ exists e, fs_unlink fs (pathOf file) = JS.Throw e
                   /\ message = "Failed to delete file " +:+ pathOf file +:+ ": " +:+ e).

(** The loop gets past [file]: its [stat] goes through and, if the
    file is old, so does its [unlink]. *)
Definition passes (file : string) : Prop :=
  (exists mtime, fs_stat_mtime fs (pathOf file) = JS.Normal mtime)
  /\ (isOld file = true -> fs_unlink fs (pathOf file) = JS.Normal tt).

Lemma passes_or_stops (file : string) :
  passes file \/ exists inner, stopsAt file inner.
Proof.
  unfold passes, stopsAt, isOld.
  destruct (fs_stat_mtime fs (pathOf file)) as [mtime|e] eqn:Hstat.
  - destruct (default (24 * 60 * 60 * 1000) maxAge <? now - mtime).
    + destruct (fs_unlink fs (pathOf file)) as [[]|e] eqn:Hunlink.
      * left. split; [eauto|done].
      * right. eexists. right. split; [done|]. eauto.
    + left. split; [eauto|done].
  - right. eexists. left. eauto.
Qed.

Lemma first_stop (files : list string) :
  (forall file, file ∈ files -> passes file)
  \/ exists before file after inner,
       files = before ++ file :: after
       /\ (forall f, f ∈ before -> passes f)
       /\ stopsAt file inner.
Proof.
  induction files as [|file rest IH]; [left; by intros f ?%elem_of_nil|].
  destruct (passes_or_stops file) as [Hpass|[inner Hstop]].
  - destruct IH as [Hall|(before & f & after & inner & -> & Hbefore & Hstop)].
    + left. by intros f [->|Hin]%elem_of_cons; [|apply Hall].
    + right. exists (file :: before), f, after, inner.
      split; [done|]. split; [|done].
      by intros g [->|Hin]%elem_of_cons; [|apply Hbefore].
  - right. exists [], file, rest, inner.
    split; [done|]. split; [|done]. by intros f ?%elem_of_nil.
Qed.

Local Abbreviation loop :=
  (cleanupOldFiles_loop node fs dirPath (default (24 * 60 * 60 * 1000) maxAge) now).

(** One round of the loop on a file that it gets past. *)
Lemma loop_passes file rest deletedCount unlinked :
  passes file ->
  loop (file :: rest) deletedCount unlinked
  = if isOld file
    then loop rest (deletedCount + 1) (unlinked ++ [pathOf file])
    else loop rest deletedCount unlinked.
Proof.
  intros [[mtime Hstat] Hunlink]. revert Hunlink. unfold isOld. simpl.
  fold (pathOf file). unfold getFileStats, deleteFile, JS.try_catch.
  rewrite Hstat.
  destruct (default (24 * 60 * 60 * 1000) maxAge <? now - mtime); [|done].
  intros Hunlink. by rewrite (Hunlink eq_refl).
Qed.

Lemma loop_stops file rest deletedCount unlinked inner :
  stopsAt file inner ->
  loop (file :: rest) deletedCount unlinked = (unlinked, JS.Throw inner).
Proof.
  intros [(e & Hstat & ->)|(Hold & e & Hunlink & ->)]; simpl;
    fold (pathOf file); unfold getFileStats, deleteFile, JS.try_catch.
  - by rewrite Hstat.
  - revert Hold. unfold isOld.
    destruct (fs_stat_mtime fs (pathOf file)) as [mtime|]; [|done].
    intros ->. by rewrite Hunlink.
Qed.

Lemma loop_completes files : forall deletedCount unlinked,
  (forall file, file ∈ files -> passes file) ->
  loop files deletedCount unlinked
  = (unlinked ++ map pathOf (List.filter isOld files),
     JS.Normal (deletedCount + Z.of_nat (length (List.filter isOld files)))).
Proof.
  induction files as [|file rest IH]; intros deletedCount unlinked Hall.
  - simpl. by rewrite app_nil_r, Z.add_0_r.
  - rewrite loop_passes by (apply Hall, list_elem_of_here).
    assert (Hrest : forall f, f ∈ rest -> passes f)
      by (intros f Hin; by apply Hall, list_elem_of_further).
    cbn [List.filter]. destruct (isOld file).
    + rewrite IH by done. cbn [map length]. rewrite <- app_assoc. cbn [app].
      do 2 f_equal. lia.
    + by rewrite IH.
Qed.

Lemma loop_interrupted before : forall file after inner deletedCount unlinked,
  (forall f, f ∈ before -> passes f) ->
  stopsAt file inner ->
  loop (before ++ file :: after) deletedCount unlinked
  = (unlinked ++ map pathOf (List.filter isOld before), JS.Throw inner).
Proof.
  induction before as [|first before IH];
    intros file after inner deletedCount unlinked Hbefore Hstop.
  - cbn [app List.filter map]. rewrite app_nil_r. by apply loop_stops.
  - cbn [app]. rewrite loop_passes by (apply Hbefore, list_elem_of_here).
    assert (Hrest : forall f, f ∈ before -> passes f)
      by (intros f Hin; by apply Hbefore, list_elem_of_further).
    cbn [List.filter]. destruct (isOld first).
    + rewrite (IH file after inner) by done. cbn [map]. by rewrite <- app_assoc.
    + by rewrite (IH file after inner).
Qed.

(** X20. [cleanupOldFiles] goes through the directory in the order
    of [readdir] and unlinks the files modified more than [maxAge]
    (24 hours by default) before now, strictly: a file exactly
    [maxAge] old is kept. When every [stat], and every [unlink] of an
    old file, goes through, it unlinks all the old files and returns
    their number. Otherwise the first file whose [stat] fails, or
    which is old and whose [unlink] fails, stops it: exactly the old
    files listed before that one are unlinked, and it throws the
    message of the failing step behind "Failed to cleanup old files
    in " and the directory. A failing [readdir] is reported in the
    same way, with nothing unlinked. *)
Theorem cleanupOldFiles_unlinks_the_old_files :
  match fs_readdir fs dirPath with
  | JS.Throw e =>
      cleanupOldFiles node fs dirPath maxAge now
      = ([], JS.Throw ("Failed to cleanup old files in " +:+ dirPath
                       +:+ ": Failed to read directory " +:+ dirPath +:+ ": " +:+ e))
  | JS.Normal files =>
      ((forall file, file ∈ files -> passes file) ->
       cleanupOldFiles node fs dirPath maxAge now
       = (map pathOf (List.filter isOld files),
          JS.Normal (Z.of_nat (length (List.filter isOld files)))))
      /\ (forall before file after inner,
            files = before ++ file :: after ->
            (forall f, f ∈ before -> passes f) ->
            stopsAt file inner ->
            cleanupOldFiles node fs dirPath maxAge now
            = (map pathOf (List.filter isOld before),
               JS.Throw ("Failed to cleanup old files in " +:+ dirPath
                         +:+ ": " +:+ inner)))
      /\ ((forall file, file ∈ files -> passes file)
          \/ exists before file after inner,
               files = before ++ file :: after
               /\ (forall f, f ∈ before -> passes f)
               /\ stopsAt file inner)
  end.
Proof.
  unfold cleanupOldFiles, getDirectoryContents, JS.try_catch. cbv zeta.
  destruct (fs_readdir fs dirPath) as [files|e]; [|done].
  split; [|split].
  - intros Hall. by rewrite (loop_completes files 0 [] Hall).
  - intros before file after inner -> Hbefore Hstop.
    by rewrite (loop_interrupted before file after inner 0 [] Hbefore Hstop).
  - apply first_stop.
Qed.

End Cleanup.

(** *** [cleanFilename] *)

Fixpoint allChars (P : ascii -> bool) (s : string) : bool :=
  match s with
  | EmptyString => true
  | String c s' => P c && allChars P s'
  end.

Definition startsWithUnderscore (s : string) : bool :=
  match s with
  | EmptyString => false
  | String c _ => isUnderscore c
  end.

Fixpoint endsWithUnderscore (s : string) : bool :=
  match s with
  | EmptyString => false
  | String c EmptyString => isUnderscore c
  | String _ s' => endsWithUnderscore s'
  end.

Fixpoint noDoubleUnderscore (s : string) : bool :=
  match s with
  | EmptyString => true
  | String c s' =>
      negb (isUnderscore c && startsWithUnderscore s') && noDoubleUnderscore s'
  end.

(** A character that the first two replacements leave alone. *)
Definition plain (c : ascii) : bool := negb (isInvalidChar c) && negb (isSpace c).

Lemma isUnderscore_eq c : isUnderscore c = true -> c = "_"%char.
Proof. unfold isUnderscore. by intros ?%Ascii.eqb_eq. Qed.

Lemma allChars_In P s c :
  allChars P s = true -> In c (list_ascii_of_string s) -> P c = true.
Proof.
  induction s as [|x s IH]; simpl; [done|].
  intros [Hx Hs]%andb_true_iff [<-|Hin]; [done|by apply IH].
Qed.

Lemma noDoubleUnderscore_no_pair s a b :
  noDoubleUnderscore s = true -> s <> a +:+ "__" +:+ b.
Proof.
  revert s. induction a as [|x a IH]; intros s Hs ->.
  - rewrite StringFacts.append_nil_l in Hs. by destruct b.
  - rewrite StringFacts.append_cons in Hs. simpl in Hs.
    apply andb_true_iff in Hs as [_ Hs]. by apply (IH _ Hs).
Qed.

Lemma endsWithUnderscore_append a : endsWithUnderscore (a +:+ "_") = true.
Proof.
  induction a as [|x a IH]; [done|].
  rewrite StringFacts.append_cons.
  destruct a as [|y a]; [done|].
  rewrite StringFacts.append_cons in *. exact IH.
Qed.

(** The passes, one by one. *)
Lemma replaceInvalid_chars s :
  allChars (fun c => negb (isInvalidChar c)) (replaceInvalid s) = true.
Proof.
  induction s as [|c s IH]; simpl; [done|].
  rewrite IH, andb_true_r. by destruct (isInvalidChar c) eqn:Hc; [|rewrite Hc].
Qed.

Lemma squeeze_keeps (Q C : ascii -> bool) s : forall inRun,
  Q "_"%char = true -> allChars Q s = true -> allChars Q (squeeze C inRun s) = true.
Proof.
  induction s as [|c s IH]; intros inRun Hu; simpl; [done|].
  intros [Hc Hs]%andb_true_iff.
  destruct (C c); [destruct inRun|]; simpl; rewrite ?Hu, ?Hc; simpl; by apply IH.
Qed.

Lemma squeeze_removes (C : ascii -> bool) s : forall inRun,
  C "_"%char = false -> allChars (fun c => negb (C c)) (squeeze C inRun s) = true.
Proof.
  induction s as [|c s IH]; intros inRun Hu; simpl; [done|].
  destruct (C c) eqn:Hc; [destruct inRun|]; simpl; rewrite ?Hu, ?Hc; simpl; by apply IH.
Qed.

Lemma allChars_and P Q s :
  allChars P s = true -> allChars Q s = true ->
  allChars (fun c => P c && Q c) s = true.
Proof.
  induction s as [|c s IH]; simpl; [done|].
  intros [-> Hp]%andb_true_iff [-> Hq]%andb_true_iff. by apply IH.
Qed.

Lemma squeeze_underscores s : forall inRun,
  noDoubleUnderscore (squeeze isUnderscore inRun s) = true
  /\ (inRun = true -> startsWithUnderscore (squeeze isUnderscore inRun s) = false).
Proof.
  induction s as [|c s IH]; intros inRun; simpl; [done|].
  destruct (isUnderscore c) eqn:Hc; [destruct inRun|].
  - apply IH.
  - destruct (IH true) as [Hno Hstart]. simpl.
    rewrite Hno, (Hstart eq_refl). done.
  - destruct (IH false) as [Hno _]. simpl. rewrite Hc, Hno. done.
Qed.

Lemma dropLeading_keeps P s :
  allChars P s = true -> allChars P (dropLeadingUnderscores s) = true.
Proof.
  induction s as [|c s IH]; simpl; [done|].
  intros [Hc Hs]%andb_true_iff. destruct (isUnderscore c); [by apply IH|].
  simpl. by rewrite Hc, Hs.
Qed.

Lemma dropLeading_underscores s :
  noDoubleUnderscore s = true ->
  noDoubleUnderscore (dropLeadingUnderscores s) = true
  /\ startsWithUnderscore (dropLeadingUnderscores s) = false.
Proof.
  induction s as [|c s IH]; simpl; [done|].
  intros [Hc Hs]%andb_true_iff. destruct (isUnderscore c) eqn:Hu; [by apply IH|].
  simpl. by rewrite Hu, Hs.
Qed.

Lemma dropTrailing_head s d r :
  dropTrailingUnderscores s = String d r -> exists r', s = String d r'.
Proof.
  destruct s as [|c s]; simpl; [done|].
  destruct (dropTrailingUnderscores s); [destruct (isUnderscore c)|];
    intros [= <- <-]; eauto.
Qed.

Lemma dropTrailing_start s :
  startsWithUnderscore s = false ->
  startsWithUnderscore (dropTrailingUnderscores s) = false.
Proof.
  destruct (dropTrailingUnderscores s) as [|d r] eqn:Hd; [done|].
  apply dropTrailing_head in Hd as [r' ->]. done.
Qed.

Lemma dropTrailing_keeps P s :
  allChars P s = true -> allChars P (dropTrailingUnderscores s) = true.
Proof.
  induction s as [|c s IH]; simpl; [done|].
  intros [Hc Hs]%andb_true_iff. specialize (IH Hs).
  destruct (dropTrailingUnderscores s); [destruct (isUnderscore c)|]; simpl in *;
    by rewrite ?Hc, ?IH.
Qed.

Lemma dropTrailing_underscores s :
  noDoubleUnderscore s = true ->
  noDoubleUnderscore (dropTrailingUnderscores s) = true.
Proof.
  induction s as [|c s IH]; simpl; [done|].
  intros [Hc Hs]%andb_true_iff. specialize (IH Hs).
  destruct (dropTrailingUnderscores s) as [|d r] eqn:Hd;
    [destruct (isUnderscore c); simpl; by rewrite ?andb_false_r|].
  apply dropTrailing_head in Hd as [r' ->].
  change (noDoubleUnderscore (String c (String d r)))
    with (negb (isUnderscore c && isUnderscore d) && noDoubleUnderscore (String d r)).
  simpl in Hc. by rewrite Hc, IH.
Qed.

Lemma dropTrailing_end s : endsWithUnderscore (dropTrailingUnderscores s) = false.
Proof.
  induction s as [|c s IH]; simpl; [done|].
  destruct (dropTrailingUnderscores s) as [|d r].
  - by destruct (isUnderscore c) eqn:Hc; simpl; rewrite ?Hc.
  - exact IH.
Qed.

Lemma substring_keeps P n : forall s,
  allChars P s = true -> allChars P (String.substring 0 n s) = true.
Proof.
  induction n as [|n IH]; intros [|c s]; simpl; try done.
  intros [-> Hs]%andb_true_iff. by apply IH.
Qed.

Lemma substring_start n s :
  startsWithUnderscore s = false ->
  startsWithUnderscore (String.substring 0 n s) = false.
Proof. by destruct n, s. Qed.

Lemma substring_underscores n : forall s,
  noDoubleUnderscore s = true ->
  noDoubleUnderscore (String.substring 0 n s) = true.
Proof.
  induction n as [|n IH]; intros [|c s]; simpl; try done.
  intros [Hc Hs]%andb_true_iff. rewrite (IH s Hs), andb_true_r.
  destruct (isUnderscore c); [|done]. simpl in *.
  apply negb_true_iff in Hc. by rewrite (substring_start n s Hc).
Qed.

Lemma substring_length n : forall s,
  (String.length (String.substring 0 n s) <= n)%nat
  /\ ((String.length s <= n)%nat -> String.substring 0 n s = s)
  /\ ((String.length (String.substring 0 n s) < n)%nat -> String.substring 0 n s = s).
Proof.
  induction n as [|n IH]; intros [|c s]; simpl; try (repeat split; done || lia).
  destruct (IH s) as (Hle & Hshort & Hcut).
  split; [lia|]. split; intros Hlt; f_equal; [apply Hshort|apply Hcut]; lia.
Qed.

(** The name before the cut at 255. *)
Definition uncut (filename : string) : string :=
  dropTrailingUnderscores
    (dropLeadingUnderscores
       (squeeze isUnderscore false
          (squeeze isSpace false (replaceInvalid filename)))).

Lemma uncut_clean filename :
  allChars plain (uncut filename) = true
  /\ noDoubleUnderscore (uncut filename) = true
  /\ startsWithUnderscore (uncut filename) = false
  /\ endsWithUnderscore (uncut filename) = false.
Proof.
  unfold uncut.
  pose proof (squeeze_underscores (squeeze isSpace false (replaceInvalid filename)) false)
    as [Hno _].
  apply dropLeading_underscores in Hno as [Hno Hstart].
  split; [|split; [|split]].
  - apply dropTrailing_keeps, dropLeading_keeps, squeeze_keeps; [done|].
    apply allChars_and.
    + apply squeeze_keeps; [done|apply replaceInvalid_chars].
    + by apply squeeze_removes.
  - by apply dropTrailing_underscores.
  - by apply dropTrailing_start.
  - apply dropTrailing_end.
Qed.

(** X21. The name that [cleanFilename] returns holds none of the
    characters less-than, greater-than, colon, double quote, slash,
    backslash, bar, question mark and star, and no white space; it has
    no two underscores in a row, does not start with an underscore and
    has at most 255 characters. It does not end with an underscore
    either, unless the cut at 255 characters left one at the end. *)
Theorem cleanFilename_is_clean (filename : string) :
  let name := cleanFilename filename in
  (forall c, In c (list_ascii_of_string name) ->
             isInvalidChar c = false /\ isSpace c = false)
  /\ (forall a b, name <> a +:+ "__" +:+ b)
  /\ (forall rest, name <> String "_" rest)
  /\ (String.length name <= 255)%nat
  /\ ((String.length name < 255)%nat -> forall a, name <> a +:+ "_").
Proof.
  cbv zeta. change (cleanFilename filename) with (String.substring 0 255 (uncut filename)).
  destruct (uncut_clean filename) as (Hchars & Hno & Hstart & Hend).
  destruct (substring_length 255 (uncut filename)) as (Hle & _ & Hcut).
  split; [|split; [|split; [|split]]].
  - intros c Hin.
    pose proof (allChars_In plain _ c (substring_keeps plain 255 _ Hchars) Hin) as Hc.
    apply andb_true_iff in Hc as [Hi Hs].
    by apply negb_true_iff in Hi, Hs.
  - intros a b. apply noDoubleUnderscore_no_pair. by apply substring_underscores.
  - intros rest Hname. apply (substring_start 255) in Hstart.
    by rewrite Hname in Hstart.
  - exact Hle.
  - intros Hlt a Hname. rewrite (Hcut Hlt) in Hname.
    by rewrite Hname, endsWithUnderscore_append in Hend.
Qed.

(** A clean name passes through every replacement unchanged. *)
Lemma replaceInvalid_id s :
  allChars plain s = true -> replaceInvalid s = s.
Proof.
  induction s as [|c s IH]; simpl; [done|].
  intros [[Hc _]%andb_true_iff Hs]%andb_true_iff.
  apply negb_true_iff in Hc. by rewrite Hc, IH.
Qed.

Lemma squeeze_space_id s : forall inRun,
  allChars plain s = true -> squeeze isSpace inRun s = s.
Proof.
  induction s as [|c s IH]; intros inRun; simpl; [done|].
  intros [[_ Hc]%andb_true_iff Hs]%andb_true_iff.
  apply negb_true_iff in Hc. by rewrite Hc, IH.
Qed.

Lemma squeeze_underscore_id s : forall inRun,
  noDoubleUnderscore s = true ->
  (inRun = true -> startsWithUnderscore s = false) ->
  squeeze isUnderscore inRun s = s.
Proof.
  induction s as [|c s IH]; intros inRun; simpl; [done|].
  intros [Hc Hs]%andb_true_iff Hstart.
  destruct (isUnderscore c) eqn:Hu.
  - destruct inRun; [by specialize (Hstart eq_refl)|].
    apply isUnderscore_eq in Hu as ->. f_equal. apply IH; [done|].
    intros _. by apply negb_true_iff in Hc.
  - f_equal. by apply IH.
Qed.

Lemma dropLeading_id s :
  startsWithUnderscore s = false -> dropLeadingUnderscores s = s.
Proof. destruct s as [|c s]; simpl; [done|]. by intros ->. Qed.

Lemma dropTrailing_id s :
  endsWithUnderscore s = false -> dropTrailingUnderscores s = s.
Proof.
  induction s as [|c s IH]; [done|].
  intros Hend. simpl. destruct s as [|d s].
  - simpl in *. by rewrite Hend.
  - rewrite IH; [done|exact Hend].
Qed.

(** X22. Cleaning a name again changes nothing, provided that the
    cut at 255 characters did not apply: a name returned with fewer
    than 255 characters is a fixed point of [cleanFilename]. *)
Theorem cleanFilename_cleans_once (filename : string) :
  (String.length (cleanFilename filename) < 255)%nat ->
  cleanFilename (cleanFilename filename) = cleanFilename filename.
Proof.
  change (cleanFilename filename) with (String.substring 0 255 (uncut filename)).
  intros Hlt.
  destruct (substring_length 255 (uncut filename)) as (_ & _ & Hcut).
  rewrite (Hcut Hlt) in *.
  destruct (uncut_clean filename) as (Hchars & Hno & Hstart & Hend).
  unfold cleanFilename.
  rewrite (replaceInvalid_id _ Hchars), (squeeze_space_id _ _ Hchars),
    (squeeze_underscore_id _ _ Hno ltac:(done)), (dropLeading_id _ Hstart),
    (dropTrailing_id _ Hend).
  apply substring_length. lia.
Qed.

Lemma cleanFilename_cleans_once_witness :
  cleanFilename "  my: photo??.png " = "my_photo_.png"
  /\ cleanFilename (cleanFilename "  my: photo??.png ")
     = cleanFilename "  my: photo??.png ".
Proof.
  split; [reflexivity|].
  apply (cleanFilename_cleans_once "  my: photo??.png ").
  vm_compute. lia.
Defined.

End FileManagerFacts.

(** ** File names and the two processing paths *)

Module NamingFacts.
Import ImageDownloader.

Lemma or_else_not_empty a b : b <> "" -> or_else a b <> "".
Proof. unfold or_else. intros Hb. by destruct (String.eqb_spec a ""). Qed.

(** The extension that the content type decides: for the four types
    of the table, for a key inherited from [Object.prototype], and for
    none. *)
Lemma typeMap_cases (contentType fallback : string) :
  (contentType = "image/jpeg" -> or_else (typeMap contentType) fallback = "jpg")
  /\ (contentType = "image/png" -> or_else (typeMap contentType) fallback = "png")
  /\ (contentType = "image/webp" -> or_else (typeMap contentType) fallback = "webp")
  /\ (contentType = "image/gif" -> or_else (typeMap contentType) fallback = "gif")
  /\ (forall text,
        JS.Object_prototype contentType = Some text ->
        or_else (typeMap contentType) fallback = text)
  /\ (contentType <> "image/jpeg" -> contentType <> "image/png" ->
      contentType <> "image/webp" -> contentType <> "image/gif" ->
      JS.Object_prototype contentType = None ->
      or_else (typeMap contentType) fallback = fallback).
Proof.
  split; [by intros ->|]. split; [by intros ->|].
  split; [by intros ->|]. split; [by intros ->|]. split.
  - intros text Htext. unfold typeMap.
    destruct (String.eqb_spec contentType "image/jpeg") as [->|_]; [done|].
    destruct (String.eqb_spec contentType "image/png") as [->|_]; [done|].
    destruct (String.eqb_spec contentType "image/webp") as [->|_]; [done|].
    destruct (String.eqb_spec contentType "image/gif") as [->|_]; [done|].
    rewrite Htext. cbn [default from_option id]. unfold or_else.
    destruct (String.eqb_spec text "") as [->|]; [|done].
    revert Htext. unfold JS.Object_prototype.
    repeat match goal with
           | |- context [if ?b then _ else _] => destruct b; try discriminate
           end.
  - intros H1 H2 H3 H4 Hnone. unfold typeMap.
    destruct (String.eqb_spec contentType "image/jpeg"); [done|].
    destruct (String.eqb_spec contentType "image/png"); [done|].
    destruct (String.eqb_spec contentType "image/webp"); [done|].
    destruct (String.eqb_spec contentType "image/gif"); [done|].
    by rewrite Hnone.
Qed.

Section Names.
Variable node : Node.Platform.
Variable proxyConfig : option string.
Variable w : World.

(** X23. [generateFilename] throws only when the url does not
    parse. Otherwise the name it builds is a stem, an underscore, the
    reading of the clock, a dot and an extension, and neither the stem
    nor the extension is empty: the stem falls back to "image" and the
    extension to "jpg". A format decides the extension alone, "jpeg"
    being written "jpg". Without a format the content type is looked
    up in a table: one of the four types that the table holds
    decides the extension; a content type that names a property
    which every object inherits, such as "constructor", finds that
    property, and its text becomes the extension; any other content
    type leaves the extension to the url. *)
Theorem generateFilename_shape (url contentType : string) (format : option string) :
  match Node.URL_parse node url with
  | None => generateFilename node w url contentType format = JS.Throw "Invalid URL"
  | Some urlObj =>
      exists stem extension,
        generateFilename node w url contentType format
        = JS.Normal (stem +:+ "_" +:+ pretty (Date_now w) +:+ "." +:+ extension)
        /\ stem <> "" /\ extension <> ""
        /\ stem = or_else (Node.path_parse_name node
                             (or_else (Node.path_basename node (Node.pathname urlObj))
                                "image")) "image"
        /\ (forall f, format = Some f -> f <> "" ->
              extension = if String.eqb f "jpeg" then "jpg" else f)
        /\ (JS.truthy_string format = false ->
              (contentType = "image/jpeg" -> extension = "jpg")
              /\ (contentType = "image/png" -> extension = "png")
              /\ (contentType = "image/webp" -> extension = "webp")
              /\ (contentType = "image/gif" -> extension = "gif")
              /\ (forall text,
                    JS.Object_prototype contentType = Some text ->
                    extension = text)
              /\ (contentType <> "image/jpeg" -> contentType <> "image/png" ->
                  contentType <> "image/webp" -> contentType <> "image/gif" ->
                  JS.Object_prototype contentType = None ->
                  extension
                  = or_else
                      (slice1 (Node.path_extname node
                                 (or_else (Node.path_basename node
                                             (Node.pathname urlObj)) "image")))
                      "jpg"))
  end.
Proof.
  unfold generateFilename, Node.new_URL.
  destruct (Node.URL_parse node url) as [urlObj|]; [|done]. cbn. cbv zeta.
  eexists _, _. split; [reflexivity|]. split; [by apply or_else_not_empty|].
  destruct format as [f|]; cbn [JS.truthy_string default from_option id].
  - destruct (String.eqb_spec f "") as [->|Hf]; cbn [negb].
    + split; [by do 2 apply or_else_not_empty|]. split; [done|].
      split; [by intros ? [= <-]|].
      intros _. apply typeMap_cases.
    + split; [by destruct (String.eqb f "jpeg")|]. split; [done|].
      split; [by intros ? [= <-]|done].
  - split; [by do 2 apply or_else_not_empty|]. split; [done|]. split; [done|].
    intros _. apply typeMap_cases.
Qed.

(** X24. When the probe of a url fails, [getImageInfo] answers
    "image/jpeg"; a file name generated from that answer without a
    format therefore ends in ".jpg", whatever extension the url
    has. *)
Theorem failed_probe_names_the_file_jpg (url message : string)
    (format : option string) (urlObj : Node.URL) :
  http_head w url = JS.Throw message ->
  JS.truthy_string format = false ->
  Node.URL_parse node url = Some urlObj ->
  exists info stem,
    getImageInfo node proxyConfig w url = JS.Normal info
    /\ generateFilename node w url (contentType info) format
       = JS.Normal (stem +:+ "_" +:+ pretty (Date_now w) +:+ ".jpg").
Proof.
  intros Hhead Hformat Hparse.
  exists {| contentType := "image/jpeg"; contentLength := 0 |}.
  assert (Hinfo : getImageInfo node proxyConfig w url
                  = JS.Normal {| contentType := "image/jpeg"; contentLength := 0 |}).
  { unfold getImageInfo, JS.try_catch.
    destruct (createAxiosConfig node proxyConfig) as [[]|m]; cbn; [|done].
    by rewrite Hhead. }
  eexists. split; [exact Hinfo|].
  unfold generateFilename, Node.new_URL. rewrite Hparse, Hformat. reflexivity.
Qed.

(** X25. A url that [validateImageUrl] accepts always gets a file
    name: [generateFilename] does not throw for it, whatever the
    content type and the format. *)
Theorem accepted_url_gets_a_name (url contentType : string) (format : option string) :
  Validator.validateImageUrl node url = true ->
  exists urlObj stem extension,
    Node.URL_parse node url = Some urlObj
    /\ generateFilename node w url contentType format
       = JS.Normal (stem +:+ "_" +:+ pretty (Date_now w) +:+ "." +:+ extension)
    /\ stem = or_else (Node.path_parse_name node
                         (or_else (Node.path_basename node (Node.pathname urlObj))
                            "image")) "image".
Proof.
  intros (_ & urlObj & Hparse & _)%ServerFacts.validateImageUrl_spec.
  exists urlObj. unfold generateFilename, Node.new_URL. rewrite Hparse.
  eexists _, _. split; [done|]. split; reflexivity.
Qed.

End Names.

(** A png url whose probe times out. *)
Lemma failed_probe_names_the_file_jpg_witness :
  exists info stem,
    getImageInfo ReferencePlatform.node None Scenarios.probeDownWorld
      "https://example.com/a.png" = JS.Normal info
    /\ generateFilename ReferencePlatform.node Scenarios.probeDownWorld
         "https://example.com/a.png" (contentType info) None
       = JS.Normal (stem +:+ "_" +:+ pretty (Date_now Scenarios.probeDownWorld)
                    +:+ ".jpg").
Proof.
  exact (failed_probe_names_the_file_jpg ReferencePlatform.node None
           Scenarios.probeDownWorld "https://example.com/a.png"
           "timeout of 10000ms exceeded" None
           (Node.mkURL "https:" "/a.png" "")
           eq_refl eq_refl eq_refl).
Defined.

Lemma accepted_url_gets_a_name_witness :
  exists urlObj stem extension,
    Node.URL_parse ReferencePlatform.node "https://example.com/a.png" = Some urlObj
    /\ generateFilename ReferencePlatform.node Scenarios.calmWorld
         "https://example.com/a.png" "image/png" None
       = JS.Normal (stem +:+ "_" +:+ pretty (Date_now Scenarios.calmWorld)
                    +:+ "." +:+ extension)
    /\ stem = "a".
Proof.
  destruct (accepted_url_gets_a_name ReferencePlatform.node Scenarios.calmWorld
              "https://example.com/a.png" "image/png" None eq_refl)
    as (urlObj & stem & extension & Hparse & Hname & Hstem).
  exists urlObj, stem, extension. split; [exact Hparse|]. split; [exact Hname|].
  rewrite Hstem. injection Hparse as <-. reflexivity.
Defined.

End NamingFacts.
